(** * 840utils: the beatmap downloader ([beatmap_downloader.py])

    A shallow embedding of the download pipeline: the filename sanitizer,
    the [download_map] coroutine cut at its suspension points, the
    [asyncio.gather] of one batch under an arbitrary wake-up order, the
    [while running] loop of [main] with its [try / except / finally], the
    login handshake and the [__main__] block.

    Everything the program does to the outside world (HTTP requests, file
    operations, console output) is recorded as a list of [Event]s; everything
    the outside world decides (server replies, the order in which network
    data arrives, what the user types) is read from a [World].

    A [KeyboardInterrupt] is delivered at the two places where the program
    waits for the network inside its loop: while [main] blocks in
    [query_maps], where [main]'s own handler catches it, and while [main] is
    suspended in [asyncio.gather], where it is raised in the event loop and
    never reaches [main].

    Left out: transport failures of the login and logout requests, a
    [KeyboardInterrupt] or end of input at one of the three prompts, rich
    refusing the markup of the argument it is asked to echo, and an
    empty-string command-line argument. *)

From Stdlib Require Import ZArith List String Ascii Bool Lia Sorted.
From stdpp Require Import base list.
Import ListNotations.

Open Scope Z_scope.

(** ** Python strings

    A Python [str] is modelled by its UTF-8 bytes.  Every pattern the
    program searches for is ASCII, and an ASCII byte never occurs inside a
    multi-byte UTF-8 sequence, so replacing or stripping bytes agrees with
    replacing or stripping code points. *)

Module PyStr.

(** [s.replace(old, new)] for one-character [old] and [new]. *)
Fixpoint replace (old new : ascii) (s : string) : string :=
  match s with
  | EmptyString => EmptyString
  | String c s' =>
      String (if Ascii.eqb c old then new else c) (replace old new s')
  end.

(** [s.startswith(p)] *)
Fixpoint startswith (p s : string) : bool :=
  match p, s with
  | EmptyString, _ => true
  | String a p', String b s' => Ascii.eqb a b && startswith p' s'
  | String _ _, EmptyString => false
  end.

(** [s[n:]] *)
Fixpoint drop (n : nat) (s : string) : string :=
  match n, s with
  | O, _ => s
  | S n', String _ s' => drop n' s'
  | S _, EmptyString => EmptyString
  end.

(** [s[:n]] *)
Fixpoint take (n : nat) (s : string) : string :=
  match n, s with
  | O, _ => EmptyString
  | S n', String c s' => String c (take n' s')
  | S _, EmptyString => EmptyString
  end.

(** [s.removeprefix(p)]: [s[len(p):]] when [s] starts with [p], else [s]. *)
Definition removeprefix (p s : string) : string :=
  if startswith p s then drop (String.length p) s else s.

(** [s.endswith(p)] *)
Definition endswith (p s : string) : bool :=
  (String.length p <=? String.length s)%nat
  && String.eqb (drop (String.length s - String.length p) s) p.

(** [s.removesuffix(p)]: [s[:-len(p)]] when [p] is non-empty and [s] ends
    with it, else [s]. *)
Definition removesuffix (p s : string) : string :=
  if negb (String.length p =? 0)%nat && endswith p s
  then take (String.length s - String.length p) s
  else s.

(** A character-wise map, used to describe [replace] chains. *)
Fixpoint map (f : ascii -> ascii) (s : string) : string :=
  match s with
  | EmptyString => EmptyString
  | String c s' => String (f c) (map f s')
  end.

End PyStr.

(** ** Filename sanitization *)

Definition lt_sign : ascii := "<"%char.
Definition gt_sign : ascii := ">"%char.
Definition slash : ascii := "/"%char.
Definition backslash : ascii := "092"%char.
Definition colon : ascii := ":"%char.
Definition star : ascii := "*"%char.
Definition question : ascii := "?"%char.
Definition dquote : ascii := "034"%char.
Definition pipe : ascii := "|"%char.
Definition underscore : ascii := "_"%char.

(** The nine characters [fixedfilename] replaces, in the order of its
    [replace] calls. *)
Definition reserved_chars : list ascii :=
  [lt_sign; gt_sign; slash; backslash; colon; star; question; dquote; pipe].

Definition fixedfilename (filename : string) : string :=
  PyStr.replace pipe underscore
    (PyStr.replace dquote underscore
      (PyStr.replace question underscore
        (PyStr.replace star underscore
          (PyStr.replace colon underscore
            (PyStr.replace backslash underscore
              (PyStr.replace slash underscore
                (PyStr.replace gt_sign underscore
                  (PyStr.replace lt_sign underscore filename)))))))).

(** Membership in [reserved_chars], as a boolean. *)
Definition is_reserved (c : ascii) : bool :=
  existsb (Ascii.eqb c) reserved_chars.

(** What one left-to-right pass over the name would do to a character. *)
Definition sanitize_char (c : ascii) : ascii :=
  if is_reserved c then underscore else c.

(** ** Exceptions and completions *)

Inductive exn : Type :=
| KeyboardInterrupt                 (* not an [Exception] *)
| SystemExit                        (* raised by [exit()]; not an [Exception] *)
| RateLimited                       (* [Exception("429 Too Many Requests")] *)
| KeyError (key : string)           (* a missing response header *)
| ValueError                        (* [int()] or [.json()] on malformed text *)
| TransportError                    (* any [httpx] transport failure *)
| OSError                           (* [open], [write] or [close] failing *)
| AttributeError (attr : string)
| NameError (name : string).

(** [isinstance(e, Exception)] *)
Definition is_Exception (e : exn) : bool :=
  match e with
  | KeyboardInterrupt | SystemExit => false
  | _ => true
  end.

(** How a computation ends.  [Pending] is not a Python outcome: it marks a
    run whose [while] loop is still going when the fuel of the model is
    used up.  [Interrupted] is how a coroutine ends that is suspended when
    Ctrl-C arrives: the [KeyboardInterrupt] is raised in the event loop, the
    coroutine is never resumed, none of its handlers runs, and
    [run_until_complete] raises the interrupt to its caller. *)
Inductive completion (A : Type) : Type :=
| Done (a : A)
| Raised (e : exn)
| Pending
| Interrupted.

Arguments Done {A} a.
Arguments Raised {A} e.
Arguments Pending {A}.
Arguments Interrupted {A}.

(** ** Data exchanged with the servers *)

(** [class Beatmap]: of its 26 fields the downloader reads [beatmapset_id]
    only; the others are validated by pydantic inside [query_maps] and never
    looked at again. *)
Record Beatmap : Type := { beatmapset_id : Z }.

(** [class QueryMaps] *)
Record QueryMaps : Type := {
  result_count : Z;
  beatmaps : list Beatmap
}.

(** What [query_maps(offset)] does: it returns the parsed page, or raises
    (transport failure, timeout, validation error, or a [KeyboardInterrupt]
    delivered while the blocking [httpx.get] runs). *)
Inductive QueryReply : Type :=
| QueryRaises (e : exn)
| QueryReturns (maps_data : QueryMaps).

Definition bytes : Type := list Byte.byte.

(** The value of [int(response.headers["Content-Length"])]. *)
Inductive header_int : Type :=
| HeaderMissing                     (* the lookup raises [KeyError] *)
| HeaderNotInt                      (* [int] raises [ValueError] *)
| HeaderInt (n : Z).

(** One round of [async for chunk in response.aiter_bytes()]: the chunk
    yielded, the number of raw bytes read from the network for it (what
    [response.num_bytes_downloaded] grows by; it differs from the length of
    the chunk when the content is encoded), and whether [file.write(chunk)]
    raises. *)
Record Chunk : Type := {
  data : bytes;
  raw : Z;
  write_fails : bool
}.

(** What is still to come of a download whose file is open: the rounds of
    the loop, whether the connection then breaks ([aiter_bytes] raises
    instead of ending), and whether [file.close()] raises. *)
Record Stream : Type := {
  chunks : list Chunk;
  breaks_off : bool;
  close_fails : bool
}.

(** What the outside world does to one download: the streamed response of
    the endpoint and, since the same path can behave differently at
    different times, what the disk does to the file this response is
    saved to. *)
Record Response : Type := {
  status_code : Z;
  content_length : header_int;
  content_disposition : option string;
  open_fails : bool;                (* [open(save_path+filename, 'wb')] raises *)
  body : Stream
}.

Inductive Reply : Type :=
| NoResponse                        (* the request fails in transport *)
| Answers (response : Response).

Definition Cookies : Type := list (string * string).

(** [cookies.get(name)] *)
Fixpoint cookies_get (name : string) (jar : Cookies) : option string :=
  match jar with
  | [] => None
  | (k, v) :: jar' => if String.eqb k name then Some v else cookies_get name jar'
  end.

(** The body of the answer to [POST /session], by what
    [user_data['user']['username']] and [user_data['user']['id']] make of
    [session.json()]. *)
Inductive SessionBody : Type :=
| BodyNotJson                       (* [session.json()] raises *)
| BodyLacks (key : string)          (* the lookup of [key] raises [KeyError] *)
| BodyUser (username : string) (id : Z).

(** The answer to [POST /session]. *)
Record SessionReply : Type := {
  session_status : Z;
  session_cookies : Cookies;
  session_body : SessionBody
}.

(** [sys.argv[1:]], by what [main] makes of it.  An empty-string argument
    (falsy, so left unconverted by [main]) is not modelled. *)
Inductive cli_arg : Type :=
| NoArgument                        (* [offset] keeps its default, the int 0 *)
| ArgumentInt (text : string) (n : Z)   (* [int(text)] is [n] *)
| ArgumentNotInt (text : string).       (* [int(text)] raises *)

(** Everything the outside world decides. *)
Record World : Type := {
  typed_username : string;
  typed_password : string;
  typed_path : string;
  home_cookies : Cookies;           (* cookies of [GET /home] *)
  session_reply : SessionReply;
  catalog : Z -> QueryReply;        (* the search endpoint, by offset *)
  (** the download endpoint's reply for item [i] of the page at [offset] *)
  download_reply : Z -> nat -> Reply;
  (** for the batch starting at item [r] of the page at [offset]: the order
      in which network data arrives and wakes the batch's tasks (indices
      into the batch) *)
  wake_order : Z -> nat -> list nat;
  (** and how many further wake-ups the event loop still serves between a
      task's failure and the moment [run_until_complete] stops the loop *)
  linger : Z -> nat -> nat;
  (** whether the user presses Ctrl-C while [main] waits for that batch:
      [Some k] when the interrupt arrives after [k] of the wake-ups have
      resumed a task and before the next one does, [None] when no interrupt
      arrives then *)
  sigint : Z -> nat -> option nat
}.

(** ** Effects *)

Inductive Msg : Type :=
| MsgOffsetArg (text : string)      (* f"{offset=}" in [main], before [int()] *)
| MsgOffset (offset : Z)            (* f"{offset=}" at the end of the script *)
| MsgLoginFailed
| MsgLoginOk (username : string) (id : Z)
| Msg429                            (* "[red]429 Too Many Requests" *)
| MsgStarting
| MsgFetching
| MsgFound (n : Z)
| MsgDownloaded (filename : string)
| MsgNoMoreMaps
| MsgWaitClient
| MsgLoggingOut
| MsgTraceback (e : exn)            (* [console.print_exception] *)
| MsgTally (n : nat).

Inductive Prompt : Type := PromptUsername | PromptPassword | PromptPath.

Inductive Event : Type :=
| EPrint (m : Msg)                  (* [print], [console.print/log], [progress.log] *)
| EInput (p : Prompt)
| EGetHome                          (* [GET https://osu.ppy.sh/home] *)
| EPostSession (token : option string) (username password : string)
| EDeleteSession                    (* [DELETE https://osu.ppy.sh/session] *)
| EQuery (offset : Z)               (* [GET query_url.format(offset)] *)
| EGather (setids : list Z)         (* [asyncio.gather] of these downloads *)
| ERequest (setid : Z)              (* [GET .../beatmapsets/{setid}/download] *)
| EOpen (path : string)             (* [open(path, 'wb')] *)
| EWrite (path : string) (chunk : bytes)
| EClose (path : string)
| EAddTask (filename : string) (total : Z)
| EUpdate (filename : string) (completed : Z)
| EHide (filename : string)
| EAclose.                          (* [http_client.aclose()] *)

(** The module's global variables. *)
Record State : Type := {
  downloaded_count : nat;
  cookies : option Cookies
}.

Definition initial_state : State :=
  {| downloaded_count := 0; cookies := None |}.

(** A computation reads and writes the globals, emits events, and ends. *)
Definition M (A : Type) : Type := State -> completion A * State * list Event.

Definition ret {A} (a : A) : M A := fun st => (Done a, st, []).

Definition raise {A} (e : exn) : M A := fun st => (Raised e, st, []).

Definition emit (ev : Event) : M unit := fun st => (Done tt, st, [ev]).

Definition bind {A B} (m : M A) (k : A -> M B) : M B :=
  fun st =>
    match m st with
    | (Done a, st1, ev1) =>
        let '(c, st2, ev2) := k a st1 in (c, st2, ev1 ++ ev2)
    | (Raised e, st1, ev1) => (Raised e, st1, ev1)
    | (Pending, st1, ev1) => (Pending, st1, ev1)
    | (Interrupted, st1, ev1) => (Interrupted, st1, ev1)
    end.

Notation "x <- m ;; k" := (bind m (fun x => k))
  (at level 100, m at next level, right associativity).
Notation "m ;;; k" := (bind m (fun _ => k))
  (at level 100, k at level 200, right associativity).

Definition gets {A} (f : State -> A) : M A := fun st => (Done (f st), st, []).

Definition set_cookies (jar : Cookies) : M unit :=
  fun st =>
    (Done tt, {| downloaded_count := downloaded_count st; cookies := Some jar |}, []).

(** ** [query_maps] *)

Definition query_maps (w : World) (offset : Z) : M QueryMaps :=
  emit (EQuery offset) ;;;
  match catalog w offset with
  | QueryRaises e => raise e
  | QueryReturns maps_data => ret maps_data
  end.

(** ** [login] and [logout] *)

(** [response.is_error]: a 4xx or 5xx status. *)
Definition is_error (status : Z) : bool := (400 <=? status) && (status <=? 599).

(** [response.is_success]: a 2xx status. *)
Definition is_success (status : Z) : bool := (200 <=? status) && (status <=? 299).

Definition login (w : World) (username password : string) : M unit :=
  emit EGetHome ;;;
  let _token := cookies_get "XSRF-TOKEN" (home_cookies w) in
  emit (EPostSession _token username password) ;;;
  let session := session_reply w in
  if is_error (session_status session) then
    emit (EPrint MsgLoginFailed) ;;;
    raise SystemExit                                   (* [exit()] *)
  else
    set_cookies (session_cookies session) ;;;
    match session_body session with
    | BodyNotJson => raise ValueError                  (* [session.json()] *)
    | BodyLacks key => raise (KeyError key)
    | BodyUser name id => emit (EPrint (MsgLoginOk name id))
    end.

Definition logout : M unit := emit EDeleteSession.

(** ** [download_map]

    The coroutine is cut at its suspension points.  A [Task] is a download
    between two of them; [resume] runs it up to the next one.  A file
    operation that raises leaves no event: the events are the operations
    that were carried out. *)

Inductive Task : Type :=
| Created (setid : Z) (reply : Reply)     (* coroutine object, not yet run *)
| AwaitingResponse (reply : Reply)        (* request sent, no status yet *)
| Streaming (filename : string) (received : Z) (rest : Stream)
                                          (* file open, body being read *)
| Returned                                (* the coroutine returned [None] *)
| Failed (e : exn).                       (* the coroutine raised [e] *)

(** [attachment;filename="] and [";], the text around the file name in the
    [Content-Disposition] header. *)
Definition disposition_prefix : string :=
  ("attachment;filename=" ++ String dquote EmptyString)%string.
Definition disposition_suffix : string :=
  String dquote (String ";"%char EmptyString).

Definition resume (save_path : string) (t : Task) (st : State)
  : Task * State * list Event :=
  match t with
  | Created setid reply => (AwaitingResponse reply, st, [ERequest setid])
  | AwaitingResponse NoResponse => (Failed TransportError, st, [])
  | AwaitingResponse (Answers response) =>
      if status_code response =? 429 then
        (Failed RateLimited, st, [EPrint Msg429])
      else if status_code response =? 404 then
        (Returned, st, [])
      else
        match content_length response with
        | HeaderMissing => (Failed (KeyError "Content-Length"), st, [])
        | HeaderNotInt => (Failed ValueError, st, [])
        | HeaderInt total =>
            match content_disposition response with
            | None => (Failed (KeyError "Content-Disposition"), st, [])
            | Some value =>
                let filename :=
                  fixedfilename
                    (PyStr.removesuffix disposition_suffix
                       (PyStr.removeprefix disposition_prefix value)) in
                if open_fails response then (Failed OSError, st, [])
                else
                  (Streaming filename 0 (body response), st,
                   [EOpen (save_path ++ filename)%string;
                    EAddTask filename total])
            end
        end
  | Streaming filename received rest =>
      match chunks rest with
      | chunk :: more =>
          if write_fails chunk then (Failed OSError, st, [])
          else
            let received' := received + raw chunk in
            (Streaming filename received'
               {| chunks := more;
                  breaks_off := breaks_off rest;
                  close_fails := close_fails rest |},
             st,
             [EWrite (save_path ++ filename)%string (data chunk);
              EUpdate filename received'])
      | [] =>
          if breaks_off rest then (Failed TransportError, st, [])
          else if close_fails rest then (Failed OSError, st, [])
          else
            (Returned,
             {| downloaded_count := S (downloaded_count st);
                cookies := cookies st |},
             [EClose (save_path ++ filename)%string;
              EHide filename;
              EPrint (MsgDownloaded filename)])
      end
  | Returned => (Returned, st, [])
  | Failed e => (Failed e, st, [])
  end.

Definition is_finished (t : Task) : bool :=
  match t with
  | Returned | Failed _ => true
  | _ => false
  end.

(** A bound on the number of resumptions a task still needs. *)
Definition steps_after_request (reply : Reply) : nat :=
  match reply with
  | NoResponse => 1
  | Answers response => 2 + length (chunks (body response))
  end.

Definition steps_left (t : Task) : nat :=
  match t with
  | Created _ reply => 1 + steps_after_request reply
  | AwaitingResponse reply => steps_after_request reply
  | Streaming _ _ rest => 1 + length (chunks rest)
  | Returned | Failed _ => 0
  end.

Fixpoint resume_n (n : nat) (save_path : string) (t : Task) (st : State)
  : Task * State * list Event :=
  match n with
  | O => (t, st, [])
  | S n' =>
      let '(t1, st1, ev1) := resume save_path t st in
      let '(t2, st2, ev2) := resume_n n' save_path t1 st1 in
      (t2, st2, ev1 ++ ev2)
  end.

(** The task resumed until it has finished. *)
Definition run_to_end (save_path : string) (t : Task) (st : State)
  : Task * State * list Event :=
  resume_n (steps_left t) save_path t st.

(** The whole coroutine, run with nothing interleaved. *)
Definition download_map (save_path : string) (setid : Z) (reply : Reply)
  : M unit :=
  fun st =>
    let '(t, st', ev) := run_to_end save_path (Created setid reply) st in
    match t with
    | Failed e => (Raised e, st', ev)
    | _ => (Done tt, st', ev)
    end.

(** ** [asyncio.gather]

    [gather] wraps every coroutine in a task; each task runs its first
    stretch, in creation order, as soon as [main] awaits.  After that the
    tasks are resumed in the order in which their network data arrives: the
    world's [wake_order], followed, once that list is used up, by the
    remaining tasks one after the other.  The first failure is delivered to
    the awaiting [main]; the other tasks are not cancelled, and the event
    loop may still serve a few of their wake-ups ([linger]) before it
    stops.  A Ctrl-C that arrives while a task is still to be resumed
    ([sig]) stops the event loop at once. *)

(** Ctrl-C arrives now. *)
Definition strikes (sig : option nat) : bool :=
  match sig with
  | Some O => true
  | _ => false
  end.

(** [sig] once one more wake-up has resumed a task. *)
Definition served (sig : option nat) : option nat :=
  match sig with
  | Some (S k) => Some k
  | _ => sig
  end.

Fixpoint start_all (save_path : string) (ts : list Task) (st : State)
  : list Task * State * list Event :=
  match ts with
  | [] => ([], st, [])
  | t :: ts' =>
      let '(t1, st1, ev1) := resume save_path t st in
      let '(ts2, st2, ev2) := start_all save_path ts' st1 in
      (t1 :: ts2, st2, ev1 ++ ev2)
  end.

(** The wake-ups served after a failure; the first component tells whether
    Ctrl-C arrived among them. *)
Fixpoint linger_on (save_path : string) (n : nat) (sig : option nat)
    (sched : list nat) (ts : list Task) (st : State)
  : bool * list Task * State * list Event :=
  match n, sched with
  | S n', i :: sched' =>
      match ts !! i with
      | Some t =>
          if is_finished t then linger_on save_path n' sig sched' ts st
          else if strikes sig then (true, ts, st, [])
          else
            let '(t1, st1, ev1) := resume save_path t st in
            let '(hit, ts2, st2, ev2) :=
              linger_on save_path n' (served sig) sched' (<[i:=t1]> ts) st1 in
            (hit, ts2, st2, ev1 ++ ev2)
      | None => linger_on save_path n' sig sched' ts st
      end
  | _, _ => (false, ts, st, [])
  end.

Fixpoint finish_in_order (save_path : string) (ts : list Task) (st : State)
  : completion unit * list Task * State * list Event :=
  match ts with
  | [] => (Done tt, [], st, [])
  | t :: ts' =>
      let '(t1, st1, ev1) := run_to_end save_path t st in
      match t1 with
      | Failed e => (Raised e, t1 :: ts', st1, ev1)
      | _ =>
          let '(c, ts2, st2, ev2) := finish_in_order save_path ts' st1 in
          (c, t1 :: ts2, st2, ev1 ++ ev2)
      end
  end.

Fixpoint drive (save_path : string) (lng : nat) (sig : option nat)
    (sched : list nat) (ts : list Task) (st : State)
  : completion unit * list Task * State * list Event :=
  match sched with
  | [] => finish_in_order save_path ts st
  | i :: sched' =>
      match ts !! i with
      | None => drive save_path lng sig sched' ts st
      | Some t =>
          if is_finished t then drive save_path lng sig sched' ts st
          else if strikes sig then (Interrupted, ts, st, [])
          else
            let '(t1, st1, ev1) := resume save_path t st in
            match t1 with
            | Failed e =>
                let '(hit, ts2, st2, ev2) :=
                  linger_on save_path lng (served sig) sched'
                    (<[i:=t1]> ts) st1 in
                (if hit then Interrupted else Raised e, ts2, st2, ev1 ++ ev2)
            | _ =>
                let '(c, ts2, st2, ev2) :=
                  drive save_path lng (served sig) sched' (<[i:=t1]> ts) st1 in
                (c, ts2, st2, ev1 ++ ev2)
            end
      end
  end.

(** The result also carries the tasks as the loop leaves them. *)
Definition gather (save_path : string) (sched : list nat) (lng : nat)
    (sig : option nat) (ts : list Task) (st : State)
  : completion unit * list Task * State * list Event :=
  let '(ts0, st0, ev0) := start_all save_path ts st in
  let '(c, ts1, st1, ev1) := drive save_path lng sig sched ts0 st0 in
  (c, ts1, st1, ev0 ++ ev1).

(** ** The batch loop of [main] *)

Definition batch : nat := 3.

(** [range(start, stop, step)] for a positive [step]. *)
Fixpoint range_from (fuel start stop step : nat) : list nat :=
  match fuel with
  | O => []
  | S fuel' =>
      if (start <? stop)%nat
      then start :: range_from fuel' (start + step) stop step
      else []
  end.

Definition range (start stop step : nat) : list nat :=
  range_from (stop - start) start stop step.

(** [l[i:j]] *)
Definition slice {A} (i j : nat) (l : list A) : list A :=
  firstn (j - i) (skipn i l).

(** [[download_map(http_client, progress, path, map.beatmapset_id)
      for map in group]], where [group] starts at item [r] of the page. *)
Definition coroutines (w : World) (offset : Z) (r : nat)
    (group : list Beatmap) : list Task :=
  imap (fun j map =>
          Created (beatmapset_id map) (download_reply w offset (r + j)))
       group.

Definition await_gather (w : World) (save_path : string) (offset : Z)
    (r : nat) (group : list Beatmap) : M unit :=
  emit (EGather (List.map beatmapset_id group)) ;;;
  fun st =>
    let '(c, _, st1, ev1) :=
      gather save_path (wake_order w offset r) (linger w offset r)
        (sigint w offset r) (coroutines w offset r group) st in
    (c, st1, ev1).

(** [for r in rs: await asyncio.gather(...)] *)
Fixpoint for_batches (w : World) (save_path : string) (offset : Z)
    (maps : list Beatmap) (rs : list nat) : M unit :=
  match rs with
  | [] => ret tt
  | r :: rs' =>
      await_gather w save_path offset r (slice r (r + batch) maps) ;;;
      for_batches w save_path offset maps rs'
  end.

(** The groups the batch loop gathers for a page, in order. *)
Definition groups (maps : list Beatmap) : list (list Beatmap) :=
  List.map (fun r => slice r (r + batch) maps) (range 0 (length maps) batch).

(** One pass through the body of [while running]: the new values of
    [offset] and [running]. *)
Definition loop_body (w : World) (save_path : string) (offset : Z)
  : M (Z * bool) :=
  emit (EPrint MsgFetching) ;;;
  maps_data <- query_maps w offset ;;
  (if 0 <? result_count maps_data
   then emit (EPrint (MsgFound (result_count maps_data)))
   else ret tt) ;;;
  for_batches w save_path offset (beatmaps maps_data)
    (range 0 (length (beatmaps maps_data)) batch) ;;;
  if negb (length (beatmaps maps_data) =? 0)%nat then
    ret (offset + 1, true)
  else
    emit (EPrint MsgNoMoreMaps) ;;;
    ret (offset, false).

(** [while running: ...], together with the value the local [offset] holds
    when the loop is left, however it is left. *)
Fixpoint while_running (fuel : nat) (w : World) (save_path : string)
    (offset : Z) (st : State)
  : Z * (completion unit * State * list Event) :=
  match fuel with
  | O => (offset, (Pending, st, []))
  | S fuel' =>
      match loop_body w save_path offset st with
      | (Done (offset', true), st1, ev1) =>
          let '(o, (c, st2, ev2)) :=
            while_running fuel' w save_path offset' st1 in
          (o, (c, st2, ev1 ++ ev2))
      | (Done (offset', false), st1, ev1) => (offset', (Done tt, st1, ev1))
      | (Raised e, st1, ev1) => (offset, (Raised e, st1, ev1))
      | (Pending, st1, ev1) => (offset, (Pending, st1, ev1))
      | (Interrupted, st1, ev1) => (offset, (Interrupted, st1, ev1))
      end
  end.

(** ** The [try] statement of [main] *)

(** [console.logout()]: rich's [Console] has no attribute [logout]; the
    module's own [logout] is a different function and is not called here. *)
Definition console_logout : M unit := raise (AttributeError "logout").

(** The body of [except KeyboardInterrupt:]. *)
Definition interrupt_handler : M unit :=
  emit (EPrint MsgWaitClient) ;;;
  emit EAclose ;;;
  emit (EPrint MsgLoggingOut) ;;;
  console_logout.

(** [try: body  except KeyboardInterrupt: handler] *)
Definition except_KeyboardInterrupt {A}
    (body : completion A * State * list Event) (handler : M A)
  : completion A * State * list Event :=
  match body with
  | (Raised KeyboardInterrupt, st1, ev1) =>
      let '(c, st2, ev2) := handler st1 in (c, st2, ev1 ++ ev2)
  | _ => body
  end.

(** [finally: return v]: the [return] discards whatever exception is on its
    way out of the [try] statement.  A coroutine that is never resumed does
    not get there. *)
Definition finally_return {A B} (v : B)
    (r : completion A * State * list Event)
  : completion B * State * list Event :=
  match r with
  | (Pending, st, ev) => (Pending, st, ev)
  | (Interrupted, st, ev) => (Interrupted, st, ev)
  | (_, st, ev) => (Done v, st, ev)
  end.

(** [try: while running: ...  except KeyboardInterrupt: ...
     finally: return offset] *)
Definition scheduler (fuel : nat) (w : World) (save_path : string)
    (offset : Z) : M Z :=
  fun st =>
    let '(offset', r) := while_running fuel w save_path offset st in
    finally_return offset' (except_KeyboardInterrupt r interrupt_handler).

(** ** [main] *)

Definition input (p : Prompt) (typed : string) : M string :=
  emit (EInput p) ;;; ret typed.

(** [x or "./"] *)
Definition or_default (default typed : string) : string :=
  match typed with
  | EmptyString => default
  | _ => typed
  end.

Definition main (fuel : nat) (w : World) (arg : cli_arg) : M Z :=
  offset <- match arg with
            | NoArgument => ret 0
            | ArgumentInt text n => emit (EPrint (MsgOffsetArg text)) ;;; ret n
            | ArgumentNotInt text =>
                emit (EPrint (MsgOffsetArg text)) ;;; raise ValueError
            end ;;
  username <- input PromptUsername (typed_username w) ;;
  password <- input PromptPassword (typed_password w) ;;
  typed <- input PromptPath (typed_path w) ;;
  let path := or_default "./" typed in
  login w username password ;;;
  emit (EPrint MsgStarting) ;;;
  scheduler fuel w path offset.

(** ** The [__main__] block *)

(** [try: body  except Exception as e: handler] *)
Definition except_Exception {A} (body : M A) (handler : exn -> M A) : M A :=
  fun st =>
    match body st with
    | (Raised e, st1, ev1) =>
        if is_Exception e then
          let '(c, st2, ev2) := handler e st1 in (c, st2, ev1 ++ ev2)
        else (Raised e, st1, ev1)
    | other => other
    end.

(** [if cookies:] *)
Definition truthy (c : option Cookies) : bool :=
  match c with
  | Some (_ :: _) => true
  | _ => false
  end.

(** [loop.run_until_complete(coroutine)]: the result of the coroutine, the
    exception it raised, or the [KeyboardInterrupt] that stopped the event
    loop while the coroutine was suspended. *)
Definition run_until_complete {A} (coroutine : M A) : M A :=
  fun st =>
    match coroutine st with
    | (Interrupted, st1, ev1) => (Raised KeyboardInterrupt, st1, ev1)
    | other => other
    end.

(** The script.  The module-level name [offset] is bound only when
    [run_until_complete] returns: [Some] then, [None] otherwise. *)
Definition script (fuel : nat) (w : World) (arg : cli_arg) : M unit :=
  offset <- except_Exception
              (o <- run_until_complete (main fuel w arg) ;; ret (Some o))
              (fun e =>
                 emit (EPrint (MsgTraceback e)) ;;;
                 jar <- gets cookies ;;
                 (if truthy jar
                  then emit (EPrint MsgLoggingOut) ;;; logout
                  else ret tt) ;;;
                 ret None) ;;
  tally <- gets downloaded_count ;;
  emit (EPrint (MsgTally tally)) ;;;
  match offset with
  | Some o => emit (EPrint (MsgOffset o))
  | None => raise (NameError "offset")
  end.

(** ** Reading a trace *)

(** The offsets of the catalog fetches, in order. *)
Fixpoint queries (evs : list Event) : list Z :=
  match evs with
  | [] => []
  | EQuery o :: evs' => o :: queries evs'
  | _ :: evs' => queries evs'
  end.

(** The batches handed to [asyncio.gather], in order. *)
Fixpoint gathers (evs : list Event) : list (list Z) :=
  match evs with
  | [] => []
  | EGather ids :: evs' => ids :: gathers evs'
  | _ :: evs' => gathers evs'
  end.

Definition is_request (ev : Event) : bool :=
  match ev with ERequest _ => true | _ => false end.

Definition is_query (ev : Event) : bool :=
  match ev with EQuery _ => true | _ => false end.

Definition is_gather (ev : Event) : bool :=
  match ev with EGather _ => true | _ => false end.

Definition is_file_event (ev : Event) : bool :=
  match ev with EOpen _ | EWrite _ _ | EClose _ => true | _ => false end.

Definition is_logout (ev : Event) : bool :=
  match ev with EDeleteSession => true | _ => false end.

Definition is_offset_report (ev : Event) : bool :=
  match ev with EPrint (MsgOffset _) => true | _ => false end.

(** Events a download emits once its request is out. *)
Definition transfer_event (ev : Event) : bool :=
  match ev with
  | EPrint Msg429 | EPrint (MsgDownloaded _)
  | EOpen _ | EWrite _ _ | EClose _
  | EAddTask _ _ | EUpdate _ _ | EHide _ => true
  | _ => false
  end.

(** Events of the batch loop: gathers, requests and transfers. *)
Definition batch_event (ev : Event) : bool :=
  is_gather ev || is_request ev || transfer_event ev.

(** What follows the first ["429 Too Many Requests"] line of a trace. *)
Fixpoint after_first_429 (evs : list Event) : option (list Event) :=
  match evs with
  | [] => None
  | EPrint Msg429 :: evs' => Some evs'
  | _ :: evs' => after_first_429 evs'
  end.

(** [offset, offset + 1, ..., offset + n - 1] *)
Fixpoint upfrom (offset : Z) (n : nat) : list Z :=
  match n with
  | O => []
  | S n' => offset :: upfrom (offset + 1) n'
  end.

(** The events that open a pass of the loop over a returned page. *)
Definition pass_header (offset : Z) (maps_data : QueryMaps) : list Event :=
  [EPrint MsgFetching; EQuery offset]
  ++ (if 0 <? result_count maps_data
      then [EPrint (MsgFound (result_count maps_data))] else []).

(** What [main] prints about its argument before converting it. *)
Definition arg_echo (arg : cli_arg) : list Event :=
  match arg with
  | NoArgument => []
  | ArgumentInt text _ | ArgumentNotInt text => [EPrint (MsgOffsetArg text)]
  end.

(** Prompts and handshake of a run, up to the answer to the login [POST]. *)
Definition login_attempt (w : World) : list Event :=
  [EInput PromptUsername; EInput PromptPassword; EInput PromptPath;
   EGetHome;
   EPostSession (cookies_get "XSRF-TOKEN" (home_cookies w))
     (typed_username w) (typed_password w)].


(** ** Task invariants *)

Definition started (t : Task) : bool :=
  match t with
  | Created _ _ => false
  | _ => true
  end.

(** Started and not failed: the tasks [drive] works on. *)
Definition live (t : Task) : bool :=
  match t with
  | AwaitingResponse _ | Streaming _ _ _ | Returned => true
  | _ => false
  end.

(** A task that is over or about to learn that its item is gone (404). *)
Definition gone (t : Task) : bool :=
  match t with
  | Returned => true
  | AwaitingResponse (Answers response) => status_code response =? 404
  | _ => false
  end.


(** The downloads under way: request sent, coroutine not over. *)
Definition in_flight (ts : list Task) : nat :=
  length (List.filter (fun t => started t && negb (is_finished t)) ts).

(** The exceptions [download_map] can raise. *)
Definition download_failure (e : exn) : bool :=
  match e with
  | RateLimited | KeyError _ | ValueError | TransportError | OSError => true
  | _ => false
  end.

(** Every reply to the group starting at item [r] is a 404. *)
Definition all_not_found (w : World) (offset : Z) (r : nat)
    (group : list Beatmap) : Prop :=
  forall j, (j < length group)%nat ->
    exists response,
      download_reply w offset (r + j) = Answers response
      /\ status_code response = 404.

(** ** The outcome vocabulary of the design document

    [download_map] itself returns [None] on both of its normal paths; the
    three outcomes are told apart by what the call did. *)
Inductive DownloadOutcome : Type :=
| Completed
| Skipped
| Errored (e : exn).

Definition download_outcome (r : completion unit * State * list Event)
  : option DownloadOutcome :=
  match r with
  | (Done _, _, evs) =>
      Some (if existsb is_file_event evs then Completed else Skipped)
  | (Raised e, _, _) => Some (Errored e)
  | (Pending, _, _) | (Interrupted, _, _) => None
  end.

(** ** Result shapes used by the lemmas *)

(** What a batch's [gather] guarantees once all its tasks are started. *)
Definition batch_result (lng : nat) (c : completion unit) (evs : list Event)
  : Prop :=
  forallb transfer_event evs = true
  /\ c <> Pending
  /\ (forall e, c = Raised e -> download_failure e = true)
  /\ (forall post, after_first_429 evs = Some post ->
        ((exists e, c = Raised e) \/ c = Interrupted)
        /\ (length post <= 3 * lng)%nat).

(** What the downloads of one page guarantee. *)
Definition page_result (w : World) (offset : Z) (c : completion unit)
    (evs : list Event) : Prop :=
  forallb batch_event evs = true
  /\ c <> Pending
  /\ (forall e, c = Raised e -> download_failure e = true)
  /\ (forall post, after_first_429 evs = Some post ->
        ((exists e, c = Raised e) \/ c = Interrupted)
        /\ forallb transfer_event post = true
        /\ exists r, (length post <= 3 * linger w offset r)%nat).

(** ** Sample worlds *)

Definition beatmap (setid : Z) : Beatmap := {| beatmapset_id := setid |}.

(** A chunk that arrives unencoded and is written without trouble. *)
Definition plain (chunk : bytes) : Chunk :=
  {| data := chunk; raw := Z.of_nat (length chunk); write_fails := false |}.

(** A body that arrives whole and is stored without trouble. *)
Definition intact (pieces : list bytes) : Stream :=
  {| chunks := List.map plain pieces;
     breaks_off := false;
     close_fails := false |}.

(** A 200 answer offering [name] with the given body, on a healthy disk. *)
Definition attachment (name : string) (pieces : list bytes) : Reply :=
  Answers {| status_code := 200;
             content_length := HeaderInt 2;
             content_disposition :=
               Some (disposition_prefix ++ name ++ disposition_suffix)%string;
             open_fails := false;
             body := intact pieces |}.

(** An answer that consists of its status line. *)
Definition bare_status (status : Z) : Response :=
  {| status_code := status;
     content_length := HeaderMissing;
     content_disposition := None;
     open_fails := false;
     body := intact [] |}.

Definition two_chunks : list bytes := [[Byte.x4f]; [Byte.x53]].

(** Login succeeds; the page at offset 0 has five items, the second of which
    is gone (404); the page at offset 1 is empty. *)
Definition sample_world : World :=
  {| typed_username := "peppy";
     typed_password := "hunter2";
     typed_path := EmptyString;
     home_cookies := [("XSRF-TOKEN", "t0k3n")]%string;
     session_reply :=
       {| session_status := 200;
          session_cookies := [("osu_session", "s3ss")]%string;
          session_body := BodyUser "peppy" 2 |};
     catalog := fun offset =>
       if offset =? 0 then
         QueryReturns {| result_count := 5;
                         beatmaps := List.map beatmap [101; 102; 103; 104; 105] |}
       else QueryReturns {| result_count := 0; beatmaps := [] |};
     download_reply := fun _ i =>
       if (i =? 1)%nat then Answers (bare_status 404)
       else attachment "My:File<1>.osz" two_chunks;
     wake_order := fun _ _ => [2; 0; 2; 1]%nat;
     linger := fun _ _ => 1%nat;
     sigint := fun _ _ => None |}.

(** Login succeeds; the page at offset 0 has four items, all of which
    download; every other page is empty. *)
Definition four_item_world : World :=
  {| typed_username := typed_username sample_world;
     typed_password := typed_password sample_world;
     typed_path := "maps/";
     home_cookies := home_cookies sample_world;
     session_reply := session_reply sample_world;
     catalog := fun offset =>
       if offset =? 0 then
         QueryReturns {| result_count := 4;
                         beatmaps := List.map beatmap [11; 12; 13; 14] |}
       else QueryReturns {| result_count := 0; beatmaps := [] |};
     download_reply := fun _ _ => attachment "x.osz" two_chunks;
     wake_order := fun _ _ => [1; 1; 0; 2]%nat;
     linger := fun _ _ => 0%nat;
     sigint := fun _ _ => None |}.

(** As [sample_world], but nothing of what the catalog lists exists any
    more. *)
Definition deleted_world : World :=
  {| typed_username := typed_username sample_world;
     typed_password := typed_password sample_world;
     typed_path := typed_path sample_world;
     home_cookies := home_cookies sample_world;
     session_reply := session_reply sample_world;
     catalog := catalog sample_world;
     download_reply := fun _ _ => Answers (bare_status 404);
     wake_order := wake_order sample_world;
     linger := linger sample_world;
     sigint := sigint sample_world |}.

(** As [sample_world], but the second download of every page is refused
    with a 429. *)
Definition rate_limited_world : World :=
  {| typed_username := typed_username sample_world;
     typed_password := typed_password sample_world;
     typed_path := typed_path sample_world;
     home_cookies := home_cookies sample_world;
     session_reply := session_reply sample_world;
     catalog := catalog sample_world;
     download_reply := fun _ i =>
       if (i =? 1)%nat then Answers (bare_status 429)
       else attachment "a.osz" two_chunks;
     wake_order := fun _ _ => [2; 1; 0; 2; 2]%nat;
     linger := fun _ _ => 2%nat;
     sigint := fun _ _ => None |}.

(** As [sample_world], but the login [POST] is answered with [status]. *)
Definition login_world (status : Z) : World :=
  {| typed_username := typed_username sample_world;
     typed_password := typed_password sample_world;
     typed_path := typed_path sample_world;
     home_cookies := home_cookies sample_world;
     session_reply :=
       {| session_status := status;
          session_cookies := [("osu_session", "s3ss")]%string;
          session_body := BodyUser "peppy" 2 |};
     catalog := catalog sample_world;
     download_reply := download_reply sample_world;
     wake_order := wake_order sample_world;
     linger := linger sample_world;
     sigint := sigint sample_world |}.

(** As [sample_world], but the user presses Ctrl-C while the first catalog
    fetch is blocking. *)
Definition interrupted_world : World :=
  {| typed_username := typed_username sample_world;
     typed_password := typed_password sample_world;
     typed_path := typed_path sample_world;
     home_cookies := home_cookies sample_world;
     session_reply := session_reply sample_world;
     catalog := fun _ => QueryRaises KeyboardInterrupt;
     download_reply := download_reply sample_world;
     wake_order := wake_order sample_world;
     linger := linger sample_world;
     sigint := sigint sample_world |}.

(** As [sample_world], but the second download of every page is refused
    with a 429; the refusal is the first answer to arrive, and the event
    loop then still serves the two other downloads of the batch to their
    end before it stops. *)
Definition patient_world : World :=
  {| typed_username := typed_username sample_world;
     typed_password := typed_password sample_world;
     typed_path := typed_path sample_world;
     home_cookies := home_cookies sample_world;
     session_reply := session_reply sample_world;
     catalog := catalog sample_world;
     download_reply := fun _ i =>
       match i with
       | 0%nat => attachment "a.osz" two_chunks
       | 1%nat => Answers (bare_status 429)
       | _ => attachment "c.osz" two_chunks
       end;
     wake_order := fun _ _ => [1; 0; 2; 0; 2; 0; 2; 0; 2]%nat;
     linger := fun _ _ => 8%nat;
     sigint := sigint sample_world |}.

(** As [sample_world], but the user presses Ctrl-C while the first batch is
    downloading, when one wake-up has been served. *)
Definition ctrl_c_world : World :=
  {| typed_username := typed_username sample_world;
     typed_password := typed_password sample_world;
     typed_path := typed_path sample_world;
     home_cookies := home_cookies sample_world;
     session_reply := session_reply sample_world;
     catalog := catalog sample_world;
     download_reply := download_reply sample_world;
     wake_order := wake_order sample_world;
     linger := linger sample_world;
     sigint := fun offset r =>
       if (offset =? 0) && (r =? 0)%nat then Some 1%nat else None |}.

(** The globals once [sample_world]'s login has succeeded. *)
Definition logged_in : State :=
  {| downloaded_count := 0;
     cookies := Some [("osu_session", "s3ss")]%string |}.

(** ** Proof tactics *)

Ltac split_matches H :=
  repeat match type of H with
         | context [match ?x with _ => _ end] => destruct x eqn:?
         end.

Ltac resume_inv H :=
  unfold resume in H; split_matches H;
  injection H as <- <- <-.

(** ** Further readings of a trace *)

(** The items whose download was requested, in order. *)
Fixpoint requests (evs : list Event) : list Z :=
  match evs with
  | [] => []
  | ERequest setid :: evs' => setid :: requests evs'
  | _ :: evs' => requests evs'
  end.

(** The byte counts reported to the progress display, in order. *)
Fixpoint updates (evs : list Event) : list Z :=
  match evs with
  | [] => []
  | EUpdate _ completed :: evs' => completed :: updates evs'
  | _ :: evs' => updates evs'
  end.

(** The number of "download complete" lines. *)
Fixpoint completions (evs : list Event) : nat :=
  match evs with
  | [] => 0
  | EPrint (MsgDownloaded _) :: evs' => S (completions evs')
  | _ :: evs' => completions evs'
  end.

(** The number of files closed. *)
Fixpoint closes (evs : list Event) : nat :=
  match evs with
  | [] => 0
  | EClose _ :: evs' => S (closes evs')
  | _ :: evs' => closes evs'
  end.

(** [received + raw c1], [received + raw c1 + raw c2], ...: the values
    [response.num_bytes_downloaded] takes as the chunks arrive. *)
Fixpoint running_totals (received : Z) (rounds : list Chunk) : list Z :=
  match rounds with
  | [] => []
  | chunk :: rest =>
      (received + raw chunk) :: running_totals (received + raw chunk) rest
  end.

(** No reserved character occurs in [s]. *)
Definition clean (s : string) : bool :=
  negb (existsb is_reserved (list_ascii_of_string s)).

(** [path] is [save_path] followed by a name without reserved characters. *)
Definition inside (save_path path : string) : bool :=
  PyStr.startswith save_path path
  && clean (PyStr.drop (String.length save_path) path).





(** The file an event touches is [save_path] followed by a name without
    reserved characters. *)
Definition safe_event (save_path : string) (ev : Event) : bool :=
  match ev with
  | EOpen path | EWrite path _ | EClose path => inside save_path path
  | _ => true
  end.

(** A task that streams does so into a file with a clean name. *)
Definition safe_task (t : Task) : bool :=
  match t with
  | Streaming filename _ _ => clean filename
  | _ => true
  end.

(** The file name [download_map] takes from a [Content-Disposition]
    header, before sanitizing. *)
Definition disposition_name (value : string) : string :=
  PyStr.removesuffix disposition_suffix
    (PyStr.removeprefix disposition_prefix value).

(** A response [download_map] downloads: neither 429 nor 404, with both
    headers in place. *)
Definition downloadable (response : Response) : bool :=
  negb (status_code response =? 429)
  && negb (status_code response =? 404)
  && match content_length response with HeaderInt _ => true | _ => false end
  && match content_disposition response with Some _ => true | None => false end.

(** What is left of a body arrives whole and is written and closed without
    an error. *)
Definition stored (rest : Stream) : bool :=
  forallb (fun chunk => negb (write_fails chunk)) (chunks rest)
  && negb (breaks_off rest)
  && negb (close_fails rest).

(** The file of the response can be opened and its body stored. *)
Definition storable (response : Response) : bool :=
  negb (open_fails response) && stored (body response).

(** A reply on which [download_map] does not raise: a 404, or a response it
    downloads and the disk stores. *)
Definition harmless (reply : Reply) : bool :=
  match reply with
  | NoResponse => false
  | Answers response =>
      (status_code response =? 404)
      || (downloadable response && storable response)
  end.

(** A reply that ends in a completed download. *)
Definition completes (reply : Reply) : bool :=
  match reply with
  | NoResponse => false
  | Answers response =>
      negb (status_code response =? 404)
      && downloadable response && storable response
  end.

(** How many of the items [start], ..., [start + n - 1] of the page at
    [offset] end in a completed download. *)
Fixpoint completing (w : World) (offset : Z) (start n : nat) : nat :=
  match n with
  | O => 0
  | S n' =>
      (if completes (download_reply w offset start) then 1 else 0)
      + completing w offset (S start) n'
  end.

(** A task that will not raise, and the downloads it still has to
    complete. *)
Definition sound (t : Task) : bool :=
  match t with
  | Created _ reply | AwaitingResponse reply => harmless reply
  | Streaming _ _ rest => stored rest
  | Returned => true
  | Failed _ => false
  end.

Definition owed (t : Task) : nat :=
  match t with
  | Created _ reply | AwaitingResponse reply =>
      if completes reply then 1 else 0
  | Streaming _ _ _ => 1
  | Returned | Failed _ => 0
  end.

Fixpoint owed_all (ts : list Task) : nat :=
  match ts with
  | [] => 0
  | t :: ts' => owed t + owed_all ts'
  end.

(** The offset [main] starts from, when its argument converts. *)
Definition input_offset (arg : cli_arg) : option Z :=
  match arg with
  | NoArgument => Some 0
  | ArgumentInt _ n => Some n
  | ArgumentNotInt _ => None
  end.

(** The directory [main] downloads into. *)
Definition save_dir (w : World) : string := or_default "./" (typed_path w).

(** The exception [download_map] raises on a response that lacks a header;
    [Content-Length] is read first. *)
Definition header_failure (response : Response) : exn :=
  match content_length response with
  | HeaderMissing => KeyError "Content-Length"
  | HeaderNotInt => ValueError
  | HeaderInt _ => KeyError "Content-Disposition"
  end.

(** The globals after one more completed download. *)
Definition counted (st : State) : State :=
  {| downloaded_count := S (downloaded_count st); cookies := cookies st |}.

(** What every stretch of the download pipeline keeps: files stay inside
    [save_path], the cookies are left alone, and the tally grows by one per
    "download complete" line, each of which goes with one [close]. *)
Definition kept (save_path : string) (st st' : State) (evs : list Event)
  : Prop :=
  forallb (safe_event save_path) evs = true
  /\ cookies st' = cookies st
  /\ downloaded_count st' = (downloaded_count st + completions evs)%nat
  /\ completions evs = closes evs.

(** The globals once [login] has stored the cookies of the session. *)
Definition after_login (w : World) : State :=
  {| downloaded_count := 0;
     cookies := Some (session_cookies (session_reply w)) |}.

(** What a run has printed and sent when it enters the loop. *)
Definition startup (w : World) (arg : cli_arg) (name : string) (id : Z)
  : list Event :=
  arg_echo arg ++ login_attempt w
  ++ [EPrint (MsgLoginOk name id); EPrint MsgStarting].

(** The events of [main]'s [try] statement: those of the batches, the
    loop's own lines and fetches, and the three of the interrupt handler. *)
Definition scheduler_event (ev : Event) : bool :=
  batch_event ev
  || match ev with
     | EQuery _ | EAclose
     | EPrint MsgFetching | EPrint (MsgFound _) | EPrint MsgNoMoreMaps
     | EPrint MsgWaitClient | EPrint MsgLoggingOut => true
     | _ => false
     end.

(** The tallies the script has printed, in order. *)
Fixpoint tallies (evs : list Event) : list nat :=
  match evs with
  | [] => []
  | EPrint (MsgTally n) :: evs' => n :: tallies evs'
  | _ :: evs' => tallies evs'
  end.

(** The offsets the script has printed at its end, in order. *)
Fixpoint offset_reports (evs : list Event) : list Z :=
  match evs with
  | [] => []
  | EPrint (MsgOffset o) :: evs' => o :: offset_reports evs'
  | _ :: evs' => offset_reports evs'
  end.

(** The number of logout requests sent. *)
Fixpoint logouts (evs : list Event) : nat :=
  match evs with
  | [] => 0
  | EDeleteSession :: evs' => S (logouts evs')
  | _ :: evs' => logouts evs'
  end.

(** The ways the script can end without having entered the loop. *)
Inductive EarlyEnd : Type :=
| BadArgument                       (* [int(offset)] raised *)
| LoginRefused                      (* [login] called [exit()] *)
| LoginUnreadable.                  (* the body of the login's answer
                                       could not be read *)

(** The exception [login] raises on a body it cannot read. *)
Definition body_failure (body : SessionBody) : exn :=
  match body with
  | BodyLacks key => KeyError key
  | _ => ValueError
  end.

(** What the script leaves behind in each of them. *)
Definition early_end (w : World) (arg : cli_arg) (how : EarlyEnd)
  : completion unit * State * list Event :=
  match how with
  | BadArgument =>
      (Raised (NameError "offset"), initial_state,
       arg_echo arg ++ [EPrint (MsgTraceback ValueError); EPrint (MsgTally 0)])
  | LoginRefused =>
      (Raised SystemExit, initial_state,
       arg_echo arg ++ login_attempt w ++ [EPrint MsgLoginFailed])
  | LoginUnreadable =>
      (Raised (NameError "offset"), after_login w,
       arg_echo arg ++ login_attempt w
       ++ [EPrint (MsgTraceback
                     (body_failure (session_body (session_reply w))))]
       ++ (if truthy (cookies (after_login w))
           then [EPrint MsgLoggingOut; EDeleteSession] else [])
       ++ [EPrint (MsgTally 0)])
  end.

(** When each of them happens. *)
Definition early_end_of (w : World) (arg : cli_arg) : option EarlyEnd :=
  match input_offset arg with
  | None => Some BadArgument
  | Some _ =>
      if is_error (session_status (session_reply w)) then Some LoginRefused
      else match session_body (session_reply w) with
           | BodyUser _ _ => None
           | _ => Some LoginUnreadable
           end
  end.

(** The identifiers of a group of items. *)
Definition ids (group : list Beatmap) : list Z :=
  List.map beatmapset_id group.

(** * Properties *)

(** ** Lists of events *)

Lemma queries_app (l1 l2 : list Event) :
  queries (l1 ++ l2) = queries l1 ++ queries l2.
Proof.
  induction l1 as [|ev l1 IH]; [reflexivity|].
  destruct ev; simpl; rewrite ?IH; reflexivity.
Qed.

Lemma gathers_app (l1 l2 : list Event) :
  gathers (l1 ++ l2) = gathers l1 ++ gathers l2.
Proof.
  induction l1 as [|ev l1 IH]; [reflexivity|].
  destruct ev; simpl; rewrite ?IH; reflexivity.
Qed.

Lemma after_first_429_app (l1 l2 : list Event) :
  after_first_429 (l1 ++ l2) =
  match after_first_429 l1 with
  | Some post => Some (post ++ l2)
  | None => after_first_429 l2
  end.
Proof.
  induction l1 as [|ev l1 IH]; [reflexivity|].
  destruct ev as [m| | | | | | | | | | | | | |]; simpl; try exact IH.
  destruct m; simpl; try exact IH; reflexivity.
Qed.

Lemma after_first_429_suffix (evs post : list Event) :
  after_first_429 evs = Some post ->
  exists pre, evs = pre ++ EPrint Msg429 :: post /\ after_first_429 pre = None.
Proof.
  induction evs as [|ev evs IH]; [discriminate|].
  intros H.
  assert (Hcases : (ev = EPrint Msg429 /\ post = evs)
                   \/ (ev <> EPrint Msg429 /\ after_first_429 evs = Some post
                       /\ after_first_429 [ev] = None)).
  { destruct ev as [m| | | | | | | | | | | | | |]; simpl in H;
      try (right; repeat split; [discriminate|exact H]).
    destruct m; simpl in H;
      try (right; repeat split; [discriminate|exact H]).
    left; split; [reflexivity|congruence]. }
  destruct Hcases as [[-> ->]|(Hne & Hrec & Hsingle)].
  - exists []. split; reflexivity.
  - destruct (IH Hrec) as (pre & -> & Hpre).
    exists (ev :: pre). split; [reflexivity|].
    change (ev :: pre) with ([ev] ++ pre).
    rewrite after_first_429_app, Hsingle. exact Hpre.
Qed.

(** Any split of a trace at a 429 line lies at or after the first one. *)
Lemma split_at_429 (evs pre post : list Event) :
  evs = pre ++ EPrint Msg429 :: post ->
  exists post0 mid, after_first_429 evs = Some post0 /\ post0 = mid ++ post.
Proof.
  intros ->. rewrite after_first_429_app.
  destruct (after_first_429 pre) as [p|] eqn:Hp.
  - exists (p ++ EPrint Msg429 :: post), (p ++ [EPrint Msg429]).
    split; [reflexivity|]. rewrite <- app_assoc. reflexivity.
  - exists post, []. split; reflexivity.
Qed.

Lemma forallb_after_first_429 (P : Event -> bool) (evs post : list Event) :
  forallb P evs = true -> after_first_429 evs = Some post ->
  forallb P post = true.
Proof.
  intros HP H. destruct (after_first_429_suffix _ _ H) as (pre & -> & _).
  rewrite forallb_app in HP. simpl in HP.
  apply andb_true_iff in HP as [_ HP].
  apply andb_true_iff in HP as [_ HP]. exact HP.
Qed.

Lemma length_after_first_429 (evs post : list Event) :
  after_first_429 evs = Some post -> (length post <= length evs)%nat.
Proof.
  intros H. destruct (after_first_429_suffix _ _ H) as (pre & -> & _).
  rewrite length_app. simpl. lia.
Qed.

Lemma requests_no_429 (evs : list Event) :
  forallb is_request evs = true -> after_first_429 evs = None.
Proof.
  induction evs as [|ev evs IH]; [reflexivity|].
  simpl. intros H. apply andb_true_iff in H as [H1 H2].
  destruct ev; try discriminate. simpl. auto.
Qed.

Lemma batch_events_no_query (evs : list Event) :
  forallb batch_event evs = true -> queries evs = [].
Proof.
  induction evs as [|ev evs IH]; [reflexivity|].
  simpl. intros H. apply andb_true_iff in H as [H1 H2].
  destruct ev; try discriminate; simpl; auto.
Qed.

Lemma transfer_is_batch (evs : list Event) :
  forallb transfer_event evs = true -> forallb batch_event evs = true.
Proof.
  induction evs as [|ev evs IH]; [reflexivity|].
  simpl. intros H. apply andb_true_iff in H as [H1 H2].
  unfold batch_event at 1. rewrite H1, orb_true_r. simpl. auto.
Qed.

(** ** One task *)

Lemma resume_finished (p : string) (t : Task) (st : State) :
  is_finished t = true -> resume p t st = (t, st, []).
Proof. destruct t; simpl; try discriminate; reflexivity. Qed.

Lemma resume_started (p : string) (t t' : Task) (st st' : State)
    (ev : list Event) :
  resume p t st = (t', st', ev) -> started t' = true.
Proof. intros H. resume_inv H; reflexivity. Qed.

Lemma resume_events (p : string) (t t' : Task) (st st' : State)
    (ev : list Event) :
  started t = true -> resume p t st = (t', st', ev) ->
  forallb transfer_event ev = true /\ (length ev <= 3)%nat.
Proof.
  intros Hs H. resume_inv H; try discriminate; simpl; split; (reflexivity || lia).
Qed.

Lemma resume_429 (p : string) (t t' : Task) (st st' : State)
    (ev post : list Event) :
  resume p t st = (t', st', ev) -> after_first_429 ev = Some post ->
  post = [] /\ t' = Failed RateLimited.
Proof.
  intros H. resume_inv H; simpl; intros Hp; try discriminate.
  injection Hp as <-. split; reflexivity.
Qed.

Lemma resume_live (p : string) (t t' : Task) (st st' : State)
    (ev : list Event) :
  live t = true -> resume p t st = (t', st', ev) ->
  live t' = true \/ exists e, t' = Failed e /\ download_failure e = true.
Proof.
  intros Hl H. resume_inv H; try discriminate;
    first [left; reflexivity | right; eexists; split; reflexivity].
Qed.

Lemma resume_n_S (n : nat) (p : string) (t : Task) (st : State) :
  resume_n (S n) p t st =
  let '(t1, st1, ev1) := resume p t st in
  let '(t2, st2, ev2) := resume_n n p t1 st1 in
  (t2, st2, ev1 ++ ev2).
Proof. reflexivity. Qed.

Lemma resume_n_finished (n : nat) (p : string) (t : Task) (st : State) :
  is_finished t = true -> resume_n n p t st = (t, st, []).
Proof.
  intros Hf. induction n as [|n IH]; [reflexivity|].
  simpl. rewrite (resume_finished p t st Hf), IH. reflexivity.
Qed.

Lemma resume_n_events (n : nat) (p : string) :
  forall (t t' : Task) (st st' : State) (evs : list Event),
    started t = true -> resume_n n p t st = (t', st', evs) ->
    forallb transfer_event evs = true /\ started t' = true.
Proof.
  induction n as [|n IH]; simpl; intros t t' st st' evs Hs H.
  - injection H as <- <- <-. split; [reflexivity|exact Hs].
  - destruct (resume p t st) as [[t1 st1] ev1] eqn:H1.
    destruct (resume_n n p t1 st1) as [[t2 st2] ev2] eqn:H2.
    injection H as <- <- <-.
    destruct (resume_events _ _ _ _ _ _ Hs H1) as [He1 _].
    destruct (IH _ _ _ _ _ (resume_started _ _ _ _ _ _ H1) H2) as [He2 Hs2].
    rewrite forallb_app, He1, He2. split; [reflexivity|exact Hs2].
Qed.

Lemma resume_n_429 (n : nat) (p : string) :
  forall (t t' : Task) (st st' : State) (evs post : list Event),
    resume_n n p t st = (t', st', evs) -> after_first_429 evs = Some post ->
    post = [] /\ t' = Failed RateLimited.
Proof.
  induction n as [|n IH]; simpl; intros t t' st st' evs post H Hp.
  - injection H as <- <- <-. discriminate.
  - destruct (resume p t st) as [[t1 st1] ev1] eqn:H1.
    destruct (resume_n n p t1 st1) as [[t2 st2] ev2] eqn:H2.
    injection H as <- <- <-.
    rewrite after_first_429_app in Hp.
    destruct (after_first_429 ev1) as [post1|] eqn:Hp1.
    + destruct (resume_429 _ _ _ _ _ _ _ H1 Hp1) as [-> ->].
      rewrite resume_n_finished in H2 by reflexivity.
      injection H2 as <- <- <-. injection Hp as <-. split; reflexivity.
    + exact (IH _ _ _ _ _ _ H2 Hp).
Qed.

Lemma resume_n_live (n : nat) (p : string) :
  forall (t t' : Task) (st st' : State) (evs : list Event),
    live t = true -> resume_n n p t st = (t', st', evs) ->
    live t' = true \/ exists e, t' = Failed e /\ download_failure e = true.
Proof.
  induction n as [|n IH]; simpl; intros t t' st st' evs Hl H.
  - injection H as <- <- <-. left; exact Hl.
  - destruct (resume p t st) as [[t1 st1] ev1] eqn:H1.
    destruct (resume_n n p t1 st1) as [[t2 st2] ev2] eqn:H2.
    injection H as <- <- <-.
    destruct (resume_live _ _ _ _ _ _ Hl H1) as [Hl1|(e & -> & He)].
    + exact (IH _ _ _ _ _ Hl1 H2).
    + rewrite resume_n_finished in H2 by reflexivity.
      injection H2 as <- <- <-. right. exists e. split; [reflexivity|exact He].
Qed.

(** [steps_left] resumptions do finish a task. *)
Lemma streaming_runs_out (p : string) (filename : string) (n : nat) :
  forall (rest : Stream) (received : Z) (st : State) (t' : Task) (st' : State)
         (evs : list Event),
    length (chunks rest) = n ->
    resume_n (1 + n) p (Streaming filename received rest) st = (t', st', evs) ->
    is_finished t' = true.
Proof.
  induction n as [|n IH]; intros rest received st t' st' evs Hn.
  - cbn [Nat.add resume_n resume].
    destruct (chunks rest) eqn:Hc; [|discriminate Hn].
    destruct (breaks_off rest); [|destruct (close_fails rest)];
      intros H; injection H as <- <- <-; reflexivity.
  - change (1 + S n)%nat with (S (1 + n)). rewrite resume_n_S.
    cbn [resume].
    destruct (chunks rest) as [|chunk more] eqn:Hc; [discriminate Hn|].
    destruct (write_fails chunk).
    + rewrite resume_n_finished by reflexivity.
      intros H; injection H as <- <- <-; reflexivity.
    + destruct (resume_n (1 + n) p _ st) as [[t2 st2] ev2] eqn:H2.
      intros H; injection H as <- <- <-.
      simpl in Hn. injection Hn as Hn.
      eapply IH; [|exact H2]. exact Hn.
Qed.

Lemma run_to_end_finished (p : string) (t t' : Task) (st st' : State)
    (evs : list Event) :
  run_to_end p t st = (t', st', evs) -> is_finished t' = true.
Proof.
  assert (Hawait : forall reply st0 t0 st0' evs0,
             resume_n (steps_after_request reply) p (AwaitingResponse reply) st0
             = (t0, st0', evs0) -> is_finished t0 = true).
  { intros [|response] st0 t0 st0' evs0.
    - simpl. intros H. injection H as <- <- <-. reflexivity.
    - unfold steps_after_request.
      change (2 + length (chunks (body response)))%nat
        with (S (1 + length (chunks (body response)))).
      rewrite resume_n_S.
      destruct (resume p (AwaitingResponse (Answers response)) st0)
        as [[t1 st1] ev1] eqn:H1.
      destruct (resume_n _ p t1 st1) as [[t2 st2] ev2] eqn:H2.
      intros H; injection H as <- <- <-.
      resume_inv H1;
        try (rewrite resume_n_finished in H2 by reflexivity;
             injection H2 as <- <- <-; reflexivity).
      exact (streaming_runs_out _ _ _ _ _ _ _ _ _ eq_refl H2). }
  unfold run_to_end. destruct t as [setid reply|reply|filename received rest| |e].
  - cbn [steps_left resume_n Nat.add resume].
    destruct (resume_n (steps_after_request reply) p (AwaitingResponse reply) st)
      as [[t2 st2] ev2] eqn:H2.
    intros H; injection H as <- <- <-. exact (Hawait _ _ _ _ _ H2).
  - apply Hawait.
  - cbn [steps_left].
    intros H. exact (streaming_runs_out _ _ _ _ _ _ _ _ _ eq_refl H).
  - simpl. intros H; injection H as <- <- <-; reflexivity.
  - simpl. intros H; injection H as <- <- <-; reflexivity.
Qed.

(** ** One batch *)

Lemma forallb_insert (P : Task -> bool) (ts : list Task) (i : nat) (t : Task) :
  forallb P ts = true -> P t = true -> forallb P (<[i:=t]> ts) = true.
Proof.
  revert i. induction ts as [|t0 ts IH]; intros i Hts Ht; [reflexivity|].
  simpl in Hts. apply andb_true_iff in Hts as [H0 Hts].
  destruct i as [|i]; simpl.
  - rewrite Ht, Hts. reflexivity.
  - rewrite H0, (IH i Hts Ht). reflexivity.
Qed.

Lemma forallb_lookup (P : Task -> bool) (ts : list Task) (i : nat) (t : Task) :
  forallb P ts = true -> ts !! i = Some t -> P t = true.
Proof.
  revert i. induction ts as [|t0 ts IH]; intros i Hts Hi; [discriminate|].
  simpl in Hts. apply andb_true_iff in Hts as [H0 Hts].
  destruct i as [|i]; simpl in Hi.
  - injection Hi as <-. exact H0.
  - exact (IH i Hts Hi).
Qed.

Lemma live_started (ts : list Task) :
  forallb live ts = true -> forallb started ts = true.
Proof.
  induction ts as [|t ts IH]; [reflexivity|].
  simpl. intros H. apply andb_true_iff in H as [H1 H2].
  rewrite (IH H2), andb_true_r. destruct t; try discriminate; reflexivity.
Qed.

Lemma linger_on_events (p : string) (n : nat) :
  forall (sig : option nat) (sched : list nat) (ts ts' : list Task)
         (st st' : State) (hit : bool) (evs : list Event),
    forallb started ts = true ->
    linger_on p n sig sched ts st = (hit, ts', st', evs) ->
    forallb transfer_event evs = true /\ (length evs <= 3 * n)%nat.
Proof.
  induction n as [|n IH]; intros sig sched ts ts' st st' hit evs Hs H.
  - simpl in H. injection H as <- <- <- <-. split; [reflexivity|simpl; lia].
  - destruct sched as [|i sched].
    { simpl in H. injection H as <- <- <- <-. split; [reflexivity|simpl; lia]. }
    cbn [linger_on] in H. destruct (ts !! i) as [t|] eqn:Hi.
    + destruct (is_finished t).
      { destruct (IH _ _ _ _ _ _ _ _ Hs H) as [He Hl]. split; [exact He|lia]. }
      destruct (strikes sig).
      { injection H as <- <- <- <-. split; [reflexivity|simpl; lia]. }
      destruct (resume p t st) as [[t1 st1] ev1] eqn:H1.
      destruct (linger_on p n (served sig) sched (<[i:=t1]> ts) st1)
        as [[[hit2 ts2] st2] ev2] eqn:H2.
      injection H as <- <- <- <-.
      destruct (resume_events _ _ _ _ _ _ (forallb_lookup _ _ _ _ Hs Hi) H1)
        as [He1 Hl1].
      destruct (IH _ _ _ _ _ _ _ _
                  (forallb_insert _ _ i _ Hs (resume_started _ _ _ _ _ _ H1)) H2)
        as [He2 Hl2].
      rewrite forallb_app, He1, He2, length_app. split; [reflexivity|lia].
    + destruct (IH _ _ _ _ _ _ _ _ Hs H) as [He Hl]. split; [exact He|lia].
Qed.

Lemma finish_in_order_result (p : string) (lng : nat) :
  forall (ts ts' : list Task) (c : completion unit) (st st' : State)
         (evs : list Event),
    forallb live ts = true ->
    finish_in_order p ts st = (c, ts', st', evs) ->
    batch_result lng c evs.
Proof.
  induction ts as [|t ts IH]; intros ts' c st st' evs Hl H.
  - simpl in H. injection H as <- <- <- <-.
    repeat split; try discriminate.
  - simpl in Hl. apply andb_true_iff in Hl as [Ht Hts].
    simpl in H. destruct (run_to_end p t st) as [[t1 st1] ev1] eqn:H1.
    unfold run_to_end in H1.
    assert (Hst : started t = true) by (destruct t; try discriminate; reflexivity).
    destruct (resume_n_events _ _ _ _ _ _ _ Hst H1) as [He1 _].
    pose proof (fun post => resume_n_429 _ _ _ _ _ _ _ post H1) as H429.
    pose proof (resume_n_live _ _ _ _ _ _ _ Ht H1) as Hlive.
    assert (Hcases : (exists e, t1 = Failed e /\ download_failure e = true)
                     \/ (live t1 = true /\ after_first_429 ev1 = None)).
    { destruct Hlive as [Hl1|Hf]; [right|left; exact Hf].
      split; [exact Hl1|].
      destruct (after_first_429 ev1) as [post|] eqn:Hp; [|reflexivity].
      destruct (H429 _ eq_refl) as [_ ->]. discriminate. }
    destruct Hcases as [(e & -> & He)|[Hl1 Hnone]].
    + injection H as <- <- <- <-.
      repeat split; try discriminate; try exact He1.
      * intros e' He'. injection He' as <-. exact He.
      * eauto.
      * destruct (H429 _ H) as [-> _]. simpl; lia.
    + destruct (finish_in_order p ts st1) as [[[c2 ts2] st2] ev2] eqn:H2.
      assert (H' : (c2, t1 :: ts2, st2, ev1 ++ ev2) = (c, ts', st', evs))
        by (destruct t1; try discriminate; exact H).
      clear H. injection H' as <- <- <- <-.
      destruct (IH _ _ _ _ _ Hts H2) as (He2 & Hnp & Hfail & Hpost).
      repeat split; try assumption.
      * rewrite forallb_app, He1, He2. reflexivity.
      * rewrite after_first_429_app, Hnone in H. exact (proj1 (Hpost _ H)).
      * rewrite after_first_429_app, Hnone in H. exact (proj2 (Hpost _ H)).
Qed.

Lemma drive_result (p : string) (lng : nat) :
  forall (sched : list nat) (sig : option nat) (ts ts' : list Task)
         (c : completion unit) (st st' : State) (evs : list Event),
    forallb live ts = true ->
    drive p lng sig sched ts st = (c, ts', st', evs) ->
    batch_result lng c evs.
Proof.
  induction sched as [|i sched IH]; intros sig ts ts' c st st' evs Hl H.
  - exact (finish_in_order_result _ _ _ _ _ _ _ _ Hl H).
  - cbn [drive] in H.
    destruct (ts !! i) as [t|] eqn:Hi; [|exact (IH _ _ _ _ _ _ _ Hl H)].
    destruct (is_finished t) eqn:Hfin; [exact (IH _ _ _ _ _ _ _ Hl H)|].
    destruct (strikes sig).
    { injection H as <- <- <- <-. repeat split; discriminate. }
    destruct (resume p t st) as [[t1 st1] ev1] eqn:H1.
    pose proof (forallb_lookup _ _ _ _ Hl Hi) as Ht.
    assert (Hst : started t = true) by (destruct t; try discriminate; reflexivity).
    destruct (resume_events _ _ _ _ _ _ Hst H1) as [He1 Hlen1].
    pose proof (fun post => resume_429 _ _ _ _ _ _ post H1) as H429.
    assert (Hcases : (exists e, t1 = Failed e /\ download_failure e = true)
                     \/ (live t1 = true /\ after_first_429 ev1 = None)).
    { destruct (resume_live _ _ _ _ _ _ Ht H1) as [Hl1|Hf]; [right|left; exact Hf].
      split; [exact Hl1|].
      destruct (after_first_429 ev1) as [post|] eqn:Hp; [|reflexivity].
      destruct (H429 _ eq_refl) as [_ ->]. discriminate. }
    destruct Hcases as [(e & -> & He)|[Hl1 Hnone]].
    + destruct (linger_on p lng (served sig) sched (<[i:=Failed e]> ts) st1)
        as [[[hit ts2] st2] ev2] eqn:H2.
      injection H as <- <- <- <-.
      assert (Hs2 : forallb started (<[i:=Failed e]> ts) = true)
        by (apply forallb_insert; [exact (live_started _ Hl)|reflexivity]).
      destruct (linger_on_events _ _ _ _ _ _ _ _ _ _ Hs2 H2) as [He2 Hlen2].
      repeat split; try (destruct hit; discriminate).
      * rewrite forallb_app, He1, He2. reflexivity.
      * intros e' He'. destruct hit; [discriminate He'|].
        injection He' as <-. exact He.
      * destruct hit; eauto.
      * rewrite after_first_429_app in H.
        destruct (after_first_429 ev1) as [post1|] eqn:Hp1.
        -- destruct (H429 _ eq_refl) as [-> _]. injection H as <-.
           simpl. exact Hlen2.
        -- pose proof (length_after_first_429 _ _ H). lia.
    + destruct (drive p lng (served sig) sched (<[i:=t1]> ts) st1)
        as [[[c2 ts2] st2] ev2] eqn:H2.
      assert (H' : (c2, ts2, st2, ev1 ++ ev2) = (c, ts', st', evs))
        by (destruct t1; try discriminate; exact H).
      clear H. injection H' as <- <- <- <-.
      destruct (IH _ _ _ _ _ _ _ (forallb_insert _ _ i _ Hl Hl1) H2)
        as (He2 & Hnp & Hfail & Hpost).
      repeat split; try assumption.
      * rewrite forallb_app, He1, He2. reflexivity.
      * rewrite after_first_429_app, Hnone in H. exact (proj1 (Hpost _ H)).
      * rewrite after_first_429_app, Hnone in H. exact (proj2 (Hpost _ H)).
Qed.

(** Starting the coroutines of a group sends their requests, in order. *)
Lemma start_all_coroutines (p : string) (st : State) (group : list Beatmap) :
  forall (reply_of : nat -> Reply),
    start_all p
      (imap (fun j map => Created (beatmapset_id map) (reply_of j)) group) st
    = (imap (fun j (_ : Beatmap) => AwaitingResponse (reply_of j)) group, st,
       List.map (fun map => ERequest (beatmapset_id map)) group).
Proof.
  induction group as [|m group IH]; intros reply_of; [reflexivity|].
  cbn [imap start_all resume List.map].
  specialize (IH (reply_of ∘ S)). unfold compose in *.
  rewrite IH. reflexivity.
Qed.

Lemma awaiting_live (group : list Beatmap) :
  forall (reply_of : nat -> Reply),
    forallb live
      (imap (fun j (_ : Beatmap) => AwaitingResponse (reply_of j)) group) = true.
Proof.
  induction group as [|m group IH]; intros reply_of; [reflexivity|].
  cbn [imap forallb live]. exact (IH (reply_of ∘ S)).
Qed.

Lemma requests_are_requests (group : list Beatmap) :
  forallb is_request
    (List.map (fun map => ERequest (beatmapset_id map)) group) = true.
Proof. induction group as [|m group IH]; [reflexivity|exact IH]. Qed.

(** The events of one [await asyncio.gather(...)]: the gather, the requests
    of the whole group, then transfers only. *)
Lemma await_gather_result (w : World) (p : string) (offset : Z) (r : nat)
    (group : list Beatmap) (st st' : State) (c : completion unit)
    (evs : list Event) :
  await_gather w p offset r group st = (c, st', evs) ->
  exists rest,
    evs = EGather (List.map beatmapset_id group)
          :: List.map (fun map => ERequest (beatmapset_id map)) group ++ rest
    /\ batch_result (linger w offset r) c rest.
Proof.
  unfold await_gather, bind, emit, gather, coroutines.
  rewrite start_all_coroutines.
  destruct (drive _ _ _ _ _ _) as [[[c1 ts1] st1] ev1] eqn:Hd.
  pose proof (drive_result _ _ _ _ _ _ _ _ _ _ (awaiting_live group _) Hd)
    as Hres.
  intros H. exists ev1. split; [|congruence].
  assert (Hc : c1 = c /\ [EGather (List.map beatmapset_id group)]
                          ++ List.map (fun map => ERequest (beatmapset_id map)) group
                          ++ ev1 = evs).
  { destruct c1; injection H; intros; subst; split; reflexivity. }
  destruct Hc as [_ <-]. reflexivity.
Qed.

(** ** The monad *)

Lemma bind_inv {A B} (m : M A) (k : A -> M B) (st st' : State)
    (c : completion B) (evs : list Event) :
  bind m k st = (c, st', evs) ->
  (exists a st1 ev1 ev2,
      m st = (Done a, st1, ev1) /\ k a st1 = (c, st', ev2) /\ evs = ev1 ++ ev2)
  \/ (exists e, m st = (Raised e, st', evs) /\ c = Raised e)
  \/ (m st = (Pending, st', evs) /\ c = Pending)
  \/ (m st = (Interrupted, st', evs) /\ c = Interrupted).
Proof.
  unfold bind. destruct (m st) as [[[a|e| |] st1] ev1].
  - destruct (k a st1) as [[c2 st2] ev2] eqn:Hk. intros H.
    injection H as <- <- <-. left. exists a, st1, ev1, ev2. auto.
  - intros H. injection H as <- <- <-. right; left. eauto.
  - intros H. injection H as <- <- <-. right; right; left. auto.
  - intros H. injection H as <- <- <-. right; right; right. auto.
Qed.

(** ** One page *)

Lemma requests_are_batch_events (group : list Beatmap) :
  forallb batch_event
    (List.map (fun map => ERequest (beatmapset_id map)) group) = true.
Proof. induction group as [|m group IH]; [reflexivity|exact IH]. Qed.

(** One [await asyncio.gather(...)], seen from the loop over the batches. *)
Lemma await_gather_in_page (w : World) (p : string) (offset : Z) (r : nat)
    (group : list Beatmap) (st st' : State) (c : completion unit)
    (evs : list Event) :
  await_gather w p offset r group st = (c, st', evs) ->
  forallb batch_event evs = true
  /\ c <> Pending
  /\ (forall e, c = Raised e -> download_failure e = true)
  /\ (forall post, after_first_429 evs = Some post ->
        ((exists e, c = Raised e) \/ c = Interrupted)
        /\ forallb transfer_event post = true
        /\ (length post <= 3 * linger w offset r)%nat).
Proof.
  intros Hg.
  destruct (await_gather_result _ _ _ _ _ _ _ _ _ Hg)
    as (rest & -> & Hrest & Hnp & Hfail & Hpost).
  split.
  { cbn [forallb]. rewrite forallb_app, requests_are_batch_events.
    rewrite (transfer_is_batch _ Hrest). reflexivity. }
  split; [exact Hnp|]. split; [exact Hfail|].
  intros post Hp. cbn [after_first_429] in Hp.
  rewrite after_first_429_app, (requests_no_429 _ (requests_are_requests group))
    in Hp.
  destruct (Hpost _ Hp) as [He Hlen].
  split; [exact He|].
  split; [exact (forallb_after_first_429 _ _ _ Hrest Hp)|exact Hlen].
Qed.

Lemma for_batches_result (w : World) (p : string) (offset : Z)
    (maps : list Beatmap) :
  forall (rs : list nat) (st st' : State) (c : completion unit)
         (evs : list Event),
    for_batches w p offset maps rs st = (c, st', evs) ->
    page_result w offset c evs.
Proof.
  induction rs as [|r rs IH]; intros st st' c evs H.
  - injection H as <- <- <-. repeat split; try discriminate.
  - cbn [for_batches] in H.
    destruct (bind_inv _ _ _ _ _ _ H)
      as [(a & st1 & ev1 & ev2 & Hm & Hk & ->)
         |[(e & Hm & ->)|[[Hm ->]|[Hm ->]]]];
      destruct (await_gather_in_page _ _ _ _ _ _ _ _ _ Hm)
        as (He1 & Hnp1 & Hfail1 & Hpost1).
    + destruct (IH _ _ _ _ Hk) as (He2 & Hnp & Hfail & Hpost2).
      split; [rewrite forallb_app, He1, He2; reflexivity|].
      split; [exact Hnp|]. split; [exact Hfail|].
      intros post Hp. rewrite after_first_429_app in Hp.
      destruct (after_first_429 ev1) as [post1|] eqn:Hp1.
      * destruct (proj1 (Hpost1 _ eq_refl)) as [[e He]|He]; discriminate.
      * exact (Hpost2 _ Hp).
    + split; [exact He1|]. split; [discriminate|]. split; [exact Hfail1|].
      intros post Hp. destruct (Hpost1 _ Hp) as (Hraised & Htransfer & Hlen).
      split; [exact Hraised|]. split; [exact Htransfer|].
      exists r. exact Hlen.
    + contradiction.
    + split; [exact He1|]. split; [discriminate|]. split; [discriminate|].
      intros post Hp. destruct (Hpost1 _ Hp) as (Hraised & Htransfer & Hlen).
      split; [exact Hraised|]. split; [exact Htransfer|].
      exists r. exact Hlen.
Qed.

Lemma loop_body_unfold (w : World) (p : string) (offset : Z) (st : State) :
  loop_body w p offset st =
  match catalog w offset with
  | QueryRaises e => (Raised e, st, [EPrint MsgFetching; EQuery offset])
  | QueryReturns maps_data =>
      match for_batches w p offset (beatmaps maps_data)
              (range 0 (length (beatmaps maps_data)) batch) st with
      | (Done _, st1, ev1) =>
          if negb (length (beatmaps maps_data) =? 0)%nat
          then (Done (offset + 1, true), st1,
                pass_header offset maps_data ++ ev1)
          else (Done (offset, false), st1,
                pass_header offset maps_data ++ ev1 ++ [EPrint MsgNoMoreMaps])
      | (Raised e, st1, ev1) =>
          (Raised e, st1, pass_header offset maps_data ++ ev1)
      | (Pending, st1, ev1) =>
          (Pending, st1, pass_header offset maps_data ++ ev1)
      | (Interrupted, st1, ev1) =>
          (Interrupted, st1, pass_header offset maps_data ++ ev1)
      end
  end.
Proof.
  unfold loop_body, query_maps, pass_header, bind, emit, ret, raise.
  destruct (catalog w offset) as [e|maps_data]; [reflexivity|].
  destruct (0 <? result_count maps_data);
    destruct (for_batches _ _ _ _ _ st) as [[[[]|e| |] st1] ev1];
    try reflexivity;
    destruct (negb _); cbn; rewrite ?app_nil_r; reflexivity.
Qed.

Lemma pass_header_queries (offset : Z) (maps_data : QueryMaps) :
  queries (pass_header offset maps_data) = [offset].
Proof. unfold pass_header. destruct (0 <? _); reflexivity. Qed.

Lemma pass_header_no_429 (offset : Z) (maps_data : QueryMaps) :
  after_first_429 (pass_header offset maps_data) = None.
Proof. unfold pass_header. destruct (0 <? _); reflexivity. Qed.

(** What one pass through the loop body does. *)
Lemma loop_body_result (w : World) (p : string) (offset : Z) (st st' : State)
    (c : completion (Z * bool)) (evs : list Event) :
  loop_body w p offset st = (c, st', evs) ->
  queries evs = [offset]
  /\ c <> Pending
  /\ (forall offset' running, c = Done (offset', running) ->
        after_first_429 evs = None
        /\ exists maps_data,
            catalog w offset = QueryReturns maps_data
            /\ running = negb (length (beatmaps maps_data) =? 0)%nat
            /\ offset' = if running then offset + 1 else offset)
  /\ (forall post, after_first_429 evs = Some post ->
        ((exists e, c = Raised e /\ download_failure e = true)
         \/ c = Interrupted)
        /\ forallb transfer_event post = true
        /\ exists r, (length post <= 3 * linger w offset r)%nat).
Proof.
  rewrite loop_body_unfold.
  destruct (catalog w offset) as [e|maps_data] eqn:Hcat.
  { intros H. injection H as <- <- <-.
    repeat split; try discriminate. }
  destruct (for_batches _ _ _ _ _ st) as [[c1 st1] ev1] eqn:Hfor.
  destruct (for_batches_result _ _ _ _ _ _ _ _ _ Hfor)
    as (Hev & Hnp & Hfail & Hpost).
  pose proof (batch_events_no_query _ Hev) as Hq.
  pose proof (pass_header_queries offset maps_data) as Hhq.
  pose proof (pass_header_no_429 offset maps_data) as Hh429.
  remember (pass_header offset maps_data) as header eqn:Hheader.
  clear Hheader.
  assert (Hnone : forall u, c1 = Done u -> after_first_429 ev1 = None).
  { intros u ->. destruct (after_first_429 ev1) as [post|] eqn:Hp; [|reflexivity].
    destruct (proj1 (Hpost _ eq_refl)) as [[e He]|He]; discriminate. }
  destruct c1 as [[]|e| |]; [| |contradiction|].
  - specialize (Hnone tt eq_refl).
    destruct (negb (length (beatmaps maps_data) =? 0)%nat) eqn:Hlen;
      intros H; injection H as <- <- <-.
    + split; [rewrite queries_app, Hhq, Hq; reflexivity|].
      split; [discriminate|]. split.
      * intros offset' running Hc. injection Hc as <- <-.
        split; [rewrite after_first_429_app, Hh429; exact Hnone|].
        exists maps_data. rewrite Hlen. auto.
      * intros post Hp. rewrite after_first_429_app, Hh429, Hnone in Hp.
        discriminate.
    + split; [rewrite !queries_app, Hhq, Hq; reflexivity|].
      split; [discriminate|]. split.
      * intros offset' running Hc. injection Hc as <- <-.
        split; [rewrite !after_first_429_app, Hh429, Hnone; reflexivity|].
        exists maps_data. rewrite Hlen. auto.
      * intros post Hp. rewrite !after_first_429_app, Hh429, Hnone in Hp.
        discriminate.
  - intros H; injection H as <- <- <-.
    split; [rewrite queries_app, Hhq, Hq; reflexivity|].
    split; [discriminate|]. split; [discriminate|].
    intros post Hp. rewrite after_first_429_app, Hh429 in Hp.
    destruct (Hpost _ Hp) as (_ & Htr & Hr).
    split; [|split; assumption].
    left. exists e. split; [reflexivity|exact (Hfail _ eq_refl)].
  - intros H; injection H as <- <- <-.
    split; [rewrite queries_app, Hhq, Hq; reflexivity|].
    split; [discriminate|]. split; [discriminate|].
    intros post Hp. rewrite after_first_429_app, Hh429 in Hp.
    destruct (Hpost _ Hp) as (_ & Htr & Hr).
    split; [right; reflexivity|split; assumption].
Qed.

(** ** The loop *)

Lemma upfrom_last (n : nat) :
  forall offset, last (upfrom offset (S n)) = Some (offset + Z.of_nat n).
Proof.
  induction n as [|n IH]; intros offset.
  - simpl. f_equal. lia.
  - change (upfrom offset (S (S n)))
      with (offset :: upfrom (offset + 1) (S n)).
    change (last (offset :: upfrom (offset + 1) (S n)))
      with (last (upfrom (offset + 1) (S n))).
    rewrite IH. f_equal. lia.
Qed.

Lemma upfrom_lower (n : nat) :
  forall offset x, In x (upfrom offset n) -> offset <= x.
Proof.
  induction n as [|n IH]; intros offset x; simpl; [tauto|].
  intros [<-|Hin]; [lia|]. specialize (IH _ _ Hin). lia.
Qed.

Lemma upfrom_sorted (n : nat) :
  forall offset, StronglySorted Z.lt (upfrom offset n).
Proof.
  induction n as [|n IH]; intros offset; simpl; constructor.
  - apply IH.
  - apply List.Forall_forall. intros x Hx.
    pose proof (upfrom_lower _ _ _ Hx). lia.
Qed.

Lemma upfrom_NoDup (n : nat) :
  forall offset, List.NoDup (upfrom offset n).
Proof.
  induction n as [|n IH]; intros offset; simpl; constructor.
  - intros Hin. pose proof (upfrom_lower _ _ _ Hin). lia.
  - apply IH.
Qed.

Lemma upfrom_length (n : nat) :
  forall offset, length (upfrom offset n) = n.
Proof. induction n as [|n IH]; intros offset; simpl; [|rewrite IH]; reflexivity. Qed.

(** The fetches of a run: consecutive offsets from the starting one; the
    local [offset] ends on the last one fetched, or one past it when the
    loop is still running. *)
Lemma while_running_queries (fuel : nat) (w : World) (p : string) :
  forall (offset offset' : Z) (st st' : State) (c : completion unit)
         (evs : list Event),
    while_running fuel w p offset st = (offset', (c, st', evs)) ->
    exists n,
      queries evs = upfrom offset n
      /\ (n <= fuel)%nat
      /\ (c = Pending -> n = fuel /\ offset' = offset + Z.of_nat n)
      /\ (c <> Pending -> (1 <= n)%nat /\ offset' = offset + Z.of_nat n - 1).
Proof.
  induction fuel as [|fuel IH]; intros offset offset' st st' c evs H.
  - injection H as <- <- <- <-. exists 0%nat.
    repeat split; try lia; congruence.
  - cbn [while_running] in H.
    destruct (loop_body w p offset st) as [[c1 st1] ev1] eqn:Hbody.
    destruct (loop_body_result _ _ _ _ _ _ _ Hbody) as (Hq & Hnp & Hdone & _).
    destruct c1 as [[o1 [|]]|e| |]; [| | |contradiction|].
    + destruct (Hdone _ _ eq_refl) as (_ & maps_data & _ & _ & Ho1).
      simpl in Ho1. subst o1.
      destruct (while_running fuel w p (offset + 1) st1)
        as [o2 [[c2 st2] ev2]] eqn:Hrec.
      injection H as <- <- <- <-.
      destruct (IH _ _ _ _ _ _ Hrec) as (n & Hq2 & Hle & Hpend & Hret).
      exists (S n). rewrite queries_app, Hq, Hq2.
      split; [reflexivity|]. split; [lia|]. split.
      * intros Hc. destruct (Hpend Hc) as [-> ->]. split; [reflexivity|lia].
      * intros Hc. destruct (Hret Hc) as [Hn ->]. split; lia.
    + destruct (Hdone _ _ eq_refl) as (_ & maps_data & _ & _ & Ho1).
      simpl in Ho1. subst o1.
      injection H as <- <- <- <-. exists 1%nat. rewrite Hq.
      split; [reflexivity|]. split; [lia|]. split; [discriminate|].
      intros _. split; lia.
    + injection H as <- <- <- <-. exists 1%nat. rewrite Hq.
      split; [reflexivity|]. split; [lia|]. split; [discriminate|].
      intros _. split; lia.
    + injection H as <- <- <- <-. exists 1%nat. rewrite Hq.
      split; [reflexivity|]. split; [lia|]. split; [discriminate|].
      intros _. split; lia.
Qed.

(** A 429 line ends the run: the loop is left by the exception, on the page
    it was downloading, and only lingering transfers follow the line. *)
Lemma while_running_429 (fuel : nat) (w : World) (p : string) :
  forall (offset offset' : Z) (st st' : State) (c : completion unit)
         (evs post : list Event),
    while_running fuel w p offset st = (offset', (c, st', evs)) ->
    after_first_429 evs = Some post ->
    ((exists e, c = Raised e /\ download_failure e = true) \/ c = Interrupted)
    /\ forallb transfer_event post = true
    /\ exists r, (length post <= 3 * linger w offset' r)%nat.
Proof.
  induction fuel as [|fuel IH]; intros offset offset' st st' c evs post H Hp.
  - injection H as <- <- <- <-. discriminate.
  - cbn [while_running] in H.
    destruct (loop_body w p offset st) as [[c1 st1] ev1] eqn:Hbody.
    destruct (loop_body_result _ _ _ _ _ _ _ Hbody) as (_ & Hnp & Hdone & H429).
    destruct c1 as [[o1 [|]]|e| |]; [| | |contradiction|].
    + destruct (Hdone _ _ eq_refl) as (Hnone & _).
      destruct (while_running fuel w p o1 st1) as [o2 [[c2 st2] ev2]] eqn:Hrec.
      injection H as <- <- <- <-.
      rewrite after_first_429_app, Hnone in Hp.
      exact (IH _ _ _ _ _ _ _ Hrec Hp).
    + destruct (Hdone _ _ eq_refl) as (Hnone & _).
      injection H as <- <- <- <-. congruence.
    + injection H as <- <- <- <-.
      destruct (H429 _ Hp) as ([(e' & He' & Hfail)|Hi] & Htr & Hr);
        [|discriminate Hi].
      injection He' as <-.
      split; [left; exists e; split; [reflexivity|assumption]|].
      split; assumption.
    + injection H as <- <- <- <-.
      destruct (H429 _ Hp) as (_ & Htr & Hr).
      split; [right; reflexivity|]. split; assumption.
Qed.

(** An empty page ends the run where it is. *)
Lemma while_running_empty_page (fuel : nat) (w : World) (p : string) :
  forall (offset offset' : Z) (st st' : State) (c : completion unit)
         (evs : list Event) (o : Z) (maps_data : QueryMaps),
    while_running fuel w p offset st = (offset', (c, st', evs)) ->
    In o (queries evs) ->
    catalog w o = QueryReturns maps_data ->
    beatmaps maps_data = [] ->
    c = Done tt /\ offset' = o /\ last (queries evs) = Some o
    /\ last evs = Some (EPrint MsgNoMoreMaps).
Proof.
  induction fuel as [|fuel IH];
    intros offset offset' st st' c evs o maps_data H Hin Hcat Hempty.
  - injection H as <- <- <- <-. destruct Hin.
  - cbn [while_running] in H.
    destruct (loop_body w p offset st) as [[c1 st1] ev1] eqn:Hbody.
    destruct (loop_body_result _ _ _ _ _ _ _ Hbody) as (Hq & _).
    destruct (Z.eq_dec o offset) as [->|Hne].
    + (* the empty page is the one this pass fetches *)
      rewrite loop_body_unfold, Hcat, Hempty in Hbody.
      cbn in Hbody. injection Hbody as <- <- <-.
      injection H as <- <- <- <-.
      repeat split; try reflexivity.
      * rewrite Hq. reflexivity.
      * unfold pass_header. destruct (0 <? _); reflexivity.
    + assert (Hrest : forall ev2, In o (queries (ev1 ++ ev2)) -> In o (queries ev2)).
      { intros ev2. rewrite queries_app, Hq. simpl. intros [Heq|Hin2]; congruence. }
      destruct c1 as [[o1 [|]]|e| |].
      * destruct (while_running fuel w p o1 st1) as [o2 [[c2 st2] ev2]] eqn:Hrec.
        injection H as <- <- <- <-.
        destruct (IH _ _ _ _ _ _ _ _ Hrec (Hrest _ Hin) Hcat Hempty)
          as (Hc & Ho & Hl & Hle).
        repeat split; try assumption.
        -- rewrite queries_app, Hq.
           destruct (queries ev2) as [|q qs]; [discriminate|exact Hl].
        -- destruct ev2 as [|e2 ev2]; [discriminate|].
           rewrite last_app. rewrite Hle. reflexivity.
      * injection H as <- <- <- <-. rewrite Hq in Hin.
        destruct Hin as [Heq|[]]. congruence.
      * injection H as <- <- <- <-. rewrite Hq in Hin.
        destruct Hin as [Heq|[]]. congruence.
      * injection H as <- <- <- <-. rewrite Hq in Hin.
        destruct Hin as [Heq|[]]. congruence.
      * injection H as <- <- <- <-. rewrite Hq in Hin.
        destruct Hin as [Heq|[]]. congruence.
Qed.


(** ** Filename sanitization *)

Lemma fixedfilename_cons (c : ascii) (s : string) :
  fixedfilename (String c s) = String (sanitize_char c) (fixedfilename s).
Proof. destruct c as [[] [] [] [] [] [] [] []]; reflexivity. Qed.

Lemma fixedfilename_map (s : string) :
  fixedfilename s = PyStr.map sanitize_char s.
Proof.
  induction s as [|c s IH]; [reflexivity|].
  rewrite fixedfilename_cons, IH. reflexivity.
Qed.

Lemma sanitize_char_idempotent (c : ascii) :
  sanitize_char (sanitize_char c) = sanitize_char c.
Proof. destruct c as [[] [] [] [] [] [] [] []]; reflexivity. Qed.

Lemma sanitize_char_safe (c : ascii) : is_reserved (sanitize_char c) = false.
Proof. destruct c as [[] [] [] [] [] [] [] []]; reflexivity. Qed.

(** C4: sanitizing is idempotent; it is the single pass that turns each of
    the nine reserved characters into an underscore and keeps every other
    character, so no reserved character is left; and [My:File<1>.osz]
    becomes [My_File_1_.osz]. *)
Theorem C4_fixedfilename_idempotent_one_pass :
  (forall filename : string,
      fixedfilename (fixedfilename filename) = fixedfilename filename)
  /\ (forall filename : string,
         fixedfilename filename = PyStr.map sanitize_char filename)
  /\ (forall filename : string,
         existsb is_reserved (list_ascii_of_string (fixedfilename filename))
         = false)
  /\ length reserved_chars = 9%nat
  /\ List.NoDup reserved_chars
  /\ fixedfilename "My:File<1>.osz" = "My_File_1_.osz"%string.
Proof.
  split; [|split; [|split; [|split; [|split]]]].
  - intros filename. rewrite !fixedfilename_map.
    induction filename as [|c s IH]; [reflexivity|].
    simpl. rewrite sanitize_char_idempotent, IH. reflexivity.
  - exact fixedfilename_map.
  - intros filename. rewrite fixedfilename_map.
    induction filename as [|c s IH]; [reflexivity|].
    cbn [PyStr.map list_ascii_of_string existsb].
    rewrite sanitize_char_safe. exact IH.
  - reflexivity.
  - unfold reserved_chars.
    repeat (constructor; [cbv; intuition discriminate|]).
    constructor.
  - reflexivity.
Qed.

(** ** The scheduler *)

(** Every fetch but the one the run ends on found a page with items. *)
Lemma while_running_advances (fuel : nat) (w : World) (p : string) :
  forall (offset offset' : Z) (st st' : State) (c : completion unit)
         (evs : list Event) (o : Z),
    while_running fuel w p offset st = (offset', (c, st', evs)) ->
    In o (queries evs) -> o < offset' ->
    exists maps_data,
      catalog w o = QueryReturns maps_data /\ beatmaps maps_data <> [].
Proof.
  induction fuel as [|fuel IH]; intros offset offset' st st' c evs o H Hin Hlt.
  - injection H as <- <- <- <-. destruct Hin.
  - cbn [while_running] in H.
    destruct (loop_body w p offset st) as [[c1 st1] ev1] eqn:Hbody.
    destruct (loop_body_result _ _ _ _ _ _ _ Hbody) as (Hq & Hnp & Hdone & _).
    destruct c1 as [[o1 [|]]|e| |]; [| | |contradiction|].
    + destruct (Hdone _ _ eq_refl) as (_ & maps_data & Hcat & Hrun & Ho1).
      destruct (while_running fuel w p o1 st1) as [o2 [[c2 st2] ev2]] eqn:Hrec.
      injection H as <- <- <- <-.
      rewrite queries_app, Hq in Hin. destruct Hin as [<-|Hin].
      * exists maps_data. split; [exact Hcat|].
        intros Hnil. rewrite Hnil in Hrun. discriminate.
      * exact (IH _ _ _ _ _ _ _ Hrec Hin Hlt).
    + destruct (Hdone _ _ eq_refl) as (_ & maps_data & _ & _ & Ho1).
      simpl in Ho1. injection H as <- <- <- <-.
      rewrite Hq in Hin. destruct Hin as [<-|[]]. lia.
    + injection H as <- <- <- <-.
      rewrite Hq in Hin. destruct Hin as [<-|[]]. lia.
    + injection H as <- <- <- <-.
      rewrite Hq in Hin. destruct Hin as [<-|[]]. lia.
Qed.

(** C1: from a non-negative starting offset the run fetches the offsets
    [offset, offset + 1, ...] and no others: in strictly increasing order,
    none twice, none negative.  A pass moves the offset exactly 1 up when it
    fetched a page with items and all its batches completed, and leaves it
    alone otherwise; so every fetched offset below the final one had items,
    and the final offset is the starting one plus the number of such
    pages. *)
Theorem C1_offsets_strictly_increasing :
  forall (fuel : nat) (w : World) (save_path : string) (offset offset' : Z)
         (st st' : State) (c : completion unit) (evs : list Event),
    0 <= offset ->
    while_running fuel w save_path offset st = (offset', (c, st', evs)) ->
    queries evs = upfrom offset (length (queries evs))
    /\ StronglySorted Z.lt (queries evs)
    /\ List.NoDup (queries evs)
    /\ (forall o, In o (queries evs) -> 0 <= o)
    /\ (forall o st0 st1 o' running ev,
           loop_body w save_path o st0 = (Done (o', running), st1, ev) ->
           exists maps_data,
             catalog w o = QueryReturns maps_data
             /\ running = negb (length (beatmaps maps_data) =? 0)%nat
             /\ o' = if running then o + 1 else o)
    /\ (forall o, In o (queries evs) -> o < offset' ->
           exists maps_data,
             catalog w o = QueryReturns maps_data /\ beatmaps maps_data <> [])
    /\ offset' = offset + Z.of_nat (length (queries evs))
                 - match c with Pending => 0 | _ => 1 end.
Proof.
  intros fuel w save_path offset offset' st st' c evs Hnonneg H.
  destruct (while_running_queries _ _ _ _ _ _ _ _ _ H)
    as (n & Hq & _ & Hpend & Hret).
  rewrite Hq, upfrom_length.
  split; [reflexivity|]. split; [apply upfrom_sorted|].
  split; [apply upfrom_NoDup|]. split.
  { intros o Hin. pose proof (upfrom_lower _ _ _ Hin). lia. }
  split.
  { intros o st0 st1 o' running ev Hbody.
    destruct (loop_body_result _ _ _ _ _ _ _ Hbody) as (_ & _ & Hdone & _).
    destruct (Hdone _ _ eq_refl) as (_ & maps_data & Hrest).
    exists maps_data. exact Hrest. }
  split.
  { intros o Hin Hlt. rewrite <- Hq in Hin.
    exact (while_running_advances _ _ _ _ _ _ _ _ _ _ H Hin Hlt). }
  destruct c as [[]|e| |].
  - destruct (Hret ltac:(discriminate)) as [_ ->]. lia.
  - destruct (Hret ltac:(discriminate)) as [_ ->]. lia.
  - destruct (Hpend eq_refl) as [_ ->]. lia.
  - destruct (Hret ltac:(discriminate)) as [_ ->]. lia.
Qed.

Lemma C1_offsets_strictly_increasing_witness :
  queries (snd (snd (while_running 5 sample_world "./" 0 initial_state)))
  = [0; 1]
  /\ StronglySorted Z.lt [0; 1].
Proof.
  pose proof (C1_offsets_strictly_increasing 5 sample_world "./" 0
                (fst (while_running 5 sample_world "./" 0 initial_state))
                initial_state
                (snd (fst (snd (while_running 5 sample_world "./" 0 initial_state))))
                (fst (fst (snd (while_running 5 sample_world "./" 0 initial_state))))
                (snd (snd (while_running 5 sample_world "./" 0 initial_state)))
                ltac:(lia) ltac:(reflexivity)) as (Hq & Hsorted & _).
  split; [reflexivity|exact Hsorted].
Defined.

Lemma scheduler_unfold (fuel : nat) (w : World) (p : string) (offset : Z)
    (st : State) :
  scheduler fuel w p offset st =
  finally_return (fst (while_running fuel w p offset st))
    (except_KeyboardInterrupt (snd (while_running fuel w p offset st))
       interrupt_handler).
Proof.
  unfold scheduler. destruct (while_running fuel w p offset st) as [o r].
  reflexivity.
Qed.

(** How [main]'s [try] statement turns the way the loop was left into its
    own result. *)
Lemma scheduler_of_loop (fuel : nat) (w : World) (p : string)
    (offset offset' : Z) (st st' : State) (c : completion unit)
    (evs : list Event) :
  while_running fuel w p offset st = (offset', (c, st', evs)) ->
  scheduler fuel w p offset st =
  match c with
  | Pending => (Pending, st', evs)
  | Interrupted => (Interrupted, st', evs)
  | Raised KeyboardInterrupt =>
      (Done offset', st',
       evs ++ [EPrint MsgWaitClient; EAclose; EPrint MsgLoggingOut])
  | _ => (Done offset', st', evs)
  end.
Proof.
  intros H. rewrite scheduler_unfold, H. cbn [fst snd].
  destruct c as [[]|e| |]; [reflexivity| |reflexivity|reflexivity].
  destruct e; reflexivity.
Qed.


(** A pass is interrupted only while a batch is gathered. *)
Lemma for_batches_interrupted (w : World) (p : string) (offset : Z)
    (maps : list Beatmap) :
  forall (rs : list nat) (st st' : State) (evs : list Event),
    for_batches w p offset maps rs st = (Interrupted, st', evs) ->
    gathers evs <> [].
Proof.
  induction rs as [|r rs IH]; intros st st' evs H; [discriminate H|].
  cbn [for_batches] in H.
  destruct (bind_inv _ _ _ _ _ _ H)
    as [(a & st1 & ev1 & ev2 & Hm & Hk & ->)
       |[(e & _ & He)|[[_ He]|[Hm _]]]]; try discriminate He.
  - rewrite gathers_app. intros Hnil. apply app_eq_nil in Hnil as [_ Hnil].
    exact (IH _ _ _ Hk Hnil).
  - destruct (await_gather_result _ _ _ _ _ _ _ _ _ Hm) as (rest & -> & _).
    discriminate.
Qed.

Lemma loop_body_interrupted (w : World) (p : string) (offset : Z)
    (st st' : State) (evs : list Event) :
  loop_body w p offset st = (Interrupted, st', evs) -> gathers evs <> [].
Proof.
  rewrite loop_body_unfold.
  destruct (catalog w offset) as [e|maps_data]; [discriminate|].
  destruct (for_batches _ _ _ _ _ st) as [[c1 st1] ev1] eqn:Hfor.
  remember (pass_header offset maps_data) as header eqn:Hheader.
  clear Hheader.
  destruct c1 as [[]|e| |]; [destruct (negb _)| | |]; try discriminate.
  intros H. injection H as <- <-.
  rewrite gathers_app. intros Hnil. apply app_eq_nil in Hnil as [_ Hnil].
  exact (for_batches_interrupted _ _ _ _ _ _ _ _ Hfor Hnil).
Qed.


(** The loop is interrupted only while a batch is gathered. *)
Lemma while_running_interrupted (fuel : nat) (w : World) (p : string) :
  forall (offset offset' : Z) (st st' : State) (evs : list Event),
    while_running fuel w p offset st = (offset', (Interrupted, st', evs)) ->
    gathers evs <> [].
Proof.
  induction fuel as [|fuel IH]; intros offset offset' st st' evs H.
  - discriminate H.
  - cbn [while_running] in H.
    destruct (loop_body w p offset st) as [[c1 st1] ev1] eqn:Hbody.
    destruct c1 as [[o1 [|]]|e| |]; try discriminate H.
    + destruct (while_running fuel w p o1 st1) as [o2 [[c2 st2] ev2]] eqn:Hrec.
      injection H as <- -> <- <-.
      rewrite gathers_app. intros Hnil. apply app_eq_nil in Hnil as [_ Hnil].
      exact (IH _ _ _ _ _ Hrec Hnil).
    + injection H as <- <- <-.
      exact (loop_body_interrupted _ _ _ _ _ _ Hbody).
Qed.



(** C9: when a page the run fetches has no items, the loop ends normally
    right there: the local [offset] keeps the offset of that page, which is
    the last one fetched, the last thing done is the "no more maps" line, and
    [main]'s [try] statement returns that offset. *)
Theorem C9_empty_page_ends_run :
  forall (fuel : nat) (w : World) (save_path : string) (offset offset' : Z)
         (st st' : State) (c : completion unit) (evs : list Event)
         (o : Z) (maps_data : QueryMaps),
    while_running fuel w save_path offset st = (offset', (c, st', evs)) ->
    In o (queries evs) ->
    catalog w o = QueryReturns maps_data ->
    beatmaps maps_data = [] ->
    c = Done tt
    /\ offset' = o
    /\ last (queries evs) = Some o
    /\ last evs = Some (EPrint MsgNoMoreMaps)
    /\ scheduler fuel w save_path offset st = (Done o, st', evs).
Proof.
  intros fuel w save_path offset offset' st st' c evs o maps_data H Hin Hcat
         Hempty.
  destruct (while_running_empty_page _ _ _ _ _ _ _ _ _ _ _ H Hin Hcat Hempty)
    as (-> & -> & Hlast & Hend).
  repeat split; try assumption.
  exact (scheduler_of_loop _ _ _ _ _ _ _ _ _ H).
Qed.

Lemma C9_empty_page_ends_run_witness :
  fst (fst (snd (while_running 9 sample_world "./" 0 initial_state)))
  = Done tt
  /\ fst (while_running 9 sample_world "./" 0 initial_state) = 1.
Proof.
  pose proof (C9_empty_page_ends_run 9 sample_world "./" 0
                (fst (while_running 9 sample_world "./" 0 initial_state))
                initial_state
                (snd (fst (snd (while_running 9 sample_world "./" 0
                                  initial_state))))
                (fst (fst (snd (while_running 9 sample_world "./" 0
                                  initial_state))))
                (snd (snd (while_running 9 sample_world "./" 0 initial_state)))
                1 {| result_count := 0; beatmaps := [] |}
                ltac:(reflexivity) ltac:(right; left; reflexivity)
                ltac:(reflexivity) ltac:(reflexivity)) as (Hc & Ho & _).
  split; [exact Hc|exact Ho].
Defined.

Lemma transfer_events_start_nothing (evs : list Event) :
  forallb transfer_event evs = true ->
  existsb is_request evs = false
  /\ existsb is_gather evs = false
  /\ existsb is_query evs = false
  /\ queries evs = [].
Proof.
  induction evs as [|ev evs IH]; [repeat split|].
  simpl. intros H. apply andb_true_iff in H as [H1 H2].
  destruct (IH H2) as (Hr & Hg & Hq & Hqs).
  destruct ev; try discriminate; simpl; rewrite ?Hr, ?Hg, ?Hq, ?Hqs;
    repeat split.
Qed.

Lemma forallb_app_r (P : Event -> bool) (l1 l2 : list Event) :
  forallb P (l1 ++ l2) = true -> forallb P l2 = true.
Proof.
  rewrite forallb_app. intros H. apply andb_true_iff in H as [_ H]. exact H.
Qed.

(** C2, as amended: once a download of a batch has met a 429 (its "429 Too
    Many Requests" line is in the trace), the run is over.  The loop of
    [main] is left by an exception of a download, on the page it was
    working on, and [main] returns that page's offset, un-advanced -- or
    Ctrl-C arrives before the event loop gets back to [main], and nothing
    is returned.  After the line no request is sent, no batch is gathered
    and no page is fetched.  The other downloads of the batch are not
    aborted: nothing cancels them, and what follows the line is what they
    do in the wake-ups the event loop still serves before it stops, at most
    [linger] of them with at most three events each. *)
Theorem C2_rate_limit_ends_run_siblings_linger :
  forall (fuel : nat) (w : World) (save_path : string) (offset offset' : Z)
         (st st' : State) (c : completion unit) (evs pre post : list Event),
    while_running fuel w save_path offset st = (offset', (c, st', evs)) ->
    evs = pre ++ EPrint Msg429 :: post ->
    ((exists e,
         c = Raised e /\ download_failure e = true
         /\ scheduler fuel w save_path offset st = (Done offset', st', evs))
     \/ (c = Interrupted
         /\ scheduler fuel w save_path offset st = (Interrupted, st', evs)))
    /\ last (queries pre) = Some offset'
    /\ forallb transfer_event post = true
    /\ existsb is_request post = false
    /\ existsb is_gather post = false
    /\ existsb is_query post = false
    /\ exists r, (length post <= 3 * linger w offset' r)%nat.
Proof.
  intros fuel w save_path offset offset' st st' c evs pre post H Hsplit.
  destruct (split_at_429 _ _ _ Hsplit) as (post0 & mid & Hp0 & Hmid).
  destruct (while_running_429 _ _ _ _ _ _ _ _ _ _ H Hp0)
    as (Hc & Htr0 & r & Hlen0).
  subst post0.
  pose proof (forallb_app_r _ _ _ Htr0) as Htr.
  destruct (transfer_events_start_nothing _ Htr) as (Hr & Hg & Hq & Hqs).
  pose proof (scheduler_of_loop _ _ _ _ _ _ _ _ _ H) as Hs.
  split.
  { destruct Hc as [(e & -> & He)| ->].
    - left. exists e. split; [reflexivity|]. split; [exact He|].
      rewrite Hs. destruct e; try discriminate He; reflexivity.
    - right. split; [reflexivity|exact Hs]. }
  split.
  { destruct (while_running_queries _ _ _ _ _ _ _ _ _ H)
      as (n & Hqn & _ & _ & Hret).
    assert (Hnp : c <> Pending)
      by (destruct Hc as [(e & -> & _)| ->]; discriminate).
    destruct (Hret Hnp) as [Hn ->].
    rewrite Hsplit, queries_app in Hqn. cbn [queries] in Hqn.
    rewrite Hqs, app_nil_r in Hqn. rewrite Hqn.
    destruct n as [|n]; [lia|]. rewrite upfrom_last. f_equal. lia. }
  repeat split; try assumption.
  exists r. rewrite length_app in Hlen0. lia.
Qed.

Lemma C2_rate_limit_ends_run_siblings_linger_witness :
  scheduler 4 rate_limited_world "./" 0 initial_state
  = (Done 0, initial_state,
     snd (snd (while_running 4 rate_limited_world "./" 0 initial_state)))
  /\ existsb is_request
       (skipn 10
          (snd (snd (while_running 4 rate_limited_world "./" 0 initial_state))))
     = false.
Proof.
  pose proof (C2_rate_limit_ends_run_siblings_linger 4 rate_limited_world
                "./" 0 0
                initial_state initial_state (Raised RateLimited)
                (snd (snd (while_running 4 rate_limited_world "./" 0
                             initial_state)))
                (firstn 9
                   (snd (snd (while_running 4 rate_limited_world "./" 0
                                initial_state))))
                (skipn 10
                   (snd (snd (while_running 4 rate_limited_world "./" 0
                                initial_state))))
                ltac:(reflexivity) ltac:(reflexivity))
    as (Hs & _ & _ & _ & Hr & _).
  destruct Hs as [(e & _ & _ & Hs)|[Hi _]]; [|discriminate Hi].
  split; [exact Hs|exact Hr].
Defined.

(** C2, as stated, fails: the other downloads of the batch are not aborted.
    In [patient_world] the refusal of the second item is the first answer
    to arrive, when the requests for the first and the third are out and
    neither has received anything.  After the 429 line both of them go on:
    each opens its file, writes its two chunks, closes the file and is
    counted.  The gather ends with the exception and with the two other
    coroutines returned, and the tally is 2, all of it gained after the
    refusal. *)
Lemma C2_siblings_complete_after_429 :
  gather "./" (wake_order patient_world 0 0) (linger patient_world 0 0)
    (sigint patient_world 0 0)
    (coroutines patient_world 0 0 (List.map beatmap [101; 102; 103]))
    logged_in
  = (Raised RateLimited, [Returned; Failed RateLimited; Returned],
     counted (counted logged_in),
     [ERequest 101; ERequest 102; ERequest 103; EPrint Msg429;
      EOpen "./a.osz"; EAddTask "a.osz" 2;
      EOpen "./c.osz"; EAddTask "c.osz" 2;
      EWrite "./a.osz" [Byte.x4f]; EUpdate "a.osz" 1;
      EWrite "./c.osz" [Byte.x4f]; EUpdate "c.osz" 1;
      EWrite "./a.osz" [Byte.x53]; EUpdate "a.osz" 2;
      EWrite "./c.osz" [Byte.x53]; EUpdate "c.osz" 2;
      EClose "./a.osz"; EHide "a.osz"; EPrint (MsgDownloaded "a.osz");
      EClose "./c.osz"; EHide "c.osz"; EPrint (MsgDownloaded "c.osz")])
  /\ in_flight
       (fst (fst (start_all "./"
                    (coroutines patient_world 0 0
                       (List.map beatmap [101; 102; 103]))
                    logged_in)))
     = 3%nat
  /\ completions
       (firstn 8
          (snd (snd (while_running 4 patient_world "./" 0 logged_in))))
     = 0%nat
  /\ nth_error (snd (snd (while_running 4 patient_world "./" 0 logged_in))) 7
     = Some (EPrint Msg429)
  /\ completions
       (skipn 8 (snd (snd (while_running 4 patient_world "./" 0 logged_in))))
     = 2%nat
  /\ closes
       (skipn 8 (snd (snd (while_running 4 patient_world "./" 0 logged_in))))
     = 2%nat
  /\ downloaded_count
       (snd (fst (snd (while_running 4 patient_world "./" 0 logged_in))))
     = 2%nat
  /\ downloaded_count
       (snd (fst (script 4 patient_world NoArgument initial_state)))
     = 2%nat.
Proof. repeat split. Qed.

(** ** Worked examples *)

Example disposition_filename :
  PyStr.removesuffix disposition_suffix
    (PyStr.removeprefix disposition_prefix
       (disposition_prefix ++ "Artist - Title.osz" ++ disposition_suffix))
  = "Artist - Title.osz"%string.
Proof. reflexivity. Qed.

Example disposition_without_quotes :
  PyStr.removesuffix disposition_suffix
    (PyStr.removeprefix disposition_prefix "attachment; filename=a.osz")
  = "attachment; filename=a.osz"%string.
Proof. reflexivity. Qed.

Example range_of_seven : range 0 7 batch = [0; 3; 6]%nat.
Proof. reflexivity. Qed.

Example range_of_none : range 0 0 batch = [].
Proof. reflexivity. Qed.

(** A page of four items that all download: the offset becomes 1, the tally
    4, and the run goes on to fetch offset 1. *)
Example four_items_all_succeed :
  fst (fst (loop_body four_item_world "maps/" 0 initial_state))
  = Done (1, true)
  /\ downloaded_count
       (snd (fst (loop_body four_item_world "maps/" 0 initial_state)))
     = 4%nat
  /\ queries (snd (snd (while_running 2 four_item_world "maps/" 0
                          initial_state)))
     = [0; 1]
  /\ fst (fst (script 9 four_item_world NoArgument initial_state)) = Done tt
  /\ last (snd (script 9 four_item_world NoArgument initial_state))
     = Some (EPrint (MsgOffset 1)).
Proof. repeat split. Qed.

(** ** The partition of a page *)

Lemma groups_from (maps : list Beatmap) (step : nat) :
  (1 <= step)%nat ->
  forall fuel start : nat,
    (length maps - start <= fuel)%nat ->
    concat (List.map (fun r => slice r (r + step) maps)
              (range_from fuel start (length maps) step))
    = skipn start maps
    /\ List.Forall (fun g => (1 <= length g <= step)%nat)
         (List.map (fun r => slice r (r + step) maps)
            (range_from fuel start (length maps) step)).
Proof.
  intros Hstep. induction fuel as [|fuel IH]; intros start Hfuel.
  - simpl. split; [|constructor].
    symmetry. apply skipn_all2. lia.
  - cbn [range_from]. destruct (start <? length maps)%nat eqn:Hlt.
    + apply Nat.ltb_lt in Hlt.
      destruct (IH (start + step)%nat ltac:(lia)) as [Hcat Hall].
      cbn [List.map concat]. rewrite Hcat. unfold slice.
      replace (start + step - start)%nat with step by lia.
      split.
      * replace (start + step)%nat with (step + start)%nat by lia.
        rewrite <- skipn_skipn. apply firstn_skipn.
      * constructor; [|exact Hall].
        rewrite length_firstn, length_skipn. lia.
    + apply Nat.ltb_ge in Hlt. simpl. split; [|constructor].
      symmetry. apply skipn_all2. lia.
Qed.

(** The batch loop cuts a page into consecutive groups of one to three
    items that together are the page. *)
Lemma groups_partition (maps : list Beatmap) :
  concat (groups maps) = maps
  /\ List.Forall (fun g => (1 <= length g <= batch)%nat) (groups maps).
Proof.
  unfold groups, range.
  destruct (groups_from maps batch ltac:(unfold batch; lia)
              (length maps - 0) 0%nat ltac:(lia)) as [Hcat Hall].
  split; [exact Hcat|exact Hall].
Qed.

(** ** Batches *)

Lemma transfer_events_no_gather (evs : list Event) :
  forallb transfer_event evs = true -> gathers evs = [].
Proof.
  induction evs as [|ev evs IH]; [reflexivity|].
  simpl. intros H. apply andb_true_iff in H as [H1 H2].
  destruct ev; try discriminate; simpl; auto.
Qed.

Lemma pass_header_gathers (offset : Z) (maps_data : QueryMaps) :
  gathers (pass_header offset maps_data) = [].
Proof. unfold pass_header. destruct (0 <? _); reflexivity. Qed.














(** ** Items that are gone *)

Lemma resume_gone (p : string) (t : Task) (st : State) :
  gone t = true -> resume p t st = (Returned, st, []).
Proof.
  destruct t as [setid reply|[|response]|filename received rest| |e];
    simpl; try discriminate; [|reflexivity].
  intros H. apply Z.eqb_eq in H. rewrite H. reflexivity.
Qed.

Lemma resume_n_gone (n : nat) (p : string) (t : Task) (st : State) :
  gone t = true ->
  exists t', resume_n n p t st = (t', st, []) /\ gone t' = true.
Proof.
  intros Hg. destruct n as [|n].
  - exists t. split; [reflexivity|exact Hg].
  - exists Returned. simpl. rewrite (resume_gone _ _ _ Hg).
    rewrite resume_n_finished by reflexivity. split; reflexivity.
Qed.

Lemma finish_in_order_gone (p : string) (st : State) (ts : list Task) :
  forallb gone ts = true ->
  exists ts', finish_in_order p ts st = (Done tt, ts', st, []).
Proof.
  induction ts as [|t ts IH]; intros H; [exists []; reflexivity|].
  simpl in H. apply andb_true_iff in H as [Ht Hts].
  destruct (IH Hts) as (ts' & Hrec).
  destruct (resume_n_gone (steps_left t) p t st Ht) as (t' & Hrun & Ht').
  cbn [finish_in_order]. unfold run_to_end. rewrite Hrun, Hrec.
  exists (t' :: ts'). destruct t' as [? ?|[|?]|? ? ?| |?]; try discriminate;
    reflexivity.
Qed.

Lemma served_None (sig : option nat) : sig = None -> served sig = None.
Proof. intros ->. reflexivity. Qed.

Lemma drive_gone (p : string) (lng : nat) (st : State) (sched : list nat) :
  forall (sig : option nat) (ts : list Task),
    forallb gone ts = true ->
    exists c ts',
      drive p lng sig sched ts st = (c, ts', st, [])
      /\ (c = Done tt \/ c = Interrupted)
      /\ (sig = None -> c = Done tt).
Proof.
  induction sched as [|i sched IH]; intros sig ts H.
  - destruct (finish_in_order_gone p st ts H) as (ts' & Hf).
    exists (Done tt), ts'. split; [exact Hf|]. split; [left|]; reflexivity.
  - cbn [drive]. destruct (ts !! i) as [t|] eqn:Hi; [|exact (IH sig ts H)].
    destruct (is_finished t); [exact (IH sig ts H)|].
    destruct (strikes sig) eqn:Hstrike.
    { exists Interrupted, ts. split; [reflexivity|].
      split; [right; reflexivity|]. intros ->. discriminate Hstrike. }
    rewrite (resume_gone _ _ _ (forallb_lookup _ _ _ _ H Hi)).
    destruct (IH (served sig) (<[i:=Returned]> ts)
                (forallb_insert gone ts i Returned H eq_refl))
      as (c & ts' & -> & Hc & Hnone).
    exists c, ts'. split; [reflexivity|]. split; [exact Hc|].
    intros Hsig. exact (Hnone (served_None _ Hsig)).
Qed.

Lemma awaiting_gone (group : list Beatmap) :
  forall reply_of : nat -> Reply,
    (forall j, (j < length group)%nat ->
       exists response,
         reply_of j = Answers response /\ status_code response = 404) ->
    forallb gone
      (imap (fun j (_ : Beatmap) => AwaitingResponse (reply_of j)) group) = true.
Proof.
  induction group as [|m group IH]; intros reply_of H; [reflexivity|].
  cbn [imap forallb]. apply andb_true_iff. split.
  - destruct (H 0%nat ltac:(simpl; lia)) as (response & -> & Hs).
    simpl. rewrite Hs. reflexivity.
  - apply (IH (reply_of ∘ S)). intros j Hj.
    exact (H (S j) ltac:(simpl; lia)).
Qed.

Lemma await_gather_gone (w : World) (p : string) (offset : Z) (r : nat)
    (group : list Beatmap) (st : State) :
  all_not_found w offset r group ->
  exists c,
    await_gather w p offset r group st
    = (c, st,
       EGather (List.map beatmapset_id group)
       :: List.map (fun map => ERequest (beatmapset_id map)) group)
    /\ (c = Done tt \/ c = Interrupted)
    /\ (sigint w offset r = None -> c = Done tt).
Proof.
  intros H. unfold await_gather, bind, emit, gather, coroutines.
  rewrite start_all_coroutines.
  destruct (drive_gone p (linger w offset r) st (wake_order w offset r)
              (sigint w offset r) _ (awaiting_gone group _ H))
    as (c & ts' & -> & Hc & Hnone).
  exists c. split; [|split; assumption].
  destruct Hc as [-> | ->]; cbn; rewrite app_nil_r; reflexivity.
Qed.

Lemma run_to_end_gone (p : string) (setid : Z) (response : Response)
    (st : State) :
  status_code response = 404 ->
  run_to_end p (Created setid (Answers response)) st
  = (Returned, st, [ERequest setid]).
Proof.
  intros H. unfold run_to_end.
  cbn [steps_left steps_after_request Nat.add].
  rewrite resume_n_S. cbn [resume]. rewrite resume_n_S.
  rewrite resume_gone by (simpl; rewrite H; reflexivity).
  rewrite resume_n_finished by reflexivity. reflexivity.
Qed.

Lemma download_map_gone (p : string) (setid : Z) (response : Response)
    (st : State) :
  status_code response = 404 ->
  download_map p setid (Answers response) st = (Done tt, st, [ERequest setid]).
Proof.
  intros H. unfold download_map.
  rewrite (run_to_end_gone _ _ _ _ H). reflexivity.
Qed.

(** C6: when the answer to an item's download request is a 404, the
    resumption that reads the status ends the coroutine by a plain return,
    with no event and the globals -- the tally among them -- untouched.  Run
    on its own, [download_map] sends its request and returns: in the words of
    the design, a [Skipped] outcome, not an error.  A batch in which every
    item is gone is gathered without an exception and leaves the tally as it
    was, whatever the order of arrival: the gather completes, and does so
    whenever no Ctrl-C arrives while [main] waits for it; a Ctrl-C then is
    the one thing that can stop it, and it stops the event loop. *)
Theorem C6_not_found_is_skipped :
  forall (save_path : string) (setid : Z) (response : Response) (st : State),
    status_code response = 404 ->
    resume save_path (AwaitingResponse (Answers response)) st
    = (Returned, st, [])
    /\ download_map save_path setid (Answers response) st
       = (Done tt, st, [ERequest setid])
    /\ download_outcome (download_map save_path setid (Answers response) st)
       = Some Skipped
    /\ (forall (w : World) (offset : Z) (r : nat) (group : list Beatmap),
           all_not_found w offset r group ->
           exists c,
             await_gather w save_path offset r group st
             = (c, st,
                EGather (List.map beatmapset_id group)
                :: List.map (fun map => ERequest (beatmapset_id map)) group)
             /\ (c = Done tt \/ c = Interrupted)
             /\ (sigint w offset r = None -> c = Done tt)).
Proof.
  intros save_path setid response st H.
  split; [apply resume_gone; simpl; rewrite H; reflexivity|].
  split; [exact (download_map_gone _ _ _ _ H)|].
  split; [rewrite (download_map_gone _ _ _ _ H); reflexivity|].
  intros w offset r group Hall. exact (await_gather_gone _ _ _ _ _ _ Hall).
Qed.

Lemma C6_not_found_is_skipped_witness :
  download_map "./" 102 (Answers (bare_status 404)) initial_state
  = (Done tt, initial_state, [ERequest 102])
  /\ await_gather deleted_world "./" 0 0 (List.map beatmap [101; 102; 103])
       initial_state
     = (Done tt, initial_state,
        [EGather [101; 102; 103]; ERequest 101; ERequest 102; ERequest 103]).
Proof.
  destruct (C6_not_found_is_skipped "./" 102 (bare_status 404) initial_state
              ltac:(reflexivity)) as (_ & Halone & _ & Hbatch).
  split; [exact Halone|].
  destruct (Hbatch deleted_world 0 0%nat (List.map beatmap [101; 102; 103]))
    as (c & Hgather & _ & Hdone).
  - intros j _. exists (bare_status 404). split; reflexivity.
  - rewrite Hgather, (Hdone eq_refl). reflexivity.
Defined.

(** C10: when the answer to an item's download request is a 404, the
    coroutine never reaches the point where its file is open: however many
    times it is resumed, it has emitted no [open], [write] or [close], has
    left the globals alone, and is not streaming; resumed to its end it has
    done nothing but send its request. *)
Theorem C10_not_found_opens_no_file :
  forall (save_path : string) (setid : Z) (response : Response) (st : State),
    status_code response = 404 ->
    (forall (n : nat) (t : Task) (st' : State) (evs : list Event),
        resume_n n save_path (Created setid (Answers response)) st
        = (t, st', evs) ->
        existsb is_file_event evs = false
        /\ st' = st
        /\ forall filename received rest, t <> Streaming filename received rest)
    /\ run_to_end save_path (Created setid (Answers response)) st
       = (Returned, st, [ERequest setid]).
Proof.
  intros save_path setid response st H. split.
  - intros [|n] t st' evs Hrun.
    + injection Hrun as <- <- <-. repeat split. discriminate.
    + cbn [resume_n resume] in Hrun.
      assert (Hg : gone (AwaitingResponse (Answers response)) = true)
        by (simpl; rewrite H; reflexivity).
      destruct (resume_n_gone n save_path _ st Hg) as (t' & Hn & Ht').
      rewrite Hn in Hrun. injection Hrun as <- <- <-.
      repeat split. intros filename received rest ->. discriminate.
  - exact (run_to_end_gone _ _ _ _ H).
Qed.

Lemma C10_not_found_opens_no_file_witness :
  run_to_end "./" (Created 102 (Answers (bare_status 404))) initial_state
  = (Returned, initial_state, [ERequest 102]).
Proof.
  exact (proj2 (C10_not_found_opens_no_file "./" 102 (bare_status 404)
                  initial_state ltac:(reflexivity))).
Defined.

(** ** Login *)

Lemma script_failed_login (fuel : nat) (w : World) (arg : cli_arg) :
  is_error (session_status (session_reply w)) = true ->
  (forall text, arg <> ArgumentNotInt text) ->
  script fuel w arg initial_state
  = (Raised SystemExit, initial_state,
     arg_echo arg ++ login_attempt w ++ [EPrint MsgLoginFailed]).
Proof.
  intros Herr Harg.
  unfold script, except_Exception, main, login, input, bind, emit, ret, raise.
  rewrite Herr.
  destruct arg as [|text n|text]; [reflexivity|reflexivity|].
  destruct (Harg text eq_refl).
Qed.

(** C7, as amended: when the login [POST] is answered with a 4xx or 5xx
    status (and the argument, if any, is a number, so that [login] is
    reached), [exit()] ends the process right after the login-failure line.
    The tally is 0, no page has been fetched and no download requested, and
    the script's closing lines -- the tally and the offset -- are not
    printed. *)
Theorem C7_failed_login_exits_at_once :
  forall (fuel : nat) (w : World) (arg : cli_arg),
    is_error (session_status (session_reply w)) = true ->
    (forall text, arg <> ArgumentNotInt text) ->
    script fuel w arg initial_state
    = (Raised SystemExit, initial_state,
       arg_echo arg ++ login_attempt w ++ [EPrint MsgLoginFailed])
    /\ downloaded_count (snd (fst (script fuel w arg initial_state))) = 0%nat
    /\ existsb is_query (snd (script fuel w arg initial_state)) = false
    /\ existsb is_request (snd (script fuel w arg initial_state)) = false
    /\ existsb is_offset_report (snd (script fuel w arg initial_state)) = false.
Proof.
  intros fuel w arg Herr Harg.
  rewrite (script_failed_login fuel w arg Herr Harg).
  split; [reflexivity|]. split; [reflexivity|].
  destruct arg; repeat split.
Qed.

Lemma C7_failed_login_exits_at_once_witness :
  script 4 (login_world 401) (ArgumentInt "7" 7) initial_state
  = (Raised SystemExit, initial_state,
     arg_echo (ArgumentInt "7" 7) ++ login_attempt (login_world 401)
     ++ [EPrint MsgLoginFailed]).
Proof.
  apply (C7_failed_login_exits_at_once 4 (login_world 401) (ArgumentInt "7" 7)).
  - reflexivity.
  - discriminate.
Defined.

(** C7, as stated, fails.  With no argument (input offset 0) and a 401 to
    the login, the run ends on [SystemExit] with no offset printed at all.
    And a 302, which is not a 2xx either, does not stop the run: downloads
    are requested and completed. *)
Lemma C7_failed_login_prints_no_offset :
  (is_success 401 = false
   /\ script 4 (login_world 401) NoArgument initial_state
      = (Raised SystemExit, initial_state,
         login_attempt (login_world 401) ++ [EPrint MsgLoginFailed])
   /\ ~ In (EPrint (MsgOffset 0))
          (snd (script 4 (login_world 401) NoArgument initial_state)))
  /\ (is_success 302 = false
      /\ existsb is_request
           (snd (script 4 (login_world 302) NoArgument initial_state)) = true
      /\ downloaded_count
           (snd (fst (script 4 (login_world 302) NoArgument initial_state)))
         = 4%nat).
Proof.
  split; [|repeat split].
  split; [reflexivity|]. split; [reflexivity|].
  cbn. intros H. repeat destruct H as [H|H]; try discriminate H. exact H.
Qed.

(** ** Interrupts *)

Lemma batch_events_no_logout (evs : list Event) :
  forallb batch_event evs = true -> existsb is_logout evs = false.
Proof.
  induction evs as [|ev evs IH]; [reflexivity|].
  simpl. intros H. apply andb_true_iff in H as [H1 H2].
  destruct ev; try discriminate; simpl; auto.
Qed.

Lemma loop_body_no_logout (w : World) (p : string) (offset : Z)
    (st st' : State) (c : completion (Z * bool)) (evs : list Event) :
  loop_body w p offset st = (c, st', evs) -> existsb is_logout evs = false.
Proof.
  rewrite loop_body_unfold.
  destruct (catalog w offset) as [e|maps_data].
  { intros H. injection H as <- <- <-. reflexivity. }
  destruct (for_batches _ _ _ _ _ st) as [[c1 st1] ev1] eqn:Hfor.
  destruct (for_batches_result _ _ _ _ _ _ _ _ _ Hfor) as (Hev & _).
  pose proof (batch_events_no_logout _ Hev) as Hno.
  assert (Hh : existsb is_logout (pass_header offset maps_data) = false)
    by (unfold pass_header; destruct (0 <? _); reflexivity).
  remember (pass_header offset maps_data) as header eqn:Hheader.
  clear Hheader.
  destruct c1 as [[]|e| |]; [destruct (negb _)| | |];
    intros H; injection H as <- <- <-;
    rewrite ?existsb_app, Hh, Hno; reflexivity.
Qed.

Lemma while_running_no_logout (fuel : nat) (w : World) (p : string) :
  forall (offset offset' : Z) (st st' : State) (c : completion unit)
         (evs : list Event),
    while_running fuel w p offset st = (offset', (c, st', evs)) ->
    existsb is_logout evs = false.
Proof.
  induction fuel as [|fuel IH]; intros offset offset' st st' c evs H.
  - injection H as <- <- <- <-. reflexivity.
  - cbn [while_running] in H.
    destruct (loop_body w p offset st) as [[c1 st1] ev1] eqn:Hbody.
    pose proof (loop_body_no_logout _ _ _ _ _ _ _ Hbody) as H1.
    destruct c1 as [[o1 [|]]|e| |];
      try (injection H as <- <- <- <-; exact H1).
    destruct (while_running fuel w p o1 st1) as [o2 [[c2 st2] ev2]] eqn:Hrec.
    injection H as <- <- <- <-.
    rewrite existsb_app, H1, (IH _ _ _ _ _ _ Hrec). reflexivity.
Qed.

(** [main]'s [try] statement never sends the logout request, whatever
    happens in it. *)
Lemma scheduler_never_logs_out (fuel : nat) (w : World) (p : string)
    (offset : Z) (st st' : State) (c : completion Z) (evs : list Event) :
  scheduler fuel w p offset st = (c, st', evs) ->
  existsb is_logout evs = false.
Proof.
  destruct (while_running fuel w p offset st) as [o [[c1 st1] ev1]] eqn:Hloop.
  rewrite (scheduler_of_loop _ _ _ _ _ _ _ _ _ Hloop).
  pose proof (while_running_no_logout _ _ _ _ _ _ _ _ _ Hloop) as Hno.
  destruct c1 as [[]|e| |]; [| destruct e| |];
    intros H; injection H as <- <- <-;
    rewrite ?existsb_app, Hno; reflexivity.
Qed.

(** C8, on the code: Ctrl-C during the first catalog fetch of a logged-in
    run.  [main] prints its two lines and closes the client, then calls
    [console.logout()], which raises [AttributeError]; [finally] swallows it
    and returns offset 0.  The script prints tally and offset and ends.  No
    [DELETE /session] is ever sent, although the cookies are still there. *)
Theorem C8_interrupt_skips_logout :
  interrupt_handler logged_in
  = (Raised (AttributeError "logout"), logged_in,
     [EPrint MsgWaitClient; EAclose; EPrint MsgLoggingOut])
  /\ scheduler 4 interrupted_world "./" 0 logged_in
     = (Done 0, logged_in,
        [EPrint MsgFetching; EQuery 0;
         EPrint MsgWaitClient; EAclose; EPrint MsgLoggingOut])
  /\ script 4 interrupted_world NoArgument initial_state
     = (Done tt, logged_in,
        login_attempt interrupted_world
        ++ [EPrint (MsgLoginOk "peppy" 2); EPrint MsgStarting;
            EPrint MsgFetching; EQuery 0;
            EPrint MsgWaitClient; EAclose; EPrint MsgLoggingOut;
            EPrint (MsgTally 0); EPrint (MsgOffset 0)])
  /\ existsb is_logout
       (snd (script 4 interrupted_world NoArgument initial_state)) = false
  /\ truthy (cookies logged_in) = true.
Proof. repeat split. Qed.

(** C3, on the code: Ctrl-C while the first batch is downloading.  [main]
    is suspended in [asyncio.gather]; the [KeyboardInterrupt] is raised in
    the event loop, [main] is never resumed, and neither its
    [except KeyboardInterrupt] nor its [finally: return offset] runs:
    nothing is returned.  [run_until_complete] raises the interrupt, the
    [except Exception] of the script lets it pass, and the script dies
    without printing the tally or the offset.  Ctrl-C during the catalog
    fetch, on the other hand, is caught by [main], which returns the
    offset. *)
Theorem C3_interrupt_in_gather_returns_nothing :
  scheduler 4 ctrl_c_world "./" 0 logged_in
  = (Interrupted, logged_in,
     [EPrint MsgFetching; EQuery 0; EPrint (MsgFound 5);
      EGather [101; 102; 103];
      ERequest 101; ERequest 102; ERequest 103;
      EOpen "./My_File_1_.osz"; EAddTask "My_File_1_.osz" 2])
  /\ main 4 ctrl_c_world NoArgument initial_state
     = (Interrupted, logged_in,
        login_attempt ctrl_c_world
        ++ [EPrint (MsgLoginOk "peppy" 2); EPrint MsgStarting;
            EPrint MsgFetching; EQuery 0; EPrint (MsgFound 5);
            EGather [101; 102; 103];
            ERequest 101; ERequest 102; ERequest 103;
            EOpen "./My_File_1_.osz"; EAddTask "My_File_1_.osz" 2])
  /\ script 4 ctrl_c_world NoArgument initial_state
     = (Raised KeyboardInterrupt, logged_in,
        login_attempt ctrl_c_world
        ++ [EPrint (MsgLoginOk "peppy" 2); EPrint MsgStarting;
            EPrint MsgFetching; EQuery 0; EPrint (MsgFound 5);
            EGather [101; 102; 103];
            ERequest 101; ERequest 102; ERequest 103;
            EOpen "./My_File_1_.osz"; EAddTask "My_File_1_.osz" 2])
  /\ existsb is_offset_report
       (snd (script 4 ctrl_c_world NoArgument initial_state)) = false
  /\ tallies (snd (script 4 ctrl_c_world NoArgument initial_state)) = []
  /\ scheduler 4 interrupted_world "./" 0 logged_in
     = (Done 0, logged_in,
        [EPrint MsgFetching; EQuery 0;
         EPrint MsgWaitClient; EAclose; EPrint MsgLoggingOut]).
Proof. repeat split. Qed.

(** * Further properties *)

(** ** Python strings *)

Lemma startswith_app (p s : string) : PyStr.startswith p (p ++ s) = true.
Proof.
  induction p as [|c p IH]; [reflexivity|].
  simpl. rewrite Ascii.eqb_refl. exact IH.
Qed.

Lemma drop_app (p s : string) : PyStr.drop (String.length p) (p ++ s) = s.
Proof. induction p as [|c p IH]; [reflexivity|exact IH]. Qed.

Lemma take_app (s p : string) : PyStr.take (String.length s) (s ++ p) = s.
Proof.
  induction s as [|c s IH]; [reflexivity|].
  simpl. rewrite IH. reflexivity.
Qed.

Lemma length_append (s p : string) :
  String.length (s ++ p) = (String.length s + String.length p)%nat.
Proof. induction s as [|c s IH]; [reflexivity|]. simpl. rewrite IH. reflexivity. Qed.

Lemma removeprefix_app (p s : string) : PyStr.removeprefix p (p ++ s) = s.
Proof. unfold PyStr.removeprefix. rewrite startswith_app. apply drop_app. Qed.

Lemma removesuffix_app (p s : string) : PyStr.removesuffix p (s ++ p) = s.
Proof.
  unfold PyStr.removesuffix, PyStr.endswith.
  destruct p as [|c p].
  { simpl. clear. induction s as [|c s IH]; [reflexivity|].
    simpl. rewrite IH. reflexivity. }
  rewrite length_append.
  replace (String.length s + String.length (String c p)
           - String.length (String c p))%nat
    with (String.length s) by lia.
  rewrite drop_app, String.eqb_refl, take_app.
  replace (String.length (String c p) <=? String.length s
                                          + String.length (String c p))%nat
    with true by (symmetry; apply Nat.leb_le; lia).
  reflexivity.
Qed.

(** ** More on filename sanitization *)

Lemma sanitize_char_fixed (c : ascii) :
  sanitize_char c = c <-> is_reserved c = false.
Proof.
  destruct c as [[] [] [] [] [] [] [] []];
    split; intros H; first [reflexivity | discriminate H].
Qed.

Lemma fixedfilename_clean (s : string) : clean (fixedfilename s) = true.
Proof.
  unfold clean. rewrite fixedfilename_map.
  induction s as [|c s IH]; [reflexivity|].
  cbn [PyStr.map list_ascii_of_string existsb].
  rewrite sanitize_char_safe. exact IH.
Qed.

(** X1: the names [fixedfilename] leaves as they are are exactly the names
    without a reserved character. *)
Theorem X1_fixedfilename_fixed_points :
  forall filename : string,
    fixedfilename filename = filename <-> clean filename = true.
Proof.
  intros filename. unfold clean. rewrite fixedfilename_map.
  induction filename as [|c s IH]; [split; reflexivity|].
  cbn [PyStr.map list_ascii_of_string existsb]. split.
  - intros H. injection H as Hc Hs.
    apply sanitize_char_fixed in Hc. rewrite Hc. exact (proj1 IH Hs).
  - intros H. apply negb_true_iff in H. apply orb_false_iff in H as [Hc Hs].
    apply sanitize_char_fixed in Hc. rewrite Hc. f_equal.
    apply IH. rewrite Hs. reflexivity.
Qed.

(** X2: sanitizing works character by character: it keeps the length of the
    name, the sanitized concatenation is the concatenation of the sanitized
    parts, and the character at each position is the sanitized character of
    that position. *)
Theorem X2_fixedfilename_characterwise :
  (forall filename : string,
      String.length (fixedfilename filename) = String.length filename)
  /\ (forall a b : string,
         fixedfilename (a ++ b) = (fixedfilename a ++ fixedfilename b)%string)
  /\ (forall (filename : string) (n : nat),
         String.get n (fixedfilename filename)
         = option_map sanitize_char (String.get n filename)).
Proof.
  split; [|split].
  - intros filename. rewrite fixedfilename_map.
    induction filename as [|c s IH]; [reflexivity|]. simpl. rewrite IH.
    reflexivity.
  - intros a b. rewrite !fixedfilename_map.
    induction a as [|c a IH]; [reflexivity|]. simpl. rewrite IH. reflexivity.
  - intros filename. rewrite fixedfilename_map.
    induction filename as [|c s IH]; intros n; [reflexivity|].
    destruct n as [|n]; [reflexivity|]. simpl. apply IH.
Qed.

(** X3: the file name is recovered from a well-formed header: for every
    name, stripping [attachment;filename="] and [";] from the header built
    around it gives the name back, whatever characters it contains.  The
    download then tries to open [save_path] followed by the sanitized name:
    when [open] raises, the coroutine fails with that error and has opened
    nothing; otherwise it registers the progress task and starts to stream
    into that file. *)
Theorem X3_disposition_round_trip :
  forall name : string,
    disposition_name (disposition_prefix ++ name ++ disposition_suffix) = name
    /\ forall (save_path : string) (response : Response) (total : Z)
              (st : State),
         downloadable response = true ->
         content_length response = HeaderInt total ->
         content_disposition response
         = Some (disposition_prefix ++ name ++ disposition_suffix)%string ->
         resume save_path (AwaitingResponse (Answers response)) st
         = if open_fails response
           then (Failed OSError, st, [])
           else (Streaming (fixedfilename name) 0 (body response), st,
                 [EOpen (save_path ++ fixedfilename name)%string;
                  EAddTask (fixedfilename name) total]).
Proof.
  intros name.
  assert (Hname : disposition_name
                    (disposition_prefix ++ name ++ disposition_suffix) = name).
  { unfold disposition_name. rewrite removeprefix_app. apply removesuffix_app. }
  split; [exact Hname|].
  intros save_path response total st Hd Hlen Hdisp.
  unfold downloadable in Hd.
  apply andb_true_iff in Hd as [Hd _]. apply andb_true_iff in Hd as [Hd _].
  apply andb_true_iff in Hd as [H429 H404].
  apply negb_true_iff in H429. apply negb_true_iff in H404.
  cbn [resume]. rewrite H429, H404, Hlen, Hdisp.
  fold (disposition_name (disposition_prefix ++ name ++ disposition_suffix)).
  rewrite Hname. reflexivity.
Qed.

Lemma X3_disposition_round_trip_witness :
  resume "maps/" (AwaitingResponse (attachment "a/b?.osz" two_chunks))
    initial_state
  = (Streaming "a_b_.osz" 0 (intact two_chunks), initial_state,
     [EOpen "maps/a_b_.osz"; EAddTask "a_b_.osz" 2]).
Proof.
  apply (proj2 (X3_disposition_round_trip "a/b?.osz") "maps/"%string
           {| status_code := 200; content_length := HeaderInt 2;
              content_disposition :=
                Some (disposition_prefix ++ "a/b?.osz" ++ disposition_suffix)%string;
              open_fails := false;
              body := intact two_chunks |} 2 initial_state);
    reflexivity.
Defined.

(** ** A download on its own *)

(** The write [download_map] makes of a chunk. *)
Lemma streaming_run (p filename : string) (rounds : list Chunk) :
  forall (rest : Stream) (received : Z) (st : State),
    chunks rest = rounds ->
    stored rest = true ->
    exists evs,
      resume_n (1 + length rounds) p (Streaming filename received rest) st
      = (Returned, counted st, evs)
      /\ List.filter is_file_event evs
         = List.map (fun chunk => EWrite (p ++ filename)%string (data chunk))
             rounds
           ++ [EClose (p ++ filename)%string]
      /\ requests evs = []
      /\ updates evs = running_totals received rounds
      /\ completions evs = 1%nat.
Proof.
  induction rounds as [|chunk rounds IH]; intros rest received st Hc Hs;
    unfold stored in Hs; rewrite Hc in Hs;
    apply andb_true_iff in Hs as [Hs Hclose];
    apply andb_true_iff in Hs as [Hw Hbreak];
    apply negb_true_iff in Hclose; apply negb_true_iff in Hbreak.
  - eexists. split.
    + cbn [Nat.add length resume_n resume]. rewrite Hc, Hbreak, Hclose.
      reflexivity.
    + repeat split.
  - cbn [forallb] in Hw. apply andb_true_iff in Hw as [Hw1 Hw].
    apply negb_true_iff in Hw1.
    destruct (IH {| chunks := rounds;
                    breaks_off := breaks_off rest;
                    close_fails := close_fails rest |}
                (received + raw chunk) st eq_refl)
      as (evs & Hrun & Hfiles & Hreq & Hupd & Hdone).
    { unfold stored. cbn [chunks breaks_off close_fails].
      rewrite Hw, Hbreak, Hclose. reflexivity. }
    eexists. split.
    + change (1 + length (chunk :: rounds))%nat with (S (1 + length rounds)).
      rewrite resume_n_S. cbn [resume]. rewrite Hc, Hw1, Hrun. reflexivity.
    + cbn [app List.filter is_file_event requests updates completions
             List.map running_totals].
      rewrite Hfiles, Hreq, Hupd, Hdone. repeat split.
Qed.

(** A body that is not stored: the stream ends in an exception, after some
    of its chunks have been written. *)
Lemma streaming_fails (p filename : string) (rounds : list Chunk) :
  forall (rest : Stream) (received : Z) (st : State),
    chunks rest = rounds ->
    stored rest = false ->
    exists e k evs,
      resume_n (1 + length rounds) p (Streaming filename received rest) st
      = (Failed e, st, evs)
      /\ (e = OSError \/ e = TransportError)
      /\ (k <= length rounds)%nat
      /\ List.filter is_file_event evs
         = List.map (fun chunk => EWrite (p ++ filename)%string (data chunk))
             (firstn k rounds)
      /\ requests evs = []
      /\ completions evs = 0%nat.
Proof.
  induction rounds as [|chunk rounds IH]; intros rest received st Hc Hs.
  - unfold stored in Hs. rewrite Hc in Hs. cbn [forallb andb] in Hs.
    cbn [Nat.add length resume_n resume]. rewrite Hc.
    destruct (breaks_off rest).
    { exists TransportError, 0%nat. eexists.
      split; [reflexivity|]. repeat split; auto. }
    destruct (close_fails rest); [|discriminate Hs].
    exists OSError, 0%nat. eexists. split; [reflexivity|]. repeat split; auto.
  - change (1 + length (chunk :: rounds))%nat with (S (1 + length rounds)).
    rewrite resume_n_S. cbn [resume]. rewrite Hc.
    destruct (write_fails chunk) eqn:Hw.
    { rewrite resume_n_finished by reflexivity.
      exists OSError, 0%nat. eexists. split; [reflexivity|].
      repeat split; auto. simpl; lia. }
    destruct (IH {| chunks := rounds;
                    breaks_off := breaks_off rest;
                    close_fails := close_fails rest |}
                (received + raw chunk) st eq_refl)
      as (e & k & evs & Hrun & He & Hk & Hfiles & Hreq & Hdone).
    { unfold stored in Hs |- *. rewrite Hc in Hs.
      cbn [forallb chunks breaks_off close_fails] in Hs |- *.
      rewrite Hw in Hs. exact Hs. }
    exists e, (S k). eexists. split; [rewrite Hrun; reflexivity|].
    split; [exact He|]. split; [simpl; lia|].
    cbn [app List.filter is_file_event requests completions firstn List.map].
    rewrite Hfiles, Hreq, Hdone. repeat split.
Qed.

(** X4: [download_map] on a response it downloads (not a 429, not a 404,
    both headers present) whose file the disk stores ([open], every
    [write] and [close] succeed, and the body arrives whole), with nothing
    interleaved: it returns normally and counts exactly one download.  It
    sends one request; the only file it touches is [save_path] followed by
    the sanitized name, which it opens once, writes the chunks of the body
    to, in order and unchanged, and closes; and the byte counts it reports
    are the values [response.num_bytes_downloaded] takes, the running
    totals of the raw bytes read, not of the chunk lengths. *)
Theorem X4_download_streams_body_to_file :
  forall (save_path : string) (setid : Z) (response : Response) (total : Z)
         (value : string) (st : State),
    downloadable response = true ->
    storable response = true ->
    content_length response = HeaderInt total ->
    content_disposition response = Some value ->
    exists evs,
      download_map save_path setid (Answers response) st
      = (Done tt, counted st, evs)
      /\ List.filter is_file_event evs
         = EOpen (save_path ++ fixedfilename (disposition_name value))%string
           :: List.map
                (fun chunk =>
                   EWrite
                     (save_path ++ fixedfilename (disposition_name value))%string
                     (data chunk))
                (chunks (body response))
           ++ [EClose (save_path ++ fixedfilename (disposition_name value))%string]
      /\ requests evs = [setid]
      /\ updates evs = running_totals 0 (chunks (body response))
      /\ completions evs = 1%nat.
Proof.
  intros save_path setid response total value st Hd Hs Hlen Hdisp.
  unfold downloadable in Hd.
  apply andb_true_iff in Hd as [Hd _]. apply andb_true_iff in Hd as [Hd _].
  apply andb_true_iff in Hd as [H429 H404].
  apply negb_true_iff in H429. apply negb_true_iff in H404.
  unfold storable in Hs. apply andb_true_iff in Hs as [Hopen Hs].
  apply negb_true_iff in Hopen.
  destruct (streaming_run save_path (fixedfilename (disposition_name value))
              (chunks (body response)) (body response) 0 st eq_refl Hs)
    as (evs & Hrun & Hfiles & Hreq & Hupd & Hdone).
  eexists. split.
  - unfold download_map, run_to_end.
    cbn [steps_left steps_after_request].
    change (1 + (2 + length (chunks (body response))))%nat
      with (S (S (1 + length (chunks (body response))))).
    rewrite resume_n_S. cbn [resume]. rewrite resume_n_S. cbn [resume].
    rewrite H429, H404, Hlen, Hdisp, Hopen.
    fold (disposition_name value). rewrite Hrun. reflexivity.
  - cbn [app List.filter is_file_event requests updates completions].
    rewrite Hfiles, Hreq, Hupd, Hdone. repeat split.
Qed.

Lemma X4_download_streams_body_to_file_witness :
  exists evs,
    download_map "./" 101 (attachment "My:File<1>.osz" two_chunks)
      initial_state
    = (Done tt, counted initial_state, evs)
    /\ List.filter is_file_event evs
       = [EOpen "./My_File_1_.osz";
          EWrite "./My_File_1_.osz" [Byte.x4f];
          EWrite "./My_File_1_.osz" [Byte.x53];
          EClose "./My_File_1_.osz"]
    /\ requests evs = [101]
    /\ updates evs = [1; 2]
    /\ completions evs = 1%nat.
Proof.
  apply (X4_download_streams_body_to_file "./" 101
           {| status_code := 200; content_length := HeaderInt 2;
              content_disposition :=
                Some (disposition_prefix ++ "My:File<1>.osz"
                      ++ disposition_suffix)%string;
              open_fails := false;
              body := intact two_chunks |} 2
           (disposition_prefix ++ "My:File<1>.osz" ++ disposition_suffix)%string
           initial_state);
    reflexivity.
Defined.

(** X15: [download_map] on a response it downloads whose file the disk
    does not store -- [open], a [write] or [close] raises, or the connection
    breaks before the body is complete -- with nothing interleaved: it
    raises [OSError] or the transport error, and the download is not
    counted and not reported complete.  When [open] raises no file is
    touched; otherwise the file is opened, some first chunks of the body
    are written to it in order, and it is never closed. *)
Theorem X15_unstored_download_is_not_counted :
  forall (save_path : string) (setid : Z) (response : Response) (total : Z)
         (value : string) (st : State),
    downloadable response = true ->
    storable response = false ->
    content_length response = HeaderInt total ->
    content_disposition response = Some value ->
    exists e evs,
      download_map save_path setid (Answers response) st = (Raised e, st, evs)
      /\ (e = OSError \/ e = TransportError)
      /\ requests evs = [setid]
      /\ completions evs = 0%nat
      /\ closes evs = 0%nat
      /\ if open_fails response
         then e = OSError /\ List.filter is_file_event evs = []
         else exists k,
             (k <= length (chunks (body response)))%nat
             /\ List.filter is_file_event evs
                = EOpen
                    (save_path ++ fixedfilename (disposition_name value))%string
                  :: List.map
                       (fun chunk =>
                          EWrite
                            (save_path
                             ++ fixedfilename (disposition_name value))%string
                            (data chunk))
                       (firstn k (chunks (body response))).
Proof.
  intros save_path setid response total value st Hd Hs Hlen Hdisp.
  unfold downloadable in Hd.
  apply andb_true_iff in Hd as [Hd _]. apply andb_true_iff in Hd as [Hd _].
  apply andb_true_iff in Hd as [H429 H404].
  apply negb_true_iff in H429. apply negb_true_iff in H404.
  unfold download_map, run_to_end.
  cbn [steps_left steps_after_request].
  change (1 + (2 + length (chunks (body response))))%nat
    with (S (S (1 + length (chunks (body response))))).
  rewrite resume_n_S. cbn [resume]. rewrite resume_n_S. cbn [resume].
  rewrite H429, H404, Hlen, Hdisp. fold (disposition_name value).
  unfold storable in Hs.
  destruct (open_fails response).
  - rewrite resume_n_finished by reflexivity.
    exists OSError. eexists. split; [reflexivity|]. repeat split; auto.
  - cbn [negb andb] in Hs.
    destruct (streaming_fails save_path
                (fixedfilename (disposition_name value))
                (chunks (body response)) (body response) 0 st eq_refl Hs)
      as (e & k & evs & Hrun & He & Hk & Hfiles & Hreq & Hdone).
    rewrite Hrun. exists e. eexists. split; [reflexivity|].
    split; [exact He|].
    cbn [app requests completions closes List.filter is_file_event].
    rewrite Hreq, Hdone.
    split; [reflexivity|]. split; [reflexivity|].
    split.
    + assert (Hcl : forall l : list Event,
                 closes l = closes (List.filter is_file_event l)).
      { induction l as [|ev l IHl]; [reflexivity|].
        destruct ev; cbn; rewrite <- ?IHl; reflexivity. }
      rewrite Hcl, Hfiles. clear.
      induction (firstn k (chunks (body response))) as [|c l IHl];
        [reflexivity|exact IHl].
    + exists k. split; [exact Hk|]. rewrite Hfiles. reflexivity.
Qed.

Lemma X15_unstored_download_is_not_counted_witness :
  exists e evs,
    download_map "./" 101
      (Answers {| status_code := 200; content_length := HeaderInt 2;
                  content_disposition :=
                    Some (disposition_prefix ++ disposition_suffix)%string;
                  open_fails := true;
                  body := intact two_chunks |})
      initial_state
    = (Raised e, initial_state, evs)
    /\ e = OSError
    /\ List.filter is_file_event evs = [].
Proof.
  destruct (X15_unstored_download_is_not_counted "./" 101
              {| status_code := 200; content_length := HeaderInt 2;
                 content_disposition :=
                   Some (disposition_prefix ++ disposition_suffix)%string;
                 open_fails := true;
                 body := intact two_chunks |} 2
              (disposition_prefix ++ disposition_suffix)%string
              initial_state
              ltac:(reflexivity) ltac:(reflexivity) ltac:(reflexivity)
              ltac:(reflexivity))
    as (e & evs & Hrun & _ & _ & _ & _ & Hopen).
  exists e, evs. split; [exact Hrun|]. exact Hopen.
Defined.

(** X5: a response that is neither a 429 nor a 404 but lacks a header makes
    [download_map] raise -- [KeyError] for a missing [Content-Length],
    [ValueError] for one that is no number, and [KeyError] for a missing
    [Content-Disposition] only when [Content-Length] is fine.  It raises
    before opening anything: however often the coroutine is resumed it has
    emitted no file event, is not streaming, and has left the tally and the
    cookies alone. *)
Theorem X5_missing_header_fails_before_open :
  forall (save_path : string) (setid : Z) (response : Response) (st : State),
    status_code response <> 429 ->
    status_code response <> 404 ->
    downloadable response = false ->
    download_map save_path setid (Answers response) st
    = (Raised (header_failure response), st, [ERequest setid])
    /\ forall (n : nat) (t : Task) (st' : State) (evs : list Event),
        resume_n n save_path (Created setid (Answers response)) st
        = (t, st', evs) ->
        existsb is_file_event evs = false
        /\ st' = st
        /\ forall filename received rest,
            t <> Streaming filename received rest.
Proof.
  intros save_path setid response st H429 H404 Hd.
  apply Z.eqb_neq in H429. apply Z.eqb_neq in H404.
  assert (Hstep : resume save_path (AwaitingResponse (Answers response)) st
                  = (Failed (header_failure response), st, [])).
  { unfold downloadable in Hd. rewrite H429, H404 in Hd. cbn [negb andb] in Hd.
    cbn [resume]. rewrite H429, H404. unfold header_failure.
    destruct (content_length response); try reflexivity.
    destruct (content_disposition response); [discriminate Hd|reflexivity]. }
  split.
  - unfold download_map, run_to_end.
    cbn [steps_left steps_after_request].
    change (1 + (2 + length (chunks (body response))))%nat
      with (S (S (1 + length (chunks (body response))))).
    rewrite resume_n_S. cbn [resume]. rewrite resume_n_S.
    fold (resume save_path (AwaitingResponse (Answers response)) st).
    rewrite Hstep, resume_n_finished by reflexivity. reflexivity.
  - intros [|[|n]] t st' evs Hrun.
    + injection Hrun as <- <- <-. repeat split. discriminate.
    + cbn in Hrun. injection Hrun as <- <- <-. repeat split. discriminate.
    + rewrite resume_n_S in Hrun. cbn [resume] in Hrun.
      rewrite resume_n_S in Hrun.
      fold (resume save_path (AwaitingResponse (Answers response)) st) in Hrun.
      rewrite Hstep, resume_n_finished in Hrun by reflexivity.
      injection Hrun as <- <- <-. repeat split. discriminate.
Qed.

Lemma X5_missing_header_fails_before_open_witness :
  download_map "./" 7 (Answers (bare_status 500)) initial_state
  = (Raised (KeyError "Content-Length"), initial_state, [ERequest 7]).
Proof.
  apply (X5_missing_header_fails_before_open "./" 7 (bare_status 500)
           initial_state); [discriminate|discriminate|reflexivity].
Defined.

(** ** What the pipeline keeps *)

Lemma completions_app (l1 l2 : list Event) :
  completions (l1 ++ l2) = (completions l1 + completions l2)%nat.
Proof.
  induction l1 as [|ev l1 IH]; [reflexivity|].
  destruct ev as [m| | | | | | | | | | | | | |]; simpl; try exact IH.
  destruct m; simpl; rewrite ?IH; reflexivity.
Qed.

Lemma closes_app (l1 l2 : list Event) :
  closes (l1 ++ l2) = (closes l1 + closes l2)%nat.
Proof.
  induction l1 as [|ev l1 IH]; [reflexivity|].
  destruct ev; simpl; rewrite ?IH; reflexivity.
Qed.

Lemma requests_app (l1 l2 : list Event) :
  requests (l1 ++ l2) = requests l1 ++ requests l2.
Proof.
  induction l1 as [|ev l1 IH]; [reflexivity|].
  destruct ev; simpl; rewrite ?IH; reflexivity.
Qed.

Lemma kept_nil (p : string) (st : State) : kept p st st [].
Proof. unfold kept. simpl. repeat split. lia. Qed.

Lemma kept_app (p : string) (st st1 st2 : State) (ev1 ev2 : list Event) :
  kept p st st1 ev1 -> kept p st1 st2 ev2 -> kept p st st2 (ev1 ++ ev2).
Proof.
  intros (Hs1 & Hc1 & Hd1 & He1) (Hs2 & Hc2 & Hd2 & He2). unfold kept.
  rewrite forallb_app, Hs1, Hs2, completions_app, closes_app.
  repeat split; [congruence|lia|lia].
Qed.

Lemma inside_app (p filename : string) :
  clean filename = true -> inside p (p ++ filename) = true.
Proof.
  intros H. unfold inside. rewrite startswith_app, drop_app, H. reflexivity.
Qed.

Lemma resume_kept (p : string) (t t' : Task) (st st' : State)
    (ev : list Event) :
  safe_task t = true -> resume p t st = (t', st', ev) ->
  safe_task t' = true /\ kept p st st' ev.
Proof.
  intros Hsafe H. unfold kept.
  assert (Hquiet : forall t0,
             safe_task t0 = true ->
             safe_task t0 = true
             /\ forallb (safe_event p) [] = true
             /\ cookies st = cookies st
             /\ downloaded_count st
                = (downloaded_count st + completions [])%nat
             /\ completions [] = closes []).
  { intros t0 H0. simpl. repeat split; [exact H0|lia]. }
  destruct t as [setid reply|[|response]|filename received rest| |e];
    cbn [resume] in H.
  - injection H as <- <- <-. simpl. repeat split. lia.
  - injection H as <- <- <-. apply Hquiet; reflexivity.
  - destruct (status_code response =? 429);
      [injection H as <- <- <-; simpl; repeat split; lia|].
    destruct (status_code response =? 404);
      [injection H as <- <- <-; apply Hquiet; reflexivity|].
    destruct (content_length response);
      try (injection H as <- <- <-; apply Hquiet; reflexivity).
    destruct (content_disposition response);
      [|injection H as <- <- <-; apply Hquiet; reflexivity].
    destruct (open_fails response);
      [injection H as <- <- <-; apply Hquiet; reflexivity|].
    injection H as <- <- <-.
    cbn [safe_task forallb safe_event completions closes cookies].
    rewrite (inside_app p _ (fixedfilename_clean _)), fixedfilename_clean.
    repeat split. lia.
  - destruct (chunks rest) as [|chunk more].
    + destruct (breaks_off rest);
        [injection H as <- <- <-; apply Hquiet; reflexivity|].
      destruct (close_fails rest);
        [injection H as <- <- <-; apply Hquiet; reflexivity|].
      injection H as <- <- <-.
      cbn [safe_task forallb safe_event completions closes cookies
             downloaded_count] in *.
      rewrite (inside_app p _ Hsafe). repeat split. lia.
    + destruct (write_fails chunk);
        [injection H as <- <- <-; apply Hquiet; reflexivity|].
      injection H as <- <- <-.
      cbn [safe_task forallb safe_event completions closes cookies] in *.
      rewrite (inside_app p _ Hsafe), Hsafe. repeat split. lia.
  - injection H as <- <- <-. apply Hquiet; reflexivity.
  - injection H as <- <- <-. apply Hquiet; reflexivity.
Qed.

Lemma resume_n_kept (n : nat) (p : string) :
  forall (t t' : Task) (st st' : State) (evs : list Event),
    safe_task t = true -> resume_n n p t st = (t', st', evs) ->
    safe_task t' = true /\ kept p st st' evs.
Proof.
  induction n as [|n IH]; intros t t' st st' evs Hsafe H.
  - injection H as <- <- <-. split; [exact Hsafe|apply kept_nil].
  - rewrite resume_n_S in H.
    destruct (resume p t st) as [[t1 st1] ev1] eqn:H1.
    destruct (resume_n n p t1 st1) as [[t2 st2] ev2] eqn:H2.
    injection H as <- <- <-.
    destruct (resume_kept _ _ _ _ _ _ Hsafe H1) as [Hs1 Hk1].
    destruct (IH _ _ _ _ _ Hs1 H2) as [Hs2 Hk2].
    split; [exact Hs2|exact (kept_app _ _ _ _ _ _ Hk1 Hk2)].
Qed.

Lemma start_all_kept (p : string) :
  forall (ts ts' : list Task) (st st' : State) (evs : list Event),
    forallb safe_task ts = true -> start_all p ts st = (ts', st', evs) ->
    forallb safe_task ts' = true /\ kept p st st' evs.
Proof.
  induction ts as [|t ts IH]; intros ts' st st' evs Hsafe H.
  - injection H as <- <- <-. split; [reflexivity|apply kept_nil].
  - cbn [forallb] in Hsafe. apply andb_true_iff in Hsafe as [Ht Hts].
    cbn [start_all] in H.
    destruct (resume p t st) as [[t1 st1] ev1] eqn:H1.
    destruct (start_all p ts st1) as [[ts2 st2] ev2] eqn:H2.
    injection H as <- <- <-.
    destruct (resume_kept _ _ _ _ _ _ Ht H1) as [Hs1 Hk1].
    destruct (IH _ _ _ _ Hts H2) as [Hs2 Hk2].
    split; [cbn [forallb]; rewrite Hs1, Hs2; reflexivity|].
    exact (kept_app _ _ _ _ _ _ Hk1 Hk2).
Qed.

Lemma linger_on_kept (p : string) (n : nat) :
  forall (sig : option nat) (sched : list nat) (ts ts' : list Task)
         (st st' : State) (hit : bool) (evs : list Event),
    forallb safe_task ts = true ->
    linger_on p n sig sched ts st = (hit, ts', st', evs) ->
    kept p st st' evs.
Proof.
  induction n as [|n IH]; intros sig sched ts ts' st st' hit evs Hsafe H.
  - injection H as <- <- <- <-. apply kept_nil.
  - destruct sched as [|i sched].
    { injection H as <- <- <- <-. apply kept_nil. }
    cbn [linger_on] in H. destruct (ts !! i) as [t|] eqn:Hi.
    + destruct (is_finished t); [exact (IH _ _ _ _ _ _ _ _ Hsafe H)|].
      destruct (strikes sig); [injection H as <- <- <- <-; apply kept_nil|].
      destruct (resume p t st) as [[t1 st1] ev1] eqn:H1.
      destruct (linger_on p n (served sig) sched (<[i:=t1]> ts) st1)
        as [[[hit2 ts2] st2] ev2] eqn:H2.
      injection H as <- <- <- <-.
      destruct (resume_kept _ _ _ _ _ _ (forallb_lookup _ _ _ _ Hsafe Hi) H1)
        as [Hs1 Hk1].
      exact (kept_app _ _ _ _ _ _ Hk1
               (IH _ _ _ _ _ _ _ _ (forallb_insert _ _ i _ Hsafe Hs1) H2)).
    + exact (IH _ _ _ _ _ _ _ _ Hsafe H).
Qed.

Lemma finish_in_order_kept (p : string) :
  forall (ts ts' : list Task) (c : completion unit) (st st' : State)
         (evs : list Event),
    forallb safe_task ts = true ->
    finish_in_order p ts st = (c, ts', st', evs) ->
    kept p st st' evs.
Proof.
  induction ts as [|t ts IH]; intros ts' c st st' evs Hsafe H.
  - injection H as <- <- <- <-. apply kept_nil.
  - cbn [forallb] in Hsafe. apply andb_true_iff in Hsafe as [Ht Hts].
    cbn [finish_in_order] in H.
    destruct (run_to_end p t st) as [[t1 st1] ev1] eqn:H1.
    destruct (resume_n_kept _ _ _ _ _ _ _ Ht H1) as [_ Hk1].
    destruct (finish_in_order p ts st1) as [[[c2 ts2] st2] ev2] eqn:H2.
    pose proof (IH _ _ _ _ _ Hts H2) as Hk2.
    destruct t1; injection H as <- <- <- <-;
      first [exact (kept_app _ _ _ _ _ _ Hk1 Hk2) | exact Hk1].
Qed.

Lemma drive_kept (p : string) (lng : nat) :
  forall (sched : list nat) (sig : option nat) (ts ts' : list Task)
         (c : completion unit) (st st' : State) (evs : list Event),
    forallb safe_task ts = true ->
    drive p lng sig sched ts st = (c, ts', st', evs) ->
    kept p st st' evs.
Proof.
  induction sched as [|i sched IH]; intros sig ts ts' c st st' evs Hsafe H.
  - exact (finish_in_order_kept _ _ _ _ _ _ _ Hsafe H).
  - cbn [drive] in H.
    destruct (ts !! i) as [t|] eqn:Hi; [|exact (IH _ _ _ _ _ _ _ Hsafe H)].
    destruct (is_finished t); [exact (IH _ _ _ _ _ _ _ Hsafe H)|].
    destruct (strikes sig); [injection H as <- <- <- <-; apply kept_nil|].
    destruct (resume p t st) as [[t1 st1] ev1] eqn:H1.
    destruct (resume_kept _ _ _ _ _ _ (forallb_lookup _ _ _ _ Hsafe Hi) H1)
      as [Hs1 Hk1].
    pose proof (forallb_insert _ _ i _ Hsafe Hs1) as Hsafe1.
    destruct (linger_on p lng (served sig) sched (<[i:=t1]> ts) st1)
      as [[[hit tsl] stl] evl] eqn:Hl.
    pose proof (linger_on_kept _ _ _ _ _ _ _ _ _ _ Hsafe1 Hl) as Hkl.
    destruct (drive p lng (served sig) sched (<[i:=t1]> ts) st1)
      as [[[c2 ts2] st2] ev2] eqn:H2.
    pose proof (IH _ _ _ _ _ _ _ Hsafe1 H2) as Hk2.
    destruct t1; injection H as <- <- <- <-;
      first [exact (kept_app _ _ _ _ _ _ Hk1 Hk2)
            | exact (kept_app _ _ _ _ _ _ Hk1 Hkl)].
Qed.

Lemma created_safe (group : list Beatmap) :
  forall reply_of : nat -> Reply,
    forallb safe_task
      (imap (fun j map => Created (beatmapset_id map) (reply_of j)) group)
    = true.
Proof.
  induction group as [|m group IH]; intros reply_of; [reflexivity|].
  cbn [imap forallb safe_task andb]. exact (IH (reply_of ∘ S)).
Qed.

Lemma coroutines_safe (w : World) (offset : Z) (group : list Beatmap)
    (r : nat) :
  forallb safe_task (coroutines w offset r group) = true.
Proof.
  exact (created_safe group (fun j => download_reply w offset (r + j))).
Qed.

Lemma await_gather_kept (w : World) (p : string) (offset : Z) (r : nat)
    (group : list Beatmap) (st st' : State) (c : completion unit)
    (evs : list Event) :
  await_gather w p offset r group st = (c, st', evs) -> kept p st st' evs.
Proof.
  unfold await_gather, bind, emit, gather.
  destruct (start_all p (coroutines w offset r group) st)
    as [[ts0 st0] ev0] eqn:H0.
  destruct (start_all_kept _ _ _ _ _ _ (coroutines_safe w offset group r) H0)
    as [Hs0 Hk0].
  destruct (drive _ _ _ _ _ _) as [[[c1 ts1] st1] ev1] eqn:H1.
  pose proof (drive_kept _ _ _ _ _ _ _ _ _ _ Hs0 H1) as Hk1.
  pose proof (kept_app _ _ _ _ _ _ Hk0 Hk1) as Hk.
  assert (Hg : kept p st st1
                 ([EGather (List.map beatmapset_id group)] ++ ev0 ++ ev1)).
  { refine (kept_app p st st st1 _ _ _ Hk). unfold kept. simpl.
    repeat split. lia. }
  intros H. destruct c1; injection H as <- <- <-; exact Hg.
Qed.

Lemma for_batches_kept (w : World) (p : string) (offset : Z)
    (maps : list Beatmap) :
  forall (rs : list nat) (st st' : State) (c : completion unit)
         (evs : list Event),
    for_batches w p offset maps rs st = (c, st', evs) -> kept p st st' evs.
Proof.
  induction rs as [|r rs IH]; intros st st' c evs H.
  - injection H as <- <- <-. apply kept_nil.
  - cbn [for_batches] in H.
    destruct (bind_inv _ _ _ _ _ _ H)
      as [(a & st1 & ev1 & ev2 & Hm & Hk & ->)
         |[(e & Hm & ->)|[[Hm ->]|[Hm ->]]]].
    + exact (kept_app _ _ _ _ _ _ (await_gather_kept _ _ _ _ _ _ _ _ _ Hm)
               (IH _ _ _ _ Hk)).
    + exact (await_gather_kept _ _ _ _ _ _ _ _ _ Hm).
    + exact (await_gather_kept _ _ _ _ _ _ _ _ _ Hm).
    + exact (await_gather_kept _ _ _ _ _ _ _ _ _ Hm).
Qed.

Lemma kept_quiet (p : string) (st : State) (evs : list Event) :
  forallb (fun ev => negb (is_file_event ev)) evs = true ->
  completions evs = 0%nat ->
  kept p st st evs.
Proof.
  intros Hq Hc. unfold kept. rewrite Hc. repeat split; [|lia|].
  - clear Hc. induction evs as [|ev evs IH]; [reflexivity|].
    cbn [forallb] in *. apply andb_true_iff in Hq as [H1 H2].
    rewrite (IH H2), andb_true_r. destruct ev; try discriminate; reflexivity.
  - clear Hc. induction evs as [|ev evs IH]; [reflexivity|].
    cbn [forallb] in Hq. apply andb_true_iff in Hq as [H1 H2].
    destruct ev; try discriminate; simpl; auto.
Qed.

Lemma loop_body_kept (w : World) (p : string) (offset : Z) (st st' : State)
    (c : completion (Z * bool)) (evs : list Event) :
  loop_body w p offset st = (c, st', evs) -> kept p st st' evs.
Proof.
  rewrite loop_body_unfold.
  destruct (catalog w offset) as [e|maps_data].
  { intros H. injection H as <- <- <-. apply kept_quiet; reflexivity. }
  destruct (for_batches _ _ _ _ _ st) as [[c1 st1] ev1] eqn:Hfor.
  pose proof (for_batches_kept _ _ _ _ _ _ _ _ _ Hfor) as Hk.
  assert (Hh : kept p st st (pass_header offset maps_data))
    by (apply kept_quiet; unfold pass_header; destruct (0 <? _); reflexivity).
  remember (pass_header offset maps_data) as header eqn:Hheader.
  clear Hheader.
  pose proof (kept_app _ _ _ _ _ _ Hh Hk) as Hhk.
  destruct c1 as [[]|e| |]; [destruct (negb _)| | |];
    intros H; injection H as <- <- <-; try exact Hhk.
  rewrite app_assoc. refine (kept_app _ _ _ _ _ _ Hhk _).
  apply kept_quiet; reflexivity.
Qed.

Lemma while_running_kept (fuel : nat) (w : World) (p : string) :
  forall (offset offset' : Z) (st st' : State) (c : completion unit)
         (evs : list Event),
    while_running fuel w p offset st = (offset', (c, st', evs)) ->
    kept p st st' evs.
Proof.
  induction fuel as [|fuel IH]; intros offset offset' st st' c evs H.
  - injection H as <- <- <- <-. apply kept_nil.
  - cbn [while_running] in H.
    destruct (loop_body w p offset st) as [[c1 st1] ev1] eqn:Hbody.
    pose proof (loop_body_kept _ _ _ _ _ _ _ Hbody) as H1.
    destruct c1 as [[o1 [|]]|e| |];
      try (injection H as <- <- <- <-; exact H1).
    destruct (while_running fuel w p o1 st1) as [o2 [[c2 st2] ev2]] eqn:Hrec.
    injection H as <- <- <- <-.
    exact (kept_app _ _ _ _ _ _ H1 (IH _ _ _ _ _ _ Hrec)).
Qed.

Lemma scheduler_kept (fuel : nat) (w : World) (p : string) (offset : Z)
    (st st' : State) (c : completion Z) (evs : list Event) :
  scheduler fuel w p offset st = (c, st', evs) -> kept p st st' evs.
Proof.
  destruct (while_running fuel w p offset st) as [o [[c1 st1] ev1]] eqn:Hloop.
  rewrite (scheduler_of_loop _ _ _ _ _ _ _ _ _ Hloop).
  pose proof (while_running_kept _ _ _ _ _ _ _ _ _ Hloop) as Hk.
  destruct c1 as [[]|e| |]; [| destruct e| |];
    intros H; injection H as <- <- <-; try exact Hk.
  refine (kept_app _ _ _ _ _ _ Hk _). apply kept_quiet; reflexivity.
Qed.

(** ** The alphabet of the scheduler *)

Lemma batch_is_scheduler_event (evs : list Event) :
  forallb batch_event evs = true -> forallb scheduler_event evs = true.
Proof.
  induction evs as [|ev evs IH]; [reflexivity|].
  cbn [forallb]. intros H. apply andb_true_iff in H as [H1 H2].
  unfold scheduler_event at 1. rewrite H1, (IH H2). reflexivity.
Qed.

Lemma loop_body_alphabet (w : World) (p : string) (offset : Z)
    (st st' : State) (c : completion (Z * bool)) (evs : list Event) :
  loop_body w p offset st = (c, st', evs) ->
  forallb scheduler_event evs = true.
Proof.
  rewrite loop_body_unfold.
  destruct (catalog w offset) as [e|maps_data].
  { intros H. injection H as <- <- <-. reflexivity. }
  destruct (for_batches _ _ _ _ _ st) as [[c1 st1] ev1] eqn:Hfor.
  destruct (for_batches_result _ _ _ _ _ _ _ _ _ Hfor) as (Hev & _).
  pose proof (batch_is_scheduler_event _ Hev) as Hs.
  assert (Hh : forallb scheduler_event (pass_header offset maps_data) = true)
    by (unfold pass_header; destruct (0 <? _); reflexivity).
  remember (pass_header offset maps_data) as header eqn:Hheader.
  clear Hheader.
  destruct c1 as [[]|e| |]; [destruct (negb _)| | |];
    intros H; injection H as <- <- <-;
    rewrite ?forallb_app, Hh, Hs; reflexivity.
Qed.

Lemma while_running_alphabet (fuel : nat) (w : World) (p : string) :
  forall (offset offset' : Z) (st st' : State) (c : completion unit)
         (evs : list Event),
    while_running fuel w p offset st = (offset', (c, st', evs)) ->
    forallb scheduler_event evs = true.
Proof.
  induction fuel as [|fuel IH]; intros offset offset' st st' c evs H.
  - injection H as <- <- <- <-. reflexivity.
  - cbn [while_running] in H.
    destruct (loop_body w p offset st) as [[c1 st1] ev1] eqn:Hbody.
    pose proof (loop_body_alphabet _ _ _ _ _ _ _ Hbody) as H1.
    destruct c1 as [[o1 [|]]|e| |];
      try (injection H as <- <- <- <-; exact H1).
    destruct (while_running fuel w p o1 st1) as [o2 [[c2 st2] ev2]] eqn:Hrec.
    injection H as <- <- <- <-.
    rewrite forallb_app, H1, (IH _ _ _ _ _ _ Hrec). reflexivity.
Qed.

Lemma scheduler_alphabet (fuel : nat) (w : World) (p : string) (offset : Z)
    (st st' : State) (c : completion Z) (evs : list Event) :
  scheduler fuel w p offset st = (c, st', evs) ->
  forallb scheduler_event evs = true.
Proof.
  destruct (while_running fuel w p offset st) as [o [[c1 st1] ev1]] eqn:Hloop.
  rewrite (scheduler_of_loop _ _ _ _ _ _ _ _ _ Hloop).
  pose proof (while_running_alphabet _ _ _ _ _ _ _ _ _ Hloop) as Ha.
  destruct c1 as [[]|e| |]; [| destruct e| |];
    intros H; injection H as <- <- <-;
    rewrite ?forallb_app, Ha; reflexivity.
Qed.

Lemma tallies_app (l1 l2 : list Event) :
  tallies (l1 ++ l2) = tallies l1 ++ tallies l2.
Proof.
  induction l1 as [|ev l1 IH]; [reflexivity|].
  destruct ev as [m| | | | | | | | | | | | | |]; simpl; try exact IH.
  destruct m; simpl; rewrite ?IH; reflexivity.
Qed.


Lemma logouts_app (l1 l2 : list Event) :
  logouts (l1 ++ l2) = (logouts l1 + logouts l2)%nat.
Proof.
  induction l1 as [|ev l1 IH]; [reflexivity|].
  destruct ev; simpl; rewrite ?IH; reflexivity.
Qed.

(** What the alphabet excludes. *)
Lemma scheduler_events_exclude (evs : list Event) :
  forallb scheduler_event evs = true ->
  logouts evs = 0%nat /\ offset_reports evs = [] /\ tallies evs = [].
Proof.
  induction evs as [|ev evs IH]; [repeat split|].
  cbn [forallb]. intros H. apply andb_true_iff in H as [H1 H2].
  destruct (IH H2) as (Hl & Ho & Ht).
  destruct ev as [m| | | | | | | | | | | | | |]; try discriminate H1;
    try (repeat split; assumption).
  destruct m; try discriminate H1; repeat split; assumption.
Qed.

(** [main]'s [try] statement returns an offset, is still running, or was
    interrupted while a batch was gathered. *)
Lemma scheduler_outcome (fuel : nat) (w : World) (p : string) (offset : Z)
    (st st' : State) (c : completion Z) (evs : list Event) :
  scheduler fuel w p offset st = (c, st', evs) ->
  c = Pending
  \/ (c = Interrupted /\ gathers evs <> [])
  \/ exists o, c = Done o /\ last (queries evs) = Some o.
Proof.
  destruct (while_running fuel w p offset st) as [o [[c1 st1] ev1]] eqn:Hloop.
  rewrite (scheduler_of_loop _ _ _ _ _ _ _ _ _ Hloop).
  destruct (while_running_queries _ _ _ _ _ _ _ _ _ Hloop)
    as (n & Hq & _ & _ & Hret).
  assert (Hlast : c1 <> Pending -> last (queries ev1) = Some o).
  { intros Hc. destruct (Hret Hc) as [Hn ->]. rewrite Hq.
    destruct n as [|n]; [lia|]. rewrite upfrom_last. f_equal. lia. }
  pose proof (fun Hc : c1 = Interrupted =>
                while_running_interrupted fuel w p offset o st st1 ev1
                  (eq_ind _ (fun x => while_running fuel w p offset st
                                      = (o, (x, st1, ev1))) Hloop _ Hc))
    as Hint.
  destruct c1 as [[]|e| |]; [| destruct e| |];
    intros H; injection H as <- <- <-;
    first [left; reflexivity
          | right; left; split; [reflexivity|exact (Hint eq_refl)]
          | right; right; exists o; split; [reflexivity|];
            rewrite ?queries_app; cbn [queries]; rewrite ?app_nil_r;
            apply Hlast; discriminate].
Qed.

(** ** The script, case by case *)

Lemma script_early_end (fuel : nat) (w : World) (arg : cli_arg)
    (how : EarlyEnd) :
  early_end_of w arg = Some how ->
  script fuel w arg initial_state = early_end w arg how.
Proof.
  unfold early_end_of, script, except_Exception, run_until_complete, main,
    login, input, bind, emit, ret, raise, gets, set_cookies, logout.
  destruct arg as [|text n|text]; cbn [input_offset].
  - destruct (is_error _); [intros H; injection H as <-; reflexivity|].
    destruct (session_body (session_reply w)) as [|key|name id] eqn:Hbody;
      [| |discriminate];
      intros H; injection H as <-; unfold early_end, after_login;
      rewrite Hbody; cbn;
      destruct (session_cookies (session_reply w)); reflexivity.
  - destruct (is_error _); [intros H; injection H as <-; reflexivity|].
    destruct (session_body (session_reply w)) as [|key|name id] eqn:Hbody;
      [| |discriminate];
      intros H; injection H as <-; unfold early_end, after_login;
      rewrite Hbody; cbn;
      destruct (session_cookies (session_reply w)); reflexivity.
  - intros H; injection H as <-. reflexivity.
Qed.

Lemma script_after_login (fuel : nat) (w : World) (arg : cli_arg)
    (offset : Z) (name : string) (id : Z) (c : completion Z) (st : State)
    (evs : list Event) :
  input_offset arg = Some offset ->
  is_error (session_status (session_reply w)) = false ->
  session_body (session_reply w) = BodyUser name id ->
  scheduler fuel w (save_dir w) offset (after_login w) = (c, st, evs) ->
  script fuel w arg initial_state
  = match c with
    | Done o =>
        (Done tt, st,
         startup w arg name id ++ evs
         ++ [EPrint (MsgTally (downloaded_count st)); EPrint (MsgOffset o)])
    | Interrupted =>
        (Raised KeyboardInterrupt, st, startup w arg name id ++ evs)
    | _ => (Pending, st, startup w arg name id ++ evs)
    end
  \/ exists e, c = Raised e.
Proof.
  intros Harg Herr Huser Hs.
  destruct c as [o|e| |]; [left| right; eauto |left|left];
    unfold script, except_Exception, run_until_complete, main, login, input,
      bind, emit, ret, raise, gets, set_cookies, startup, login_attempt;
    rewrite Herr, Huser;
    destruct arg as [|text n|text]; try discriminate Harg;
    injection Harg as <-; cbn;
    fold (save_dir w); fold (after_login w); rewrite Hs; cbn;
    rewrite <- ?app_assoc; reflexivity.
Qed.

(** However the script goes, it either ends early or runs the scheduler
    after a login that succeeded. *)
Lemma script_ends (fuel : nat) (w : World) (arg : cli_arg)
    (c : completion unit) (st : State) (evs : list Event) :
  script fuel w arg initial_state = (c, st, evs) ->
  (exists how,
      early_end_of w arg = Some how /\ (c, st, evs) = early_end w arg how)
  \/ (exists offset name id cs evs_s,
         early_end_of w arg = None
         /\ input_offset arg = Some offset
         /\ scheduler fuel w (save_dir w) offset (after_login w)
            = (cs, st, evs_s)
         /\ ((cs = Pending /\ c = Pending
              /\ evs = startup w arg name id ++ evs_s)
             \/ (cs = Interrupted /\ c = Raised KeyboardInterrupt
                 /\ gathers evs_s <> []
                 /\ evs = startup w arg name id ++ evs_s)
             \/ (exists o,
                    cs = Done o /\ last (queries evs_s) = Some o
                    /\ c = Done tt
                    /\ evs = startup w arg name id ++ evs_s
                             ++ [EPrint (MsgTally (downloaded_count st));
                                 EPrint (MsgOffset o)]))).
Proof.
  intros H.
  destruct (early_end_of w arg) as [how|] eqn:Hearly.
  { left. exists how. split; [reflexivity|].
    rewrite <- H. exact (script_early_end fuel w arg how Hearly). }
  right. unfold early_end_of in Hearly.
  destruct (input_offset arg) as [offset|] eqn:Harg; [|discriminate].
  destruct (is_error _) eqn:Herr; [discriminate|].
  destruct (session_body _) as [|key|name id] eqn:Huser; try discriminate.
  destruct (scheduler fuel w (save_dir w) offset (after_login w))
    as [[cs st1] evs_s] eqn:Hs.
  exists offset, name, id, cs, evs_s.
  destruct (script_after_login fuel w arg offset name id cs st1 evs_s
              Harg Herr Huser Hs) as [Hscript|[e ->]].
  - rewrite Hscript in H.
    destruct (scheduler_outcome _ _ _ _ _ _ _ _ Hs)
      as [->|[[-> Hg]|(o & -> & Hlast)]].
    + injection H as <- <- <-. repeat split; try assumption.
      left. repeat split.
    + injection H as <- <- <-. repeat split; try assumption.
      right; left. repeat split. exact Hg.
    + injection H as <- <- <-. repeat split; try assumption.
      right; right. exists o. repeat split. exact Hlast.
  - destruct (scheduler_outcome _ _ _ _ _ _ _ _ Hs)
      as [Hp|[[Hp _]|(o & Hp & _)]]; discriminate.
Qed.

Lemma startup_quiet (w : World) (arg : cli_arg) (name : string) (id : Z) :
  forallb (fun ev => negb (is_file_event ev)) (startup w arg name id) = true
  /\ completions (startup w arg name id) = 0%nat
  /\ tallies (startup w arg name id) = []
  /\ offset_reports (startup w arg name id) = []
  /\ logouts (startup w arg name id) = 0%nat
  /\ queries (startup w arg name id) = [].
Proof. destruct arg; repeat split. Qed.

Lemma early_end_quiet (w : World) (arg : cli_arg) (how : EarlyEnd) :
  forallb (fun ev => negb (is_file_event ev)) (snd (early_end w arg how))
  = true
  /\ completions (snd (early_end w arg how)) = 0%nat
  /\ downloaded_count (snd (fst (early_end w arg how))) = 0%nat
  /\ offset_reports (snd (early_end w arg how)) = []
  /\ queries (snd (early_end w arg how)) = []
  /\ requests (snd (early_end w arg how)) = [].
Proof.
  destruct how, arg; cbn; try (repeat split; fail);
    destruct (session_cookies (session_reply w)); repeat split.
Qed.

(** *** Where the files go *)












(** X7: the tally counts completed downloads and nothing else.  In every
    run of the script the final [downloaded_count] is the number of
    "download complete" lines, which is the number of files closed; a tally
    is printed at most once, and the one printed is that number.  The
    scheduler itself never touches the session cookies. *)
Theorem X7_tally_counts_completed_downloads :
  forall (fuel : nat) (w : World) (arg : cli_arg) (c : completion unit)
         (st : State) (evs : list Event),
    script fuel w arg initial_state = (c, st, evs) ->
    downloaded_count st = completions evs
    /\ completions evs = closes evs
    /\ (tallies evs = [] \/ tallies evs = [completions evs])
    /\ forall (save_path : string) (offset : Z) (st0 st1 : State)
              (c1 : completion Z) (evs1 : list Event),
        scheduler fuel w save_path offset st0 = (c1, st1, evs1) ->
        cookies st1 = cookies st0
        /\ downloaded_count st1
           = (downloaded_count st0 + completions evs1)%nat.
Proof.
  intros fuel w arg c st evs H.
  assert (Hsched : forall (save_path : string) (offset : Z) (st0 st1 : State)
                          (c1 : completion Z) (evs1 : list Event),
             scheduler fuel w save_path offset st0 = (c1, st1, evs1) ->
             cookies st1 = cookies st0
             /\ downloaded_count st1
                = (downloaded_count st0 + completions evs1)%nat).
  { intros save_path offset st0 st1 c1 evs1 Hs.
    destruct (scheduler_kept _ _ _ _ _ _ _ _ Hs) as (_ & Hc & Hd & _).
    split; assumption. }
  destruct (script_ends _ _ _ _ _ _ H)
    as [(how & _ & Hend)
       |(offset & name & id & cs & evs_s & _ & _ & Hs & Hshape)].
  - destruct (early_end_quiet w arg how) as (Hq & Hc & Hd & _).
    rewrite <- Hend in Hq, Hc, Hd. cbn [fst snd] in Hq, Hc, Hd.
    destruct (kept_quiet (save_dir w) st evs Hq Hc) as (_ & _ & _ & Hcl).
    split; [congruence|]. split; [exact Hcl|]. split; [|exact Hsched].
    rewrite Hc.
    assert (Ht : tallies (snd (early_end w arg how)) = []
                 \/ tallies (snd (early_end w arg how)) = [0%nat]).
    { destruct how, arg; cbn; auto;
        destruct (session_cookies (session_reply w)); cbn; auto. }
    rewrite <- Hend in Ht. exact Ht.
  - destruct (startup_quiet w arg name id) as (Hq & Hc & Ht & _).
    destruct (scheduler_kept _ _ _ _ _ _ _ _ Hs) as (_ & _ & Hd & Hcl).
    cbn [after_login downloaded_count] in Hd.
    destruct (scheduler_events_exclude _ (scheduler_alphabet _ _ _ _ _ _ _ _ Hs))
      as (_ & _ & Hts).
    destruct (kept_quiet (save_dir w) st _ Hq Hc) as (_ & _ & _ & Hcls).
    destruct Hshape as [(_ & _ & ->)|[(_ & _ & _ & ->)|(o & _ & _ & _ & ->)]];
      rewrite ?completions_app, ?closes_app, ?tallies_app, Hc, Ht, Hts,
        <- Hcls, Hc; cbn [completions closes tallies app];
      (split; [lia|]); (split; [lia|]); (split; [|exact Hsched]).
    + left; reflexivity.
    + left; reflexivity.
    + right. f_equal. lia.
Qed.

Lemma X7_tally_counts_completed_downloads_witness :
  downloaded_count (snd (fst (script 9 sample_world NoArgument initial_state)))
  = 4%nat
  /\ tallies (snd (script 9 sample_world NoArgument initial_state)) = [4%nat].
Proof.
  destruct (X7_tally_counts_completed_downloads 9 sample_world NoArgument
              (fst (fst (script 9 sample_world NoArgument initial_state)))
              (snd (fst (script 9 sample_world NoArgument initial_state)))
              (snd (script 9 sample_world NoArgument initial_state))
              ltac:(reflexivity)) as (Hd & _ & _ & _).
  split; [exact Hd|reflexivity].
Defined.




(** X9: the logout request is sent at most once, and only on one path: the
    login was accepted, its cookies -- at least one -- were stored, and then
    its body could not be read.  A run that gets as far as the loop never
    logs out, however it ends. *)
Theorem X9_logout_only_after_unreadable_login :
  forall (fuel : nat) (w : World) (arg : cli_arg) (c : completion unit)
         (st : State) (evs : list Event),
    script fuel w arg initial_state = (c, st, evs) ->
    (logouts evs <= 1)%nat
    /\ (logouts evs = 1%nat <->
        early_end_of w arg = Some LoginUnreadable
        /\ session_cookies (session_reply w) <> [])
    /\ (early_end_of w arg = None -> logouts evs = 0%nat).
Proof.
  intros fuel w arg c st evs H.
  destruct (script_ends _ _ _ _ _ _ H)
    as [(how & Hhow & Hend)
       |(offset & name & id & cs & evs_s & Hnone & _ & Hs & Hshape)].
  - rewrite Hhow.
    assert (Hev : evs = snd (early_end w arg how)) by (rewrite <- Hend; reflexivity).
    rewrite Hev. clear.
    destruct how; cbn [early_end snd].
    + assert (Hz : logouts (arg_echo arg
                             ++ [EPrint (MsgTraceback ValueError);
                                 EPrint (MsgTally 0)]) = 0%nat)
        by (destruct arg; reflexivity).
      rewrite Hz. split; [lia|]. split; [|discriminate].
      split; [discriminate|]. intros [Hd _]. discriminate.
    + assert (Hz : logouts (arg_echo arg ++ login_attempt w
                             ++ [EPrint MsgLoginFailed]) = 0%nat)
        by (destruct arg; reflexivity).
      rewrite Hz. split; [lia|]. split; [|discriminate].
      split; [discriminate|]. intros [Hd _]. discriminate.
    + unfold after_login. cbn [cookies truthy].
      destruct (session_cookies (session_reply w)) as [|kv jar].
      * assert (Hz : logouts (arg_echo arg ++ login_attempt w
                               ++ [EPrint
                                     (MsgTraceback
                                        (body_failure
                                           (session_body (session_reply w))))]
                               ++ []
                               ++ [EPrint (MsgTally 0)]) = 0%nat)
          by (destruct arg; reflexivity).
        rewrite Hz. split; [lia|]. split; [|discriminate].
        split; [discriminate|]. intros [_ Hne]. contradiction.
      * assert (Hz : logouts (arg_echo arg ++ login_attempt w
                               ++ [EPrint
                                     (MsgTraceback
                                        (body_failure
                                           (session_body (session_reply w))))]
                               ++ [EPrint MsgLoggingOut; EDeleteSession]
                               ++ [EPrint (MsgTally 0)]) = 1%nat)
          by (destruct arg; reflexivity).
        rewrite Hz. split; [lia|]. split; [|discriminate].
        split; [|reflexivity]. intros _. split; [reflexivity|discriminate].
  - destruct (startup_quiet w arg name id) as (_ & _ & _ & _ & Hl & _).
    destruct (scheduler_events_exclude _ (scheduler_alphabet _ _ _ _ _ _ _ _ Hs))
      as (Hls & _ & _).
    assert (Hz : logouts evs = 0%nat).
    { destruct Hshape
        as [(_ & _ & ->)|[(_ & _ & _ & ->)|(o & _ & _ & _ & ->)]];
        rewrite !logouts_app, Hl, Hls; reflexivity. }
    rewrite Hz, Hnone. split; [lia|]. split; [|reflexivity].
    split; [discriminate|]. intros [Hd _]. discriminate.
Qed.

Lemma X9_logout_only_after_unreadable_login_witness :
  logouts (snd (script 9 sample_world NoArgument initial_state)) = 0%nat.
Proof.
  apply (X9_logout_only_after_unreadable_login 9 sample_world NoArgument
           (fst (fst (script 9 sample_world NoArgument initial_state)))
           (snd (fst (script 9 sample_world NoArgument initial_state)))
           (snd (script 9 sample_world NoArgument initial_state))
           ltac:(reflexivity)).
  reflexivity.
Defined.

(** ** The partition of a page, in numbers *)

Lemma group_sizes_from (maps : list Beatmap) (r : nat) :
  (r < batch)%nat ->
  forall (q fuel start : nat),
    (length maps - start <= fuel)%nat ->
    (length maps - start = batch * q + r)%nat ->
    List.map (@length Beatmap)
      (List.map (fun i => slice i (i + batch) maps)
         (range_from fuel start (length maps) batch))
    = repeat batch q ++ (if (r =? 0)%nat then [] else [r]).
Proof.
  unfold batch. intros Hr.
  assert (Hstop : forall fuel start,
             (length maps <= start)%nat ->
             range_from fuel start (length maps) 3 = []).
  { intros [|fuel] start Hle; [reflexivity|]. cbn [range_from].
    replace (start <? length maps)%nat with false
      by (symmetry; apply Nat.ltb_ge; exact Hle).
    reflexivity. }
  induction q as [|q IH]; intros fuel start Hfuel Hlen.
  - destruct (r =? 0)%nat eqn:Hr0.
    + apply Nat.eqb_eq in Hr0. rewrite Hstop by lia. reflexivity.
    + apply Nat.eqb_neq in Hr0.
      destruct fuel as [|fuel]; [lia|]. cbn [range_from].
      replace (start <? length maps)%nat with true
        by (symmetry; apply Nat.ltb_lt; lia).
      rewrite Hstop by lia. cbn [List.map repeat app]. unfold slice.
      rewrite length_firstn, length_skipn. f_equal. lia.
  - destruct fuel as [|fuel]; [lia|]. cbn [range_from].
    replace (start <? length maps)%nat with true
      by (symmetry; apply Nat.ltb_lt; lia).
    cbn [List.map repeat app].
    rewrite (IH fuel (start + 3)%nat) by lia.
    unfold slice. rewrite length_firstn, length_skipn. f_equal. lia.
Qed.

(** X10: the slices [beatmaps[r:r+3]] for [r] in [range(0, len, 3)] are a
    partition of the page: put together in order they are the page again;
    for a page of [3 * q + r] items with [r < 3] there are [q] groups of
    three followed, when [r] is not 0, by one group of [r]; an empty page
    has no group. *)
Theorem X10_batches_partition_the_page :
  forall (maps : list Beatmap) (q r : nat),
    length maps = (batch * q + r)%nat ->
    (r < batch)%nat ->
    concat (groups maps) = maps
    /\ List.map (@length Beatmap) (groups maps)
       = repeat batch q ++ (if (r =? 0)%nat then [] else [r])
    /\ (maps = [] <-> groups maps = []).
Proof.
  intros maps q r Hlen Hr.
  destruct (groups_partition maps) as [Hcat _].
  split; [exact Hcat|]. split.
  - unfold groups, range.
    apply (group_sizes_from maps r Hr q); lia.
  - split; [intros ->; reflexivity|].
    intros Hnil. rewrite Hnil in Hcat. symmetry. exact Hcat.
Qed.

Lemma X10_batches_partition_the_page_witness :
  List.map (@length Beatmap)
    (groups (List.map beatmap [1; 2; 3; 4; 5; 6; 7; 8]))
  = [3; 3; 2]%nat.
Proof.
  apply (proj1 (proj2 (X10_batches_partition_the_page
                         (List.map beatmap [1; 2; 3; 4; 5; 6; 7; 8])
                         2 2 ltac:(reflexivity)
                         ltac:(unfold batch; lia)))).
Defined.

(** ** What the loop gathers and requests *)

Lemma requests_of_requests (group : list Beatmap) :
  requests (List.map (fun map => ERequest (beatmapset_id map)) group)
  = ids group
  /\ gathers (List.map (fun map => ERequest (beatmapset_id map)) group) = [].
Proof.
  induction group as [|m group [IH1 IH2]]; [split; reflexivity|].
  cbn. unfold ids in IH1. rewrite IH1, IH2. split; reflexivity.
Qed.

Lemma transfer_events_no_request (evs : list Event) :
  forallb transfer_event evs = true -> requests evs = [].
Proof.
  induction evs as [|ev evs IH]; [reflexivity|].
  cbn [forallb]. intros H. apply andb_true_iff in H as [H1 H2].
  destruct ev; try discriminate; simpl; auto.
Qed.

Lemma await_gather_requests (w : World) (p : string) (offset : Z) (r : nat)
    (group : list Beatmap) (st st' : State) (c : completion unit)
    (evs : list Event) :
  await_gather w p offset r group st = (c, st', evs) ->
  gathers evs = [ids group] /\ requests evs = ids group.
Proof.
  intros H.
  destruct (await_gather_result _ _ _ _ _ _ _ _ _ H) as (rest & -> & Hrest & _).
  destruct (requests_of_requests group) as [Hr Hg].
  cbn [gathers requests].
  rewrite gathers_app, requests_app, Hr, Hg,
    (transfer_events_no_gather _ Hrest), (transfer_events_no_request _ Hrest).
  cbn [app]. rewrite app_nil_r. split; reflexivity.
Qed.

(** The gathers of a page are those of its first groups, all of them when
    the page is done; each gather's requests are its items. *)
Lemma for_batches_gathers (w : World) (p : string) (offset : Z)
    (maps : list Beatmap) :
  forall (rs : list nat) (st st' : State) (c : completion unit)
         (evs : list Event),
    for_batches w p offset maps rs st = (c, st', evs) ->
    exists k,
      gathers evs
      = List.map (fun r => ids (slice r (r + batch) maps)) (firstn k rs)
      /\ requests evs = concat (gathers evs)
      /\ (c = Done tt -> firstn k rs = rs).
Proof.
  induction rs as [|r rs IH]; intros st st' c evs H.
  - injection H as <- <- <-. exists 0%nat. repeat split.
  - cbn [for_batches] in H.
    destruct (bind_inv _ _ _ _ _ _ H)
      as [(a & st1 & ev1 & ev2 & Hm & Hk & ->)
         |[(e & Hm & ->)|[[Hm ->]|[Hm ->]]]];
      destruct (await_gather_requests _ _ _ _ _ _ _ _ _ Hm) as [Hg Hr].
    + destruct (IH _ _ _ _ Hk) as (k & Hg2 & Hr2 & Hall).
      exists (S k). rewrite gathers_app, requests_app, Hg, Hr, Hr2, Hg2.
      cbn [firstn List.map app concat]. repeat split.
      intros Hc. rewrite (Hall Hc). reflexivity.
    + exists 1%nat. rewrite Hg, Hr. cbn [firstn List.map concat].
      rewrite app_nil_r. repeat split. discriminate.
    + exists 1%nat. rewrite Hg, Hr. cbn [firstn List.map concat].
      rewrite app_nil_r. repeat split. discriminate.
    + exists 1%nat. rewrite Hg, Hr. cbn [firstn List.map concat].
      rewrite app_nil_r. repeat split. discriminate.
Qed.

Lemma pass_header_requests (offset : Z) (maps_data : QueryMaps) :
  requests (pass_header offset maps_data) = [].
Proof. unfold pass_header. destruct (0 <? _); reflexivity. Qed.

Lemma loop_body_gathers (w : World) (p : string) (offset : Z)
    (st st' : State) (c : completion (Z * bool)) (evs : list Event) :
  loop_body w p offset st = (c, st', evs) ->
  ((exists e, catalog w offset = QueryRaises e)
   /\ gathers evs = [] /\ requests evs = [])
  \/ exists maps_data k,
      catalog w offset = QueryReturns maps_data
      /\ gathers evs = List.map ids (firstn k (groups (beatmaps maps_data)))
      /\ requests evs = concat (gathers evs)
      /\ ((exists u, c = Done u) ->
          firstn k (groups (beatmaps maps_data)) = groups (beatmaps maps_data)).
Proof.
  rewrite loop_body_unfold.
  destruct (catalog w offset) as [e|maps_data] eqn:Hcat.
  { intros H. injection H as <- <- <-. left. repeat split. eauto. }
  destruct (for_batches _ _ _ _ _ st) as [[c1 st1] ev1] eqn:Hfor.
  destruct (for_batches_gathers _ _ _ _ _ _ _ _ _ Hfor) as (k & Hg & Hr & Hall).
  pose proof (pass_header_gathers offset maps_data) as Hhg.
  pose proof (pass_header_requests offset maps_data) as Hhr.
  remember (pass_header offset maps_data) as header eqn:Hheader.
  clear Hheader.
  assert (Hshape : gathers ev1
                   = List.map ids (firstn k (groups (beatmaps maps_data)))).
  { rewrite Hg. unfold groups. rewrite List.firstn_map, List.map_map.
    reflexivity. }
  assert (Hfull : c1 = Done tt ->
                  firstn k (groups (beatmaps maps_data))
                  = groups (beatmaps maps_data)).
  { intros Hc. unfold groups. rewrite List.firstn_map, (Hall Hc). reflexivity. }
  intros H. right. exists maps_data, k. split; [reflexivity|].
  destruct c1 as [[]|e| |]; [destruct (negb _)| | |];
    injection H as <- <- <-;
    rewrite ?gathers_app, ?requests_app, Hhg, Hhr, Hshape, Hr, Hshape;
    cbn [gathers requests app]; rewrite ?app_nil_r;
    (split; [reflexivity|]); (split; [reflexivity|]);
    first [intros _; exact (Hfull eq_refl) | intros [u Hu]; discriminate].
Qed.

Lemma concat_ids (gs : list (list Beatmap)) :
  concat (List.map ids gs) = ids (concat gs).
Proof.
  induction gs as [|g gs IH]; [reflexivity|].
  cbn [List.map concat]. rewrite IH. unfold ids. rewrite List.map_app.
  reflexivity.
Qed.

Lemma groups_sizes (maps : list Beatmap) (k : nat) :
  List.Forall (fun g : list Z => (1 <= length g <= batch)%nat)
    (List.map ids (firstn k (groups maps))).
Proof.
  destruct (groups_partition maps) as [_ Hall].
  rewrite <- (firstn_skipn k (groups maps)) in Hall.
  apply List.Forall_app in Hall as [Hall _].
  induction Hall as [|g gs Hg _ IH]; [constructor|].
  cbn [List.map]. constructor; [|exact IH].
  unfold ids. rewrite length_map. exact Hg.
Qed.

Lemma loop_body_gather_sizes (w : World) (p : string) (offset : Z)
    (st st' : State) (c : completion (Z * bool)) (evs : list Event) :
  loop_body w p offset st = (c, st', evs) ->
  List.Forall (fun g : list Z => (1 <= length g <= batch)%nat) (gathers evs)
  /\ requests evs = concat (gathers evs).
Proof.
  intros H.
  destruct (loop_body_gathers _ _ _ _ _ _ _ H)
    as [(_ & -> & ->)|(maps_data & k & _ & Hg & Hr & _)].
  - split; [constructor|reflexivity].
  - split; [rewrite Hg; apply groups_sizes|exact Hr].
Qed.

Lemma while_running_gather_sizes (fuel : nat) (w : World) (p : string) :
  forall (offset offset' : Z) (st st' : State) (c : completion unit)
         (evs : list Event),
    while_running fuel w p offset st = (offset', (c, st', evs)) ->
    List.Forall (fun g : list Z => (1 <= length g <= batch)%nat) (gathers evs)
    /\ requests evs = concat (gathers evs).
Proof.
  induction fuel as [|fuel IH]; intros offset offset' st st' c evs H.
  - injection H as <- <- <- <-. split; [constructor|reflexivity].
  - cbn [while_running] in H.
    destruct (loop_body w p offset st) as [[c1 st1] ev1] eqn:Hbody.
    pose proof (loop_body_gather_sizes _ _ _ _ _ _ _ Hbody) as H1.
    destruct c1 as [[o1 [|]]|e| |];
      try (injection H as <- <- <- <-; exact H1).
    destruct (while_running fuel w p o1 st1) as [o2 [[c2 st2] ev2]] eqn:Hrec.
    injection H as <- <- <- <-.
    destruct H1 as [Hs1 Hr1]. destruct (IH _ _ _ _ _ _ Hrec) as [Hs2 Hr2].
    rewrite gathers_app, requests_app, Hr1, Hr2, concat_app.
    split; [apply List.Forall_app; split; assumption|reflexivity].
Qed.

(** X11: in every run of the script each [asyncio.gather] is handed at
    least one and at most three downloads, and the download requests sent
    are exactly those of the gathered items, batch after batch and in the
    order of the batch: nothing is requested outside a batch. *)
Theorem X11_every_gather_has_one_to_three_downloads :
  forall (fuel : nat) (w : World) (arg : cli_arg) (c : completion unit)
         (st : State) (evs : list Event),
    script fuel w arg initial_state = (c, st, evs) ->
    List.Forall (fun g : list Z => (1 <= length g <= batch)%nat) (gathers evs)
    /\ requests evs = concat (gathers evs).
Proof.
  intros fuel w arg c st evs H.
  destruct (script_ends _ _ _ _ _ _ H)
    as [(how & _ & Hend)
       |(offset & name & id & cs & evs_s & _ & _ & Hs & Hshape)].
  - assert (Hev : evs = snd (early_end w arg how))
      by (rewrite <- Hend; reflexivity).
    rewrite Hev. clear.
    assert (Hnone : gathers (snd (early_end w arg how)) = []
                    /\ requests (snd (early_end w arg how)) = []).
    { destruct how, arg; cbn; try (split; reflexivity);
        destruct (session_cookies (session_reply w)); split; reflexivity. }
    destruct Hnone as [-> ->]. split; [constructor|reflexivity].
  - assert (Hstart : gathers (startup w arg name id) = []
                     /\ requests (startup w arg name id) = [])
      by (destruct arg; split; reflexivity).
    destruct Hstart as [Hg0 Hr0].
    assert (Hsched : List.Forall
                       (fun g : list Z => (1 <= length g <= batch)%nat)
                       (gathers evs_s)
                     /\ requests evs_s = concat (gathers evs_s)).
    { destruct (while_running fuel w (save_dir w) offset (after_login w))
        as [o [[c1 st1] ev1]] eqn:Hloop.
      rewrite (scheduler_of_loop _ _ _ _ _ _ _ _ _ Hloop) in Hs.
      destruct (while_running_gather_sizes _ _ _ _ _ _ _ _ _ Hloop)
        as [Hsz Hrq].
      destruct c1 as [[]|e| |]; [| destruct e| |];
        injection Hs as <- <- <-;
        rewrite ?gathers_app, ?requests_app; cbn [gathers requests];
        rewrite ?app_nil_r; split; assumption. }
    destruct Hsched as [Hsz Hrq].
    destruct Hshape
      as [(_ & _ & ->)|[(_ & _ & _ & ->)|(o & _ & _ & _ & ->)]];
      rewrite ?gathers_app, ?requests_app, Hg0, Hr0; cbn [gathers requests app];
      rewrite ?app_nil_r; split; assumption.
Qed.

Lemma X11_every_gather_has_one_to_three_downloads_witness :
  gathers (snd (script 9 sample_world NoArgument initial_state))
  = [[101; 102; 103]; [104; 105]]
  /\ requests (snd (script 9 sample_world NoArgument initial_state))
     = [101; 102; 103; 104; 105].
Proof.
  destruct (X11_every_gather_has_one_to_three_downloads 9 sample_world
              NoArgument
              (fst (fst (script 9 sample_world NoArgument initial_state)))
              (snd (fst (script 9 sample_world NoArgument initial_state)))
              (snd (script 9 sample_world NoArgument initial_state))
              ltac:(reflexivity)) as [_ Hr].
  split; [reflexivity|exact Hr].
Defined.

(** X12: a pass of the loop requests the items of the page it fetched in
    page order, each at most once, and never an item that is not on the
    page: what it requests is a prefix of the page made of whole batches.
    When the pass completes, it is the whole page: every item was requested
    exactly once. *)
Theorem X12_pass_requests_each_item_once :
  forall (w : World) (save_path : string) (offset : Z) (st st' : State)
         (maps_data : QueryMaps) (c : completion (Z * bool))
         (evs : list Event),
    catalog w offset = QueryReturns maps_data ->
    loop_body w save_path offset st = (c, st', evs) ->
    exists k,
      requests evs = ids (concat (firstn k (groups (beatmaps maps_data))))
      /\ ids (beatmaps maps_data)
         = requests evs
           ++ ids (concat (skipn k (groups (beatmaps maps_data))))
      /\ ((exists u, c = Done u) -> requests evs = ids (beatmaps maps_data)).
Proof.
  intros w save_path offset st st' maps_data c evs Hcat H.
  destruct (loop_body_gathers _ _ _ _ _ _ _ H)
    as [([e He] & _)|(md & k & Hcat' & Hg & Hr & Hall)].
  - rewrite Hcat in He. discriminate He.
  - rewrite Hcat in Hcat'. injection Hcat' as <-.
    exists k. rewrite Hr, Hg, concat_ids.
    destruct (groups_partition (beatmaps maps_data)) as [Hcatg _].
    split; [reflexivity|]. split.
    + rewrite <- Hcatg at 1.
      rewrite <- (firstn_skipn k (groups (beatmaps maps_data))) at 1.
      rewrite concat_app. unfold ids. rewrite List.map_app. reflexivity.
    + intros Hdone. rewrite (Hall Hdone), Hcatg. reflexivity.
Qed.

Lemma X12_pass_requests_each_item_once_witness :
  requests (snd (loop_body sample_world "./" 0 initial_state))
  = [101; 102; 103; 104; 105].
Proof.
  destruct (X12_pass_requests_each_item_once sample_world "./" 0
              initial_state
              (snd (fst (loop_body sample_world "./" 0 initial_state)))
              {| result_count := 5;
                 beatmaps := List.map beatmap [101; 102; 103; 104; 105] |}
              (fst (fst (loop_body sample_world "./" 0 initial_state)))
              (snd (loop_body sample_world "./" 0 initial_state))
              ltac:(reflexivity) ltac:(reflexivity)) as (k & _ & _ & Hdone).
  apply Hdone. exists (1, true). reflexivity.
Defined.

(** ** Pages on which nothing fails *)

Lemma resume_sound (p : string) (t t' : Task) (st st' : State)
    (ev : list Event) :
  sound t = true -> resume p t st = (t', st', ev) ->
  sound t' = true
  /\ (downloaded_count st' + owed t' = downloaded_count st + owed t)%nat.
Proof.
  intros Hs H.
  destruct t as [setid reply|[|response]|filename received rest| |e];
    cbn [resume] in H; try discriminate Hs.
  - injection H as <- <- <-. split; [exact Hs|reflexivity].
  - cbn [sound harmless] in Hs. cbn [owed completes].
    unfold downloadable, storable in *.
    destruct (status_code response =? 429) eqn:H429.
    { apply Z.eqb_eq in H429. rewrite H429 in Hs. discriminate Hs. }
    destruct (status_code response =? 404) eqn:H404.
    { injection H as <- <- <-. split; reflexivity. }
    cbn [negb andb orb] in Hs |- *.
    destruct (content_length response); try discriminate Hs.
    destruct (content_disposition response); try discriminate Hs.
    destruct (open_fails response); try discriminate Hs.
    cbn [negb andb] in Hs |- *. rewrite Hs.
    injection H as <- <- <-. split; [exact Hs|reflexivity].
  - cbn [sound] in Hs. unfold stored in Hs.
    apply andb_true_iff in Hs as [Hs Hclose].
    apply andb_true_iff in Hs as [Hw Hbreak].
    apply negb_true_iff in Hclose. apply negb_true_iff in Hbreak.
    destruct (chunks rest) as [|chunk more].
    + rewrite Hbreak, Hclose in H. injection H as <- <- <-.
      cbn. split; [reflexivity|lia].
    + cbn [forallb] in Hw. apply andb_true_iff in Hw as [Hw1 Hw].
      apply negb_true_iff in Hw1. rewrite Hw1 in H.
      injection H as <- <- <-. cbn [sound owed]. split; [|reflexivity].
      unfold stored. cbn [chunks breaks_off close_fails].
      rewrite Hw, Hbreak, Hclose. reflexivity.
  - injection H as <- <- <-. split; reflexivity.
Qed.

Lemma resume_n_sound (n : nat) (p : string) :
  forall (t t' : Task) (st st' : State) (evs : list Event),
    sound t = true -> resume_n n p t st = (t', st', evs) ->
    sound t' = true
    /\ (downloaded_count st' + owed t' = downloaded_count st + owed t)%nat.
Proof.
  induction n as [|n IH]; intros t t' st st' evs Hs H.
  - injection H as <- <- <-. split; [exact Hs|reflexivity].
  - rewrite resume_n_S in H.
    destruct (resume p t st) as [[t1 st1] ev1] eqn:H1.
    destruct (resume_n n p t1 st1) as [[t2 st2] ev2] eqn:H2.
    injection H as <- <- <-.
    destruct (resume_sound _ _ _ _ _ _ Hs H1) as [Hs1 Hd1].
    destruct (IH _ _ _ _ _ Hs1 H2) as [Hs2 Hd2].
    split; [exact Hs2|lia].
Qed.

Lemma run_to_end_sound (p : string) (t t' : Task) (st st' : State)
    (evs : list Event) :
  sound t = true -> run_to_end p t st = (t', st', evs) ->
  t' = Returned
  /\ downloaded_count st' = (downloaded_count st + owed t)%nat.
Proof.
  intros Hs H.
  pose proof (run_to_end_finished _ _ _ _ _ _ H) as Hfin.
  destruct (resume_n_sound _ _ _ _ _ _ _ Hs H) as [Hs' Hd].
  destruct t'; try discriminate Hfin; try discriminate Hs'.
  cbn [owed] in Hd. split; [reflexivity|lia].
Qed.

Lemma owed_all_insert (ts : list Task) :
  forall (i : nat) (t t' : Task),
    ts !! i = Some t ->
    (owed_all (<[i:=t']> ts) + owed t = owed_all ts + owed t')%nat.
Proof.
  induction ts as [|t0 ts IH]; intros i t t' Hi; [discriminate|].
  destruct i as [|i]; simpl in Hi.
  - injection Hi as ->.
    change (<[0%nat:=t']> (t :: ts)) with (t' :: ts).
    cbn [owed_all]. lia.
  - specialize (IH i t t' Hi).
    change (<[S i:=t']> (t0 :: ts)) with (t0 :: <[i:=t']> ts).
    cbn [owed_all]. lia.
Qed.

Lemma finish_in_order_sound (p : string) :
  forall (ts ts' : list Task) (c : completion unit) (st st' : State)
         (evs : list Event),
    forallb sound ts = true ->
    finish_in_order p ts st = (c, ts', st', evs) ->
    c = Done tt
    /\ downloaded_count st' = (downloaded_count st + owed_all ts)%nat.
Proof.
  induction ts as [|t ts IH]; intros ts' c st st' evs Hs H.
  - injection H as <- <- <- <-. split; [reflexivity|simpl; lia].
  - cbn [forallb] in Hs. apply andb_true_iff in Hs as [Ht Hts].
    cbn [finish_in_order] in H.
    destruct (run_to_end p t st) as [[t1 st1] ev1] eqn:H1.
    destruct (run_to_end_sound _ _ _ _ _ _ Ht H1) as [-> Hd1].
    destruct (finish_in_order p ts st1) as [[[c2 ts2] st2] ev2] eqn:H2.
    destruct (IH _ _ _ _ _ Hts H2) as [-> Hd2].
    injection H as <- <- <- <-. split; [reflexivity|]. cbn [owed_all]. lia.
Qed.

Lemma drive_sound (p : string) (lng : nat) :
  forall (sched : list nat) (ts ts' : list Task) (c : completion unit)
         (st st' : State) (evs : list Event),
    forallb sound ts = true ->
    drive p lng None sched ts st = (c, ts', st', evs) ->
    c = Done tt
    /\ downloaded_count st' = (downloaded_count st + owed_all ts)%nat.
Proof.
  induction sched as [|i sched IH]; intros ts ts' c st st' evs Hs H.
  - exact (finish_in_order_sound _ _ _ _ _ _ _ Hs H).
  - cbn [drive strikes served] in H.
    destruct (ts !! i) as [t|] eqn:Hi; [|exact (IH _ _ _ _ _ _ Hs H)].
    destruct (is_finished t); [exact (IH _ _ _ _ _ _ Hs H)|].
    destruct (resume p t st) as [[t1 st1] ev1] eqn:H1.
    destruct (resume_sound _ _ _ _ _ _ (forallb_lookup _ _ _ _ Hs Hi) H1)
      as [Hs1 Hd1].
    pose proof (owed_all_insert ts i t t1 Hi) as Hins.
    destruct (drive p lng None sched (<[i:=t1]> ts) st1)
      as [[[c2 ts2] st2] ev2] eqn:H2.
    destruct (IH _ _ _ _ _ _ (forallb_insert _ _ i _ Hs Hs1) H2) as [-> Hd2].
    destruct t1; try discriminate Hs1; injection H as <- <- <- <-;
      (split; [reflexivity|lia]).
Qed.

Lemma awaiting_sound (w : World) (offset : Z) (group : list Beatmap) :
  forall r : nat,
    (forall j, (j < length group)%nat ->
               harmless (download_reply w offset (r + j)) = true) ->
    forallb sound
      (imap (fun j (_ : Beatmap) =>
               AwaitingResponse (download_reply w offset (r + j))) group)
    = true
    /\ owed_all
         (imap (fun j (_ : Beatmap) =>
                  AwaitingResponse (download_reply w offset (r + j))) group)
       = completing w offset r (length group).
Proof.
  induction group as [|m group IH]; intros r H; [split; reflexivity|].
  cbn [imap forallb owed_all length completing sound owed].
  assert (Hshift : imap
                     ((fun j (_ : Beatmap) =>
                         AwaitingResponse (download_reply w offset (r + j)))
                      ∘ S) group
                   = imap (fun j (_ : Beatmap) =>
                             AwaitingResponse
                               (download_reply w offset (S r + j))) group).
  { apply imap_ext. intros j x _. unfold compose. cbn.
    replace (r + S j)%nat with (S (r + j)) by lia. reflexivity. }
  rewrite Hshift.
  destruct (IH (S r)) as [Hs Ho].
  { intros j Hj. replace (S r + j)%nat with (r + S j)%nat by lia.
    apply H. simpl. lia. }
  rewrite Hs, Ho.
  pose proof (H 0%nat ltac:(simpl; lia)) as H0.
  replace (r + 0)%nat with r in * by lia.
  rewrite H0. split; reflexivity.
Qed.

Lemma await_gather_sound (w : World) (p : string) (offset : Z) (r : nat)
    (group : list Beatmap) (st st' : State) (c : completion unit)
    (evs : list Event) :
  sigint w offset r = None ->
  (forall j, (j < length group)%nat ->
             harmless (download_reply w offset (r + j)) = true) ->
  await_gather w p offset r group st = (c, st', evs) ->
  c = Done tt
  /\ downloaded_count st'
     = (downloaded_count st + completing w offset r (length group))%nat.
Proof.
  intros Hsig Hh. unfold await_gather, bind, emit, gather, coroutines.
  rewrite start_all_coroutines, Hsig.
  destruct (awaiting_sound w offset group r Hh) as [Hs Ho].
  destruct (drive _ _ _ _ _ _) as [[[c1 ts1] st1] ev1] eqn:Hd.
  destruct (drive_sound _ _ _ _ _ _ _ _ _ Hs Hd) as [-> Hdc].
  intros H. injection H as <- <- <-. split; [reflexivity|].
  rewrite Hdc, Ho. reflexivity.
Qed.

Lemma completing_split (w : World) (offset : Z) (a : nat) :
  forall (start b : nat),
    completing w offset start (a + b)
    = (completing w offset start a + completing w offset (start + a) b)%nat.
Proof.
  induction a as [|a IH]; intros start b.
  - cbn. replace (start + 0)%nat with start by lia. reflexivity.
  - cbn [Nat.add completing]. rewrite IH.
    replace (S start + a)%nat with (start + S a)%nat by lia. lia.
Qed.

Lemma for_batches_sound (w : World) (p : string) (offset : Z)
    (maps : list Beatmap) :
  (forall r, sigint w offset r = None) ->
  (forall i, (i < length maps)%nat ->
             harmless (download_reply w offset i) = true) ->
  forall (fuel start : nat) (st st' : State) (c : completion unit)
         (evs : list Event),
    (length maps - start <= fuel)%nat ->
    for_batches w p offset maps (range_from fuel start (length maps) batch) st
    = (c, st', evs) ->
    c = Done tt
    /\ downloaded_count st'
       = (downloaded_count st
          + completing w offset start (length maps - start))%nat.
Proof.
  intros Hsig Hh.
  induction fuel as [|fuel IH]; intros start st st' c evs Hfuel H.
  - injection H as <- <- <-. split; [reflexivity|].
    replace (length maps - start)%nat with 0%nat by lia. simpl. lia.
  - cbn [range_from] in H.
    destruct (start <? length maps)%nat eqn:Hlt.
    + apply Nat.ltb_lt in Hlt. cbn [for_batches] in H.
      set (group := slice start (start + batch) maps) in *.
      assert (Hlen : length group = Nat.min batch (length maps - start)).
      { unfold group, slice. rewrite length_firstn, length_skipn. lia. }
      destruct (bind_inv _ _ _ _ _ _ H)
        as [(a & st1 & ev1 & ev2 & Hm & Hk & ->)
           |[(e & Hm & ->)|[[Hm ->]|[Hm ->]]]];
        destruct (await_gather_sound w p offset start group _ _ _ _
                    (Hsig start) ltac:(intros j Hj; apply Hh; lia) Hm)
          as [Hc Hd];
        try discriminate Hc.
      destruct (IH (start + batch)%nat _ _ _ _ ltac:(unfold batch; lia) Hk)
        as [-> Hd2].
      split; [reflexivity|]. rewrite Hd2, Hd, Hlen.
      replace (length maps - start)%nat
        with (Nat.min batch (length maps - start)
              + (length maps - (start + batch)))%nat at 2 by lia.
      rewrite completing_split.
      destruct (Nat.le_gt_cases batch (length maps - start)) as [Hle|Hgt].
      * rewrite Nat.min_l by exact Hle. lia.
      * rewrite Nat.min_r by lia.
        replace (length maps - (start + batch))%nat with 0%nat by lia.
        cbn [completing]. lia.
    + apply Nat.ltb_ge in Hlt. injection H as <- <- <-.
      split; [reflexivity|].
      replace (length maps - start)%nat with 0%nat by lia. simpl. lia.
Qed.

(** X13: a page on which no download raises -- every answer is a 404, or a
    response with both headers that is not a 429 and whose file the disk
    stores -- is processed to its end whatever the order in which data
    arrives, provided no Ctrl-C arrives while its batches are gathered: the
    pass completes, moving the offset up by one if the page has items and
    ending the loop if it has none, every item has been requested once, and
    the tally has grown by exactly the number of items that were not
    gone. *)
Theorem X13_page_without_failures_completes :
  forall (w : World) (save_path : string) (offset : Z) (st st' : State)
         (maps_data : QueryMaps) (c : completion (Z * bool))
         (evs : list Event),
    catalog w offset = QueryReturns maps_data ->
    (forall r, sigint w offset r = None) ->
    (forall i, (i < length (beatmaps maps_data))%nat ->
               harmless (download_reply w offset i) = true) ->
    loop_body w save_path offset st = (c, st', evs) ->
    c = Done (if (length (beatmaps maps_data) =? 0)%nat
              then (offset, false) else (offset + 1, true))
    /\ downloaded_count st'
       = (downloaded_count st
          + completing w offset 0 (length (beatmaps maps_data)))%nat
    /\ completions evs = completing w offset 0 (length (beatmaps maps_data))
    /\ requests evs = ids (beatmaps maps_data).
Proof.
  intros w save_path offset st st' maps_data c evs Hcat Hsig Hh H.
  pose proof (loop_body_kept _ _ _ _ _ _ _ H) as (_ & _ & Hdc & _).
  pose proof (loop_body_gathers _ _ _ _ _ _ _ H) as Hg.
  rewrite loop_body_unfold, Hcat in H.
  destruct (for_batches _ _ _ _ _ st) as [[c1 st1] ev1] eqn:Hfor.
  unfold range in Hfor.
  destruct (for_batches_sound w save_path offset (beatmaps maps_data) Hsig Hh
              (length (beatmaps maps_data) - 0) 0%nat st st1 c1 ev1
              (Nat.le_refl _) Hfor) as [-> Hd].
  rewrite Nat.sub_0_r in Hd.
  assert (Hc : c = Done (if (length (beatmaps maps_data) =? 0)%nat
                         then (offset, false) else (offset + 1, true))
               /\ st' = st1).
  { destruct (length (beatmaps maps_data) =? 0)%nat; cbn [negb] in H;
      injection H as <- <- _; split; reflexivity. }
  destruct Hc as [Hc ->].
  split; [exact Hc|]. split; [exact Hd|]. split; [lia|].
  destruct Hg as [([e He] & _)|(md & k & Hcat' & Hgs & Hr & Hall)].
  - rewrite Hcat in He. discriminate He.
  - rewrite Hcat in Hcat'. injection Hcat' as <-.
    rewrite Hr, Hgs, concat_ids, (Hall ltac:(rewrite Hc; eauto)).
    rewrite (proj1 (groups_partition (beatmaps maps_data))). reflexivity.
Qed.

Lemma X13_page_without_failures_completes_witness :
  fst (fst (loop_body sample_world "./" 0 initial_state)) = Done (1, true)
  /\ downloaded_count (snd (fst (loop_body sample_world "./" 0 initial_state)))
     = 4%nat.
Proof.
  destruct (X13_page_without_failures_completes sample_world "./" 0
              initial_state
              (snd (fst (loop_body sample_world "./" 0 initial_state)))
              {| result_count := 5;
                 beatmaps := List.map beatmap [101; 102; 103; 104; 105] |}
              (fst (fst (loop_body sample_world "./" 0 initial_state)))
              (snd (loop_body sample_world "./" 0 initial_state))
              ltac:(reflexivity)
              ltac:(reflexivity)
              ltac:(intros [|[|[|[|[|i]]]]] Hi; first [reflexivity | simpl in Hi; lia])
              ltac:(reflexivity)) as (Hc & Hd & _).
  split; [exact Hc|exact Hd].
Defined.
